(** * Spot reconciliation and geospatial validation: a shallow embedding

    The Python scripts of the repository are embedded function by function:

    - the path normaliser shared by the two mapping scripts (module
      [PathNormalizer]) and the folder inventory (module [Inventory]);
    - [fix_spots_mapping_v2.py]  (module [MappingV2]): evidence index,
      vote tally, assembler;
    - [fix_spots_mapping.py]     (module [MappingV1]): location-to-folder
      mapping with the positional fallback;
    - [update_spots_json.py]     (module [UpdateSpots]): assembler keyed by
      the folder number;
    - [correct_coordinates_crawlee.py] (module [Corrector]): Haversine
      distance, the correction loop and the query of the lookup;
    - [transform_data.py]        (module [TransformData]): image paths;
    - [filter_malaysia_only.py]  (module [Geofence]): membership test and
      filter.

    Conventions.  A Python [str] is a [string] of bytes (UTF-8); only ASCII
    letters, digits and white space are interpreted by [lower] and [int].
    A Python [dict] is an association list in insertion order without
    repeated keys; JSON numbers are rationals ([Q]).  [calculate_distance]
    is given in exact arithmetic, with the transcendental functions of
    the real numbers; the correction loop is given both with that
    function and with any function in its place, which covers the
    floating-point function of the interpreter. *)

From Stdlib Require Import List String Ascii Bool Arith ZArith QArith Lia.
From Stdlib Require Import DecimalString DecimalZ DecimalPos DecimalN.
From Stdlib Require Import Reals Lra.
From Stdlib Require Import Sorted Permutation.
Import ListNotations.

Close Scope R_scope.
Close Scope Q_scope.
Local Open Scope list_scope.
Local Open Scope string_scope.
Local Open Scope nat_scope.

(* ================================================================= *)
(** ** Python strings *)

Module PyStr.

(** [s.replace(a, b)] for one-character [a] and [b]. *)
Fixpoint replace_char (a b : ascii) (s : string) : string :=
  match s with
  | EmptyString => EmptyString
  | String c s' =>
      String (if Ascii.eqb c a then b else c) (replace_char a b s')
  end.

(** [s.startswith(p)]. *)
Definition startswith (p s : string) : bool := String.prefix p s.

(** [s[n:]]. *)
Fixpoint drop (n : nat) (s : string) : string :=
  match n, s with
  | O, _ => s
  | S _, EmptyString => EmptyString
  | S k, String _ s' => drop k s'
  end.

(** [sub in s]. *)
Fixpoint contains (sub s : string) : bool :=
  match s with
  | EmptyString => String.prefix sub s
  | String _ s' => String.prefix sub s || contains sub s'
  end.

(** [s.split(sep)] for a one-character separator. *)
Fixpoint split (sep : ascii) (s : string) : list string :=
  match s with
  | EmptyString => [EmptyString]
  | String c s' =>
      if Ascii.eqb c sep then EmptyString :: split sep s'
      else match split sep s' with
           | h :: t => String c h :: t
           | [] => [String c EmptyString]
           end
  end.

(** [s.replace(old, '')] for a non-empty [old]: occurrences are removed
    from left to right without overlap.  [skip] counts the characters of
    the occurrence under removal that are still to be dropped. *)
Fixpoint remove_aux (old : string) (skip : nat) (s : string) : string :=
  match s with
  | EmptyString => EmptyString
  | String c s' =>
      match skip with
      | S k => remove_aux old k s'
      | O =>
          if String.prefix old s
          then remove_aux old (String.length old - 1) s'
          else String c (remove_aux old 0 s')
      end
  end.

Definition remove (old s : string) : string := remove_aux old 0 s.

(** [s.replace(old, new, 1)] for a non-empty [old]: the first occurrence
    only. *)
Fixpoint replace_first (old new s : string) : string :=
  match s with
  | EmptyString => EmptyString
  | String c s' =>
      if String.prefix old s
      then new ++ drop (String.length old) s
      else String c (replace_first old new s')
  end.

(** [c.lower()] on ASCII letters; every other byte is kept. *)
Definition lower_ascii (c : ascii) : ascii :=
  let n := nat_of_ascii c in
  if (65 <=? n) && (n <=? 90) then ascii_of_nat (n + 32) else c.

Fixpoint lower (s : string) : string :=
  match s with
  | EmptyString => EmptyString
  | String c s' => String (lower_ascii c) (lower s')
  end.

(** The white space that [int] skips around the number: tab, line feed,
    vertical tab, form feed, carriage return and space.  (The separators
    0x1c to 0x1f are white space for [str.int_strip] but not for [int].) *)
Definition is_int_space (c : ascii) : bool :=
  let n := nat_of_ascii c in
  ((9 <=? n) && (n <=? 13)) || (n =? 32).

Fixpoint int_lstrip (s : string) : string :=
  match s with
  | EmptyString => EmptyString
  | String c s' => if is_int_space c then int_lstrip s' else s
  end.

Fixpoint int_rstrip (s : string) : string :=
  match s with
  | EmptyString => EmptyString
  | String c s' =>
      let r := int_rstrip s' in
      if is_int_space c && String.eqb r EmptyString then EmptyString
      else String c r
  end.

Definition int_strip (s : string) : string := int_rstrip (int_lstrip s).

Definition digit_of (c : ascii) : option Z :=
  let n := nat_of_ascii c in
  if (48 <=? n) && (n <=? 57) then Some (Z.of_nat (n - 48)) else None.

(** Decimal digits, single underscores allowed between digits. *)
Fixpoint parse_digits (acc : Z) (after_digit : bool) (s : string)
  : option Z :=
  match s with
  | EmptyString => if after_digit then Some acc else None
  | String c s' =>
      match digit_of c with
      | Some d => parse_digits (acc * 10 + d)%Z true s'
      | None =>
          if Ascii.eqb c "_"%char && after_digit
          then parse_digits acc false s'
          else None
      end
  end.

(** [int(s)] for a text of ASCII characters: white space around, a sign,
    decimal digits with single underscores between them; [None] stands
    for [ValueError].  (Outside ASCII, [int] also takes the other decimal
    digits and white space of Unicode; a text with such a character is
    refused here.) *)
Definition int (s : string) : option Z :=
  match int_strip s with
  | String "-"%char d => option_map Z.opp (parse_digits 0 false d)
  | String "+"%char d => parse_digits 0 false d
  | d => parse_digits 0 false d
  end.

(** [str(n)] for an integer, as an f-string formats it. *)
Definition str_of_Z (n : Z) : string :=
  NilZero.string_of_int (Z.to_int n).

(** Insertion into a list sorted by [String.leb] (code-point order). *)
Fixpoint insert_sorted (x : string) (l : list string) : list string :=
  match l with
  | [] => [x]
  | y :: l' => if String.leb x y then x :: l else y :: insert_sorted x l'
  end.

(** [sorted(l)] on strings. *)
Fixpoint sorted (l : list string) : list string :=
  match l with
  | [] => []
  | x :: l' => insert_sorted x (sorted l')
  end.

(** [PurePosixPath(s).name]: the last component, where empty components
    and single dots are dropped; [""] when there is none. *)
Definition path_parts (s : string) : list string :=
  filter (fun p => negb (String.eqb p EmptyString || String.eqb p "."))
         (split "/"%char s).

Definition path_name (s : string) : string :=
  last (path_parts s) EmptyString.

End PyStr.

(* ================================================================= *)
(** ** Python dictionaries, in insertion order *)

Class PyKey (K : Type) := {
  key_eqb : K -> K -> bool;
  key_eqb_spec : forall a b, reflect (a = b) (key_eqb a b)
}.

#[export] Instance PyKey_string : PyKey string :=
  {| key_eqb := String.eqb; key_eqb_spec := String.eqb_spec |}.

#[export] Instance PyKey_nat : PyKey nat :=
  {| key_eqb := Nat.eqb; key_eqb_spec := Nat.eqb_spec |}.

#[export] Instance PyKey_Z : PyKey Z :=
  {| key_eqb := Z.eqb; key_eqb_spec := Z.eqb_spec |}.

Module PyDict.
Section Dict.
Context {K V : Type} `{PyKey K}.

Definition dict := list (K * V).

(** [d.get(k)]. *)
Fixpoint get (k : K) (d : dict) : option V :=
  match d with
  | [] => None
  | (k', v) :: d' => if key_eqb k k' then Some v else get k d'
  end.

(** [k in d]. *)
Definition mem (k : K) (d : dict) : bool :=
  match get k d with Some _ => true | None => false end.

(** [d[k] = v]: an existing key keeps its place, a new key goes last. *)
Fixpoint set (k : K) (v : V) (d : dict) : dict :=
  match d with
  | [] => [(k, v)]
  | (k', v') :: d' =>
      if key_eqb k k' then (k', v) :: d' else (k', v') :: set k v d'
  end.

Definition keys (d : dict) : list K := map fst d.
Definition values (d : dict) : list V := map snd d.
End Dict.
Arguments dict : clear implicits.
End PyDict.

(** [max(items, key=lambda x: x[1])]: the first item whose count no later
    item exceeds; [None] stands for the [ValueError] on an empty sequence. *)
Fixpoint max_from {K : Type} (best : K * nat) (items : list (K * nat))
  : K * nat :=
  match items with
  | [] => best
  | it :: rest =>
      if snd best <? snd it then max_from it rest else max_from best rest
  end.

Definition py_max {K : Type} (items : list (K * nat)) : option (K * nat) :=
  match items with
  | [] => None
  | it :: rest => Some (max_from it rest)
  end.

(** [enumerate(l)]. *)
Definition enumerate {A : Type} (l : list A) : list (nat * A) :=
  combine (seq 0 (List.length l)) l.

(** Outcome of code that may raise [IndexError]. *)
Inductive py_result (A : Type) : Type :=
| Ok (a : A)
| IndexError.
Arguments Ok {A} a.
Arguments IndexError {A}.

(** [l[i]] for a Python list, negative indices counting from the end. *)
Definition py_index {A : Type} (l : list A) (i : Z) : py_result A :=
  let n := Z.of_nat (List.length l) in
  let j := if (i <? 0)%Z then (i + n)%Z else i in
  if ((0 <=? j) && (j <? n))%Z
  then match nth_error l (Z.to_nat j) with
       | Some a => Ok a
       | None => IndexError
       end
  else IndexError.


(** [d.get(k, default)] once the lookup has been done. *)
Definition get_or {A : Type} (o : option A) (default : A) : A :=
  match o with
  | Some a => a
  | None => default
  end.

(** [bool(s)] for a string. *)
Definition nonempty (s : string) : bool := negb (String.eqb s EmptyString).

(* ================================================================= *)
(** ** Data model *)

(** An enrichment record.  An absent key is [None]; an image is its
    [local_path], [""] when the key is absent.  A record without
    [google_maps_data] reads as one whose fields are all absent. *)
Module Enriched.
Record GoogleMapsData : Type := {
  place_name : option string;
  address : option string;
  category : option string;
  rating : option Q;
  images : list string
}.

Record Location : Type := {
  latitude : option Q;
  longitude : option Q;
  description : option string;
  google_maps_data : GoogleMapsData
}.
End Enriched.

(** A record of [spots-simple.json].  The keys that the geofence filter
    reads through [.get] may be absent. *)
Module Spot.
Record t : Type := {
  id : option Z;
  name : option string;
  lat : option Q;
  lng : option Q;
  description : option string;
  category : string;
  images : list string;
  rating : option Q;
  address : option string;
  notes : string
}.

Definition set_id (i : Z) (s : t) : t :=
  {| id := Some i; name := name s; lat := lat s; lng := lng s;
     description := description s; category := category s;
     images := images s; rating := rating s; address := address s;
     notes := notes s |}.
End Spot.

(** The directory scan: every sub-directory of [SPOTS_DIR] with the names
    of its image files, both in [iterdir] order. *)
Definition listing : Type := list (string * list string).

(* ================================================================= *)
(** ** PathNormalizer (the same text in both mapping scripts) *)

Module PathNormalizer.
Import PyStr.

Definition prefixes : list string :=
  ["images/"; "scraped_data/images/"; "images\"; "scraped_data\images\"].

(** The [for prefix in prefixes] loop with its [break]. *)
Fixpoint strip_prefix (ps : list string) (path : string) : string :=
  match ps with
  | [] => path
  | prefix :: ps' =>
      if startswith prefix path then drop (String.length prefix) path
      else strip_prefix ps' path
  end.

Definition get_spot_folder_from_path (path_str : string) : option string :=
  let path := replace_char "\"%char "/"%char path_str in
  let path := strip_prefix prefixes path in
  if contains "spot_" path
  then find (startswith "spot_") (split "/"%char path)
  else None.

Definition get_image_filename_from_path (path_str : string) : string :=
  path_name path_str.

End PathNormalizer.

(* ================================================================= *)
(** ** The folder inventory (the same text in three scripts) *)

Module Inventory.
Import PyStr PyDict.

(** [get_existing_images()]: folder name to sorted file names, folders
    without images left out. *)
Definition get_existing_images (spots_dir : listing)
  : dict string (list string) :=
  fold_left
    (fun d '(spot_name, images) =>
       match images with
       | [] => d
       | _ => set spot_name (sorted images) d
       end)
    spots_dir [].

End Inventory.

(* ================================================================= *)
(** ** fix_spots_mapping_v2.py *)

Module MappingV2.
Import PyStr PyDict PathNormalizer Inventory.

(** The key under which one declared image is stored. *)
Definition image_key (local_path : string) : string :=
  let filename := get_image_filename_from_path local_path in
  match get_spot_folder_from_path local_path with
  | Some spot_folder => spot_folder ++ "/" ++ filename
  | None => filename
  end.

(** The inner loop [for img in images] for one location. *)
Definition index_images (loc_idx : nat) (images : list string)
  (image_to_location : dict string nat) : dict string nat :=
  fold_left
    (fun d local_path =>
       if nonempty local_path then set (image_key local_path) loc_idx d
       else d)
    images image_to_location.

(** EvidenceIndex: [image_to_location]. *)
Definition build_image_to_location (enriched_data : list Enriched.Location)
  : dict string nat :=
  fold_left
    (fun d '(loc_idx, location) =>
       index_images loc_idx
         (Enriched.images (Enriched.google_maps_data location)) d)
    (enumerate enriched_data) [].

(** [existing_images] as [build_spot_to_location_mapping] collects it:
    file names in directory order, empty folders left out. *)
Definition scan_images (spots_dir : listing) : dict string (list string) :=
  fold_left
    (fun d '(spot_name, images) =>
       match images with
       | [] => d
       | _ => set spot_name images d
       end)
    spots_dir [].

(** [spot_to_location_votes[spot_folder][loc_idx] += 1] on the nested
    [defaultdict]. *)
Definition add_vote (spot_folder : string) (loc_idx : nat)
  (votes : dict string (dict nat nat)) : dict string (dict nat nat) :=
  let inner := get_or (get spot_folder votes) [] in
  let count := get_or (get loc_idx inner) 0 in
  set spot_folder (set loc_idx (count + 1) inner) votes.

Definition vote_folder (image_to_location : dict string nat)
  (spot_folder : string) (image_files : list string)
  (votes : dict string (dict nat nat)) : dict string (dict nat nat) :=
  fold_left
    (fun v img_file =>
       let key := spot_folder ++ "/" ++ img_file in
       match get key image_to_location with
       | Some loc_idx => add_vote spot_folder loc_idx v
       | None => v
       end)
    image_files votes.

(** VoteTally: [spot_to_location_votes]. *)
Definition count_votes (image_to_location : dict string nat)
  (existing_images : dict string (list string))
  : dict string (dict nat nat) :=
  fold_left
    (fun v '(spot_folder, image_files) =>
       vote_folder image_to_location spot_folder image_files v)
    existing_images [].

(** The loop that chooses the location with most votes for each spot. *)
Definition choose_locations (votes : dict string (dict nat nat))
  : dict string nat :=
  fold_left
    (fun spot_to_location '(spot_folder, v) =>
       match py_max v with
       | Some (best_location, _) =>
           set spot_folder best_location spot_to_location
       | None => spot_to_location
       end)
    votes [].

Definition build_spot_to_location_mapping
  (enriched_data : list Enriched.Location) (spots_dir : listing)
  : dict string nat * list Enriched.Location :=
  let image_to_location := build_image_to_location enriched_data in
  let existing_images := scan_images spots_dir in
  let spot_to_location_votes :=
    count_votes image_to_location existing_images in
  (choose_locations spot_to_location_votes, enriched_data).

(** One turn of the loop that builds the spots list. *)
Definition append_spot (enriched_data : list Enriched.Location)
  (spot_to_location : dict string nat)
  (existing_images : dict string (list string))
  (spots : list Spot.t) (spot_folder : string) : list Spot.t :=
  let loc_idx := get spot_folder spot_to_location in
  let images :=
    map (fun img => "images/spots/" ++ spot_folder ++ "/" ++ img)
        (get_or (get spot_folder existing_images) []) in
  let located :=
    match loc_idx with
    | Some i => option_map (pair i) (nth_error enriched_data i)
    | None => None
    end in
  let spot :=
    match located with
    | Some (i, location) =>
        let google_data := Enriched.google_maps_data location in
        {| Spot.id := Some (Z.of_nat (List.length spots) + 1)%Z;
           Spot.name :=
             Some (get_or (Enriched.place_name google_data)
                          ("Spot " ++ str_of_Z (Z.of_nat i + 1)));
           Spot.lat := Some (get_or (Enriched.latitude location) 0%Q);
           Spot.lng := Some (get_or (Enriched.longitude location) 0%Q);
           Spot.description :=
             Some (get_or (Enriched.description location)
                          "Beautiful drone location");
           Spot.category := get_or (Enriched.category google_data) "Nature";
           Spot.images := sorted images;
           Spot.rating := Enriched.rating google_data;
           Spot.address := Some (get_or (Enriched.address google_data) "");
           Spot.notes := "Check local rules" |}
    | None =>
        let spot_idx :=
          get_or (int (remove "spot_" spot_folder))
                 (Z.of_nat (List.length spots)) in
        {| Spot.id := Some (Z.of_nat (List.length spots) + 1)%Z;
           Spot.name := Some ("Drone Spot " ++ str_of_Z (spot_idx + 1));
           Spot.lat := Some 0%Q;
           Spot.lng := Some 0%Q;
           Spot.description := Some "Beautiful drone location";
           Spot.category := "Nature";
           Spot.images := sorted images;
           Spot.rating := None;
           Spot.address := Some "";
           Spot.notes := "Check local rules" |}
    end in
  (spots ++ [spot])%list.

(** MergeAssembler: the list written to [spots-simple.json]. *)
Definition fix_spots_json (enriched_data : list Enriched.Location)
  (spots_dir : listing) : list Spot.t :=
  let '(spot_to_location, enriched_data) :=
    build_spot_to_location_mapping enriched_data spots_dir in
  let existing_images := get_existing_images spots_dir in
  fold_left (append_spot enriched_data spot_to_location existing_images)
            (sorted (keys existing_images)) [].

End MappingV2.

(* ================================================================= *)
(** ** fix_spots_mapping.py *)

Module MappingV1.
Import PyStr PyDict PathNormalizer Inventory.

(** The spot folder of every declared image that has a path and a
    folder, in declaration order. *)
Definition image_folders (images : list string) : list string :=
  flat_map
    (fun local_path =>
       if nonempty local_path
       then match get_spot_folder_from_path local_path with
            | Some spot_folder => [spot_folder]
            | None => []
            end
       else [])
    images.

(** [spot_counts[spot_folder] = spot_counts.get(spot_folder, 0) + 1]. *)
Definition count_spot (spot_counts : dict string nat) (spot_folder : string)
  : dict string nat :=
  set spot_folder (get_or (get spot_folder spot_counts) 0 + 1) spot_counts.

(** The body of the loop over the enrichment records. *)
Definition map_location
  (st : dict nat string * dict string (list nat))
  (entry : nat * Enriched.Location)
  : dict nat string * dict string (list nat) :=
  let '(location_to_spot, spot_to_locations) := st in
  let '(loc_idx, location) := entry in
  let images := Enriched.images (Enriched.google_maps_data location) in
  let spot_folders_found := image_folders images in
  match spot_folders_found with
  | [] => st
  | _ =>
      let spot_counts := fold_left count_spot (image_folders images) [] in
      match py_max spot_counts with
      | Some (most_common_spot, _) =>
          (set loc_idx most_common_spot location_to_spot,
           set most_common_spot
               (get_or (get most_common_spot spot_to_locations) []
                  ++ [loc_idx])%list
               spot_to_locations)
      | None => st
      end
  end.

Definition build_location_to_spot_mapping
  (enriched_data : list Enriched.Location)
  : dict nat string * dict string (list nat) :=
  fold_left map_location (enumerate enriched_data) ([], []).

(** First loop of [fix_spots_json]: the mapping from the enriched data,
    the first location that maps to a folder keeps it. *)
Definition first_pass (location_to_spot : dict nat string)
  (existing_images : dict string (list string)) : dict string Z :=
  fold_left
    (fun spot_to_location '(loc_idx, spot_folder) =>
       if mem spot_folder existing_images
       then if negb (mem spot_folder spot_to_location)
            then set spot_folder (Z.of_nat loc_idx) spot_to_location
            else spot_to_location
       else spot_to_location)
    location_to_spot [].

(** The set comprehension [location_spots]. *)
Definition location_spots (location : Enriched.Location)
  : list (option string) :=
  map get_spot_folder_from_path
      (filter nonempty
              (Enriched.images (Enriched.google_maps_data location))).

Definition in_spots (spot_folder : string) (spots : list (option string))
  : bool :=
  existsb
    (fun o => match o with
              | Some f => String.eqb spot_folder f
              | None => false
              end)
    spots.

Definition in_locations (i : Z) (mapped_locations : list Z) : bool :=
  existsb (Z.eqb i) mapped_locations.

(** Second loop of [fix_spots_json]: the positional fallback.  The state
    is [(spot_to_location, mapped_locations)]; only [ValueError] is
    caught. *)
Fixpoint fallback (enriched_data : list Enriched.Location)
  (folders : list string) (st : dict string Z * list Z)
  : py_result (dict string Z * list Z) :=
  match folders with
  | [] => Ok st
  | spot_folder :: rest =>
      let '(spot_to_location, mapped_locations) := st in
      if mem spot_folder spot_to_location
      then fallback enriched_data rest st
      else
        match int (remove "spot_" spot_folder) with
        | None => fallback enriched_data rest st
        | Some spot_idx =>
            if (spot_idx <? Z.of_nat (List.length enriched_data))%Z
               && negb (in_locations spot_idx mapped_locations)
            then
              match py_index enriched_data spot_idx with
              | IndexError => IndexError
              | Ok location =>
                  let spots := location_spots location in
                  if match spots with [] => true | _ => false end
                     || in_spots spot_folder spots
                  then fallback enriched_data rest
                         (set spot_folder spot_idx spot_to_location,
                          spot_idx :: mapped_locations)
                  else fallback enriched_data rest st
              end
            else fallback enriched_data rest st
        end
  end.

(** [spot_to_location] as [fix_spots_json] has it when it starts to
    build the spots list. *)
Definition fix_spots_json_mapping (enriched_data : list Enriched.Location)
  (spots_dir : listing) : py_result (dict string Z) :=
  let '(location_to_spot, spot_to_locations) :=
    build_location_to_spot_mapping enriched_data in
  let existing_images := get_existing_images spots_dir in
  let spot_to_location := first_pass location_to_spot existing_images in
  let mapped_locations := values spot_to_location in
  match fallback enriched_data (keys existing_images)
                 (spot_to_location, mapped_locations) with
  | Ok (spot_to_location, _) => Ok spot_to_location
  | IndexError => IndexError
  end.

(** The two shapes of a record of the spots list. *)
Definition located_spot (id : Z) (default_name : string)
  (location : Enriched.Location) (images : list string) : Spot.t :=
  let google_data := Enriched.google_maps_data location in
  {| Spot.id := Some id;
     Spot.name := Some (get_or (Enriched.place_name google_data) default_name);
     Spot.lat := Some (get_or (Enriched.latitude location) 0%Q);
     Spot.lng := Some (get_or (Enriched.longitude location) 0%Q);
     Spot.description :=
       Some (get_or (Enriched.description location)
                    "Beautiful drone location");
     Spot.category := get_or (Enriched.category google_data) "Nature";
     Spot.images := images;
     Spot.rating := Enriched.rating google_data;
     Spot.address := Some (get_or (Enriched.address google_data) "");
     Spot.notes := "Check local rules" |}.

Definition fallback_spot (id : Z) (spot_idx : Z) (images : list string)
  : Spot.t :=
  {| Spot.id := Some id;
     Spot.name := Some ("Drone Spot " ++ str_of_Z (spot_idx + 1));
     Spot.lat := Some 0%Q;
     Spot.lng := Some 0%Q;
     Spot.description := Some "Beautiful drone location";
     Spot.category := "Nature";
     Spot.images := images;
     Spot.rating := None;
     Spot.address := Some "";
     Spot.notes := "Check local rules" |}.

(** One turn of the loop that builds the spots list; the index read from
    [spot_to_location] may be negative. *)
Definition append_spot (enriched_data : list Enriched.Location)
  (spot_to_location : dict string Z)
  (existing_images : dict string (list string))
  (spots : list Spot.t) (spot_folder : string) : py_result (list Spot.t) :=
  let loc_idx := get spot_folder spot_to_location in
  let images :=
    map (fun img => "images/spots/" ++ spot_folder ++ "/" ++ img)
        (get_or (get spot_folder existing_images) []) in
  let id := (Z.of_nat (List.length spots) + 1)%Z in
  let unlocated :=
    let spot_idx :=
      get_or (int (remove "spot_" spot_folder))
             (Z.of_nat (List.length spots)) in
    Ok (spots ++ [fallback_spot id spot_idx (sorted images)])%list in
  match loc_idx with
  | Some i =>
      if (i <? Z.of_nat (List.length enriched_data))%Z
      then match py_index enriched_data i with
           | Ok location =>
               Ok (spots ++
                   [located_spot id ("Spot " ++ str_of_Z (i + 1))
                                 location (sorted images)])%list
           | IndexError => IndexError
           end
      else unlocated
  | None => unlocated
  end.

Fixpoint build_spots (enriched_data : list Enriched.Location)
  (spot_to_location : dict string Z)
  (existing_images : dict string (list string))
  (names : list string) (spots : list Spot.t) : py_result (list Spot.t) :=
  match names with
  | [] => Ok spots
  | spot_folder :: rest =>
      match append_spot enriched_data spot_to_location existing_images
                        spots spot_folder with
      | Ok spots' =>
          build_spots enriched_data spot_to_location existing_images
                      rest spots'
      | IndexError => IndexError
      end
  end.

(** The list written to [spots-simple.json] by version 1. *)
Definition fix_spots_json (enriched_data : list Enriched.Location)
  (spots_dir : listing) : py_result (list Spot.t) :=
  match fix_spots_json_mapping enriched_data spots_dir with
  | Ok spot_to_location =>
      let existing_images := get_existing_images spots_dir in
      build_spots enriched_data spot_to_location existing_images
                  (sorted (keys existing_images)) []
  | IndexError => IndexError
  end.

End MappingV1.

(* ================================================================= *)
(** ** update_spots_json.py *)

Module UpdateSpots.
Import PyStr PyDict Inventory.

(** The spot built for one folder whose name carries the number
    [spot_idx]. *)
Definition make_spot (spots_data : list Enriched.Location)
  (existing_images : dict string (list string))
  (spot_name : string) (spot_idx : Z) : py_result Spot.t :=
  let images :=
    map (fun img => "images/spots/" ++ spot_name ++ "/" ++ img)
        (get_or (get spot_name existing_images) []) in
  if (spot_idx <? Z.of_nat (List.length spots_data))%Z
  then
    match py_index spots_data spot_idx with
    | IndexError => IndexError
    | Ok spot_data =>
        let google_data := Enriched.google_maps_data spot_data in
        Ok {| Spot.id := Some (spot_idx + 1)%Z;
              Spot.name :=
                Some (get_or (Enriched.place_name google_data)
                             ("Spot " ++ str_of_Z (spot_idx + 1)));
              Spot.lat := Some (get_or (Enriched.latitude spot_data) 0%Q);
              Spot.lng := Some (get_or (Enriched.longitude spot_data) 0%Q);
              Spot.description :=
                Some (get_or (Enriched.description spot_data)
                             "Beautiful drone location");
              Spot.category :=
                get_or (Enriched.category google_data) "Nature";
              Spot.images := sorted images;
              Spot.rating := Enriched.rating google_data;
              Spot.address :=
                Some (get_or (Enriched.address google_data) "");
              Spot.notes := "Check local rules" |}
    end
  else
    Ok {| Spot.id := Some (spot_idx + 1)%Z;
          Spot.name := Some ("Spot " ++ str_of_Z (spot_idx + 1));
          Spot.lat := Some 0%Q;
          Spot.lng := Some 0%Q;
          Spot.description := Some "Beautiful drone location";
          Spot.category := "Nature";
          Spot.images := sorted images;
          Spot.rating := None;
          Spot.address := Some "";
          Spot.notes := "Check local rules" |}.

(** The loop over the sorted folder names; a name without a number is
    skipped. *)
Fixpoint build_spots (spots_data : list Enriched.Location)
  (existing_images : dict string (list string))
  (names : list string) (spots : list Spot.t) : py_result (list Spot.t) :=
  match names with
  | [] => Ok spots
  | spot_name :: rest =>
      match int (remove "spot_" spot_name) with
      | None => build_spots spots_data existing_images rest spots
      | Some spot_idx =>
          match make_spot spots_data existing_images spot_name spot_idx with
          | IndexError => IndexError
          | Ok spot =>
              build_spots spots_data existing_images rest
                          (spots ++ [spot])%list
          end
      end
  end.

Definition update_spots_json (spots_data : list Enriched.Location)
  (spots_dir : listing) : py_result (list Spot.t) :=
  let existing_images := get_existing_images spots_dir in
  build_spots spots_data existing_images
              (sorted (keys existing_images)) [].

End UpdateSpots.

(* ================================================================= *)
(** ** correct_coordinates_crawlee.py *)

Module Corrector.
Import PyStr.

Definition DISTANCE_THRESHOLD_KM : R := 5%R.

(** [math.radians]. *)
Definition radians (x : R) : R := (x * (PI / 180))%R.

(** [math.atan2(y, x)]: the angle of the point [(x, y)] in [(-PI, PI]]. *)
Definition atan2 (y x : R) : R :=
  if Rlt_dec 0 x then atan (y / x)
  else if Rlt_dec x 0
       then if Rle_dec 0 y then (atan (y / x) + PI)%R
            else (atan (y / x) - PI)%R
       else if Rlt_dec 0 y then (PI / 2)%R
            else if Rlt_dec y 0 then (- (PI / 2))%R
                 else 0%R.

(** [calculate_distance], read in exact arithmetic over the real numbers.
    The interpreter evaluates it in binary floating point, where the
    result is rounded and [math.sqrt] raises [ValueError] when rounding
    has made [1 - a] negative; the loop is therefore given a second time
    below, [process_locations_with], for any function in the place of
    [calculate_distance]. *)
Definition calculate_distance (lat1 lon1 lat2 lon2 : R) : R :=
  let R := 6371%R in
  let dlat := radians (lat2 - lat1) in
  let dlon := radians (lon2 - lon1) in
  let a := (sin (dlat / 2) ^ 2 +
            cos (radians lat1) * cos (radians lat2) *
            sin (dlon / 2) ^ 2)%R in
  let c := (2 * atan2 (sqrt a) (sqrt (1 - a)))%R in
  (R * c)%R.

(** The reference half-angle Haversine formula, in the words of the
    specification, every angle converted to radians. *)
Definition haversine_reference (lat1 lon1 lat2 lon2 : R) : R :=
  let rad := fun deg : R => (deg * PI / 180)%R in
  let half_dlat := ((rad lat2 - rad lat1) / 2)%R in
  let half_dlon := ((rad lon2 - rad lon1) / 2)%R in
  let a := (sin half_dlat * sin half_dlat +
            cos (rad lat1) * cos (rad lat2) *
            (sin half_dlon * sin half_dlon))%R in
  (6371 * 2 * atan2 (sqrt a) (sqrt (1 - a)))%R.

(** An entry of [corrections]. *)
Record Correction : Type := {
  index : nat;
  name : string;
  old_coords : Q * Q;
  new_coords : Q * Q;
  distance_km : R
}.

(** The [nonlocal] counters and the audit trail. *)
Record Tally : Type := {
  corrected_count : nat;
  unchanged_count : nat;
  error_count : nat;
  corrections : list Correction
}.

Definition start : Tally :=
  {| corrected_count := 0; unchanged_count := 0; error_count := 0;
     corrections := [] |}.

(** The external lookup: what [scrape_google_maps_coords(place_name,
    address)] answers when it is called for the record at [idx]. *)
Definition scraper : Type := nat -> string -> string -> option (Q * Q).

Definition set_coords (location : Enriched.Location) (new_lat new_lng : Q)
  : Enriched.Location :=
  {| Enriched.latitude := Some new_lat;
     Enriched.longitude := Some new_lng;
     Enriched.description := Enriched.description location;
     Enriched.google_maps_data := Enriched.google_maps_data location |}.

(** The body of the loop of [process_locations] for one record. *)
Definition process_location (scrape : scraper) (idx : nat)
  (location : Enriched.Location) (t : Tally) : Enriched.Location * Tally :=
  let google_data := Enriched.google_maps_data location in
  let place_name := get_or (Enriched.place_name google_data) "" in
  let address := get_or (Enriched.address google_data) "" in
  let current_lat := get_or (Enriched.latitude location) 0%Q in
  let current_lng := get_or (Enriched.longitude location) 0%Q in
  if negb (nonempty place_name)
  then (location,
        {| corrected_count := corrected_count t;
           unchanged_count := unchanged_count t + 1;
           error_count := error_count t;
           corrections := corrections t |})
  else
    match scrape idx place_name address with
    | Some (new_lat, new_lng) =>
        let distance :=
          calculate_distance (Q2R current_lat) (Q2R current_lng)
                             (Q2R new_lat) (Q2R new_lng) in
        if Rgt_dec distance DISTANCE_THRESHOLD_KM
        then (set_coords location new_lat new_lng,
              {| corrected_count := corrected_count t + 1;
                 unchanged_count := unchanged_count t;
                 error_count := error_count t;
                 corrections :=
                   (corrections t ++
                    [{| index := idx; name := place_name;
                        old_coords := (current_lat, current_lng);
                        new_coords := (new_lat, new_lng);
                        distance_km := distance |}])%list |})
        else (location,
              {| corrected_count := corrected_count t;
                 unchanged_count := unchanged_count t + 1;
                 error_count := error_count t;
                 corrections := corrections t |})
    | None =>
        (location,
         {| corrected_count := corrected_count t;
            unchanged_count := unchanged_count t;
            error_count := error_count t + 1;
            corrections := corrections t |})
    end.

(** The loop [for idx, location in enumerate(enriched_data)], from
    position [idx] on. *)
Fixpoint process_from (scrape : scraper) (idx : nat)
  (locations : list Enriched.Location) (t : Tally)
  : list Enriched.Location * Tally :=
  match locations with
  | [] => ([], t)
  | location :: rest =>
      let '(location', t') := process_location scrape idx location t in
      let '(rest', t'') := process_from scrape (S idx) rest t' in
      (location' :: rest', t'')
  end.

Definition process_locations (scrape : scraper)
  (enriched_data : list Enriched.Location)
  : list Enriched.Location * Tally :=
  process_from scrape 0 enriched_data start.

(** What a call of [calculate_distance] comes to when it is evaluated:
    a number, or no value when the call raises.  The floating-point
    function of the interpreter is one such function, the exact one
    another. *)
Definition distance_function : Type := Q -> Q -> Q -> Q -> option R.

Definition exact_distance : distance_function :=
  fun lat1 lon1 lat2 lon2 =>
    Some (calculate_distance (Q2R lat1) (Q2R lon1) (Q2R lat2) (Q2R lon2)).

(** The body of the loop of [process_locations] for one record, with
    [distance_of] in the place of [calculate_distance]; an exception
    raised by the call leaves the loop, and the result is [None]. *)
Definition process_location_with (distance_of : distance_function)
  (scrape : scraper) (idx : nat)
  (location : Enriched.Location) (t : Tally)
  : option (Enriched.Location * Tally) :=
  let google_data := Enriched.google_maps_data location in
  let place_name := get_or (Enriched.place_name google_data) "" in
  let address := get_or (Enriched.address google_data) "" in
  let current_lat := get_or (Enriched.latitude location) 0%Q in
  let current_lng := get_or (Enriched.longitude location) 0%Q in
  if negb (nonempty place_name)
  then Some (location,
             {| corrected_count := corrected_count t;
                unchanged_count := unchanged_count t + 1;
                error_count := error_count t;
                corrections := corrections t |})
  else
    match scrape idx place_name address with
    | Some (new_lat, new_lng) =>
        match distance_of current_lat current_lng new_lat new_lng with
        | None => None
        | Some distance =>
            if Rgt_dec distance DISTANCE_THRESHOLD_KM
            then Some ({| Enriched.latitude := Some new_lat;
                          Enriched.longitude := Some new_lng;
                          Enriched.description :=
                            Enriched.description location;
                          Enriched.google_maps_data :=
                            Enriched.google_maps_data location |},
                       {| corrected_count := corrected_count t + 1;
                          unchanged_count := unchanged_count t;
                          error_count := error_count t;
                          corrections :=
                            (corrections t ++
                             [{| index := idx; name := place_name;
                                 old_coords := (current_lat, current_lng);
                                 new_coords := (new_lat, new_lng);
                                 distance_km := distance |}])%list |})
            else Some (location,
                       {| corrected_count := corrected_count t;
                          unchanged_count := unchanged_count t + 1;
                          error_count := error_count t;
                          corrections := corrections t |})
        end
    | None =>
        Some (location,
              {| corrected_count := corrected_count t;
                 unchanged_count := unchanged_count t;
                 error_count := error_count t + 1;
                 corrections := corrections t |})
    end.

Fixpoint process_from_with (distance_of : distance_function)
  (scrape : scraper) (idx : nat)
  (locations : list Enriched.Location) (t : Tally)
  : option (list Enriched.Location * Tally) :=
  match locations with
  | [] => Some ([], t)
  | location :: rest =>
      match process_location_with distance_of scrape idx location t with
      | None => None
      | Some (location', t') =>
          match process_from_with distance_of scrape (S idx) rest t' with
          | None => None
          | Some (rest', t'') => Some (location' :: rest', t'')
          end
      end
  end.

Definition process_locations_with (distance_of : distance_function)
  (scrape : scraper) (enriched_data : list Enriched.Location)
  : option (list Enriched.Location * Tally) :=
  process_from_with distance_of scrape 0 enriched_data start.

(** A lookup is issued for the record: it has a place name. *)
Definition looked_up (location : Enriched.Location) : bool :=
  nonempty
    (get_or (Enriched.place_name (Enriched.google_maps_data location)) "").





End Corrector.

(* ================================================================= *)
(** ** filter_malaysia_only.py *)

Module Geofence.
Import PyStr.

(** The four bounds as floats: the doubles nearest to 0.8, 7.4, 99.6 and
    119.3. *)
Definition MALAYSIA_LAT_MIN : Q := 3602879701896397 # 4503599627370496.
Definition MALAYSIA_LAT_MAX : Q := 4165829655317709 # 562949953421312.
Definition MALAYSIA_LNG_MIN : Q := 3504363460047667 # 35184372088832.
Definition MALAYSIA_LNG_MAX : Q := 8394991180395315 # 70368744177664.

Section Region.
Variables LAT_MIN LAT_MAX LNG_MIN LNG_MAX : Q.

(** The chained comparisons of the last [return]. *)
Definition in_bounding_box (lat lng : Q) : bool :=
  (Qle_bool LAT_MIN lat && Qle_bool lat LAT_MAX)
  && (Qle_bool LNG_MIN lng && Qle_bool lng LNG_MAX).

(** The membership test, for any four bounds. *)
Definition is_region_location (lat lng : Q)
  (name description address : string) : bool :=
  if Qeq_bool lat 0 && Qeq_bool lng 0 then false
  else
    let text := lower (name ++ " " ++ description ++ " " ++ address) in
    if contains "singapore" text || contains "pulau ubin" text then false
    else in_bounding_box lat lng.

End Region.

Definition is_malaysia_location : Q -> Q -> string -> string -> string -> bool :=
  is_region_location MALAYSIA_LAT_MIN MALAYSIA_LAT_MAX
                     MALAYSIA_LNG_MIN MALAYSIA_LNG_MAX.

(** The test of the filter loop on one spot, absent keys defaulted. *)
Definition keeps (spot : Spot.t) : bool :=
  let lat := get_or (Spot.lat spot) 0%Q in
  let lng := get_or (Spot.lng spot) 0%Q in
  let name := get_or (Spot.name spot) "" in
  let description := get_or (Spot.description spot) "" in
  let address := get_or (Spot.address spot) "" in
  is_malaysia_location lat lng name description address.

(** [for i, spot in enumerate(malaysia_spots): spot['id'] = i + 1], from
    position [i] on. *)
Fixpoint renumber (i : nat) (spots : list Spot.t) : list Spot.t :=
  match spots with
  | [] => []
  | spot :: rest => Spot.set_id (Z.of_nat i + 1)%Z spot :: renumber (S i) rest
  end.

Definition filter_malaysia_spots (spots : list Spot.t) : list Spot.t :=
  let malaysia_spots := filter keeps spots in
  renumber 0 malaysia_spots.

(** The excluded-region markers. *)
Definition markers : list string := ["singapore"; "pulau ubin"].

End Geofence.

(* ================================================================= *)
(** ** transform_data.py *)

Module TransformData.
Import PyStr.

Definition normalize_image_path (path : string) : string :=
  let normalized := replace_char "\"%char "/"%char path in
  if startswith "images/" normalized
  then replace_first "images/" "images/spots/" normalized
  else if startswith "images\" normalized
       then replace_first "images\" "images/spots/" normalized
       else if negb (startswith "images/spots/" normalized)
            then "images/spots/" ++ normalized
            else normalized.

End TransformData.

(* ================================================================= *)
(** ** Vocabulary of the statements *)

(** [m] occurs in [t]. *)
Definition Substring (m t : string) : Prop :=
  exists pre post, t = pre ++ m ++ post.

(** [l1] is [l2] with some elements left out, order kept. *)
Inductive Subseq {A : Type} : list A -> list A -> Prop :=
| Subseq_nil : Subseq [] []
| Subseq_skip : forall x l1 l2, Subseq l1 l2 -> Subseq l1 (x :: l2)
| Subseq_take : forall x l1 l2, Subseq l1 l2 -> Subseq (x :: l1) (x :: l2).

(** Two spots agree on every field but [id]. *)
Definition same_but_id (s s' : Spot.t) : Prop :=
  Spot.name s' = Spot.name s /\ Spot.lat s' = Spot.lat s /\
  Spot.lng s' = Spot.lng s /\ Spot.description s' = Spot.description s /\
  Spot.category s' = Spot.category s /\ Spot.images s' = Spot.images s /\
  Spot.rating s' = Spot.rating s /\ Spot.address s' = Spot.address s /\
  Spot.notes s' = Spot.notes s.

(** The text that the geofence searches for markers. *)
Definition geofence_text (name description address : string) : string :=
  PyStr.lower (name ++ " " ++ description ++ " " ++ address).

(** What the loop body does to the record itself, to the audit trail and
    to the error counter, whatever the counters were. *)
Definition step_location (scrape : Corrector.scraper) (idx : nat)
  (location : Enriched.Location) : Enriched.Location :=
  fst (Corrector.process_location scrape idx location Corrector.start).

Definition step_corrections (scrape : Corrector.scraper) (idx : nat)
  (location : Enriched.Location) : list Corrector.Correction :=
  Corrector.corrections
    (snd (Corrector.process_location scrape idx location Corrector.start)).

Fixpoint all_corrections (scrape : Corrector.scraper) (idx : nat)
  (locations : list Enriched.Location) : list Corrector.Correction :=
  match locations with
  | [] => []
  | location :: rest =>
      (step_corrections scrape idx location
       ++ all_corrections scrape (S idx) rest)%list
  end.

(** The entries of the audit trail that carry the index [idx]. *)
Definition corrections_at (idx : nat) (t : Corrector.Tally)
  : list Corrector.Correction :=
  filter (fun c => Nat.eqb (Corrector.index c) idx) (Corrector.corrections t).

(** A lookup was issued for the record and came back empty. *)
Definition missed (scrape : Corrector.scraper)
  (entry : nat * Enriched.Location) : bool :=
  let '(idx, location) := entry in
  let google_data := Enriched.google_maps_data location in
  Corrector.looked_up location &&
  match scrape idx (get_or (Enriched.place_name google_data) "")
               (get_or (Enriched.address google_data) "") with
  | None => true
  | Some _ => false
  end.

(** [enumerate] started at [k]. *)
Definition enumerate_from {A : Type} (k : nat) (l : list A)
  : list (nat * A) :=
  combine (seq k (List.length l)) l.

(** The numbers carried by the folder names that have one, in the order
    of the names. *)
Definition folder_numbers (names : list string) : list Z :=
  flat_map
    (fun spot_name =>
       match PyStr.int (PyStr.remove "spot_" spot_name) with
       | Some spot_idx => [spot_idx]
       | None => []
       end)
    names.

(** [Some 1, Some 2, ..., Some n]. *)
Definition ids_from_one (n : nat) : list (option Z) :=
  map (fun i => Some (Z.of_nat i)) (seq 1 n).

(** Every declared image that has a path, with the index of its record,
    in iteration order. *)
Definition declared_images (enriched_data : list Enriched.Location)
  : list (string * nat) :=
  flat_map
    (fun entry : nat * Enriched.Location =>
       map (fun local_path => (local_path, fst entry))
           (filter nonempty
              (Enriched.images (Enriched.google_maps_data (snd entry)))))
    (enumerate enriched_data).

(** Storing a list of images in the index one after the other. *)
Definition store_all (entries : list (string * nat))
  (d : PyDict.dict string nat) : PyDict.dict string nat :=
  fold_left
    (fun d e => PyDict.set (MappingV2.image_key (fst e)) (snd e) d)
    entries d.

(** The token pattern [spot_<N>] in the words of the specification: the
    text [spot_] followed by a decimal number. *)
Fixpoint all_digits (s : string) : bool :=
  match s with
  | EmptyString => true
  | String c s' =>
      match PyStr.digit_of c with
      | Some _ => all_digits s'
      | None => false
      end
  end.

Definition is_spot_token (s : string) : bool :=
  PyStr.startswith "spot_" s
  && nonempty (PyStr.drop 5 s) && all_digits (PyStr.drop 5 s).

(** The character [c] occurs in [s]. *)
Fixpoint has_char (c : ascii) (s : string) : bool :=
  match s with
  | EmptyString => false
  | String c' s' => Ascii.eqb c c' || has_char c s'
  end.

(** The votes of a folder, file by file: the location that the evidence
    index gives for [<folder>/<file>], for each file that has one. *)
Definition ballots (image_to_location : PyDict.dict string nat)
  (spot_folder : string) (image_files : list string) : list nat :=
  flat_map
    (fun img_file =>
       match PyDict.get (spot_folder ++ "/" ++ img_file) image_to_location with
       | Some loc_idx => [loc_idx]
       | None => []
       end)
    image_files.

(** Counting a list of votes into a dictionary, one at a time. *)
Definition tally (votes : list nat) (counts : PyDict.dict nat nat)
  : PyDict.dict nat nat :=
  fold_left
    (fun d loc_idx =>
       PyDict.set loc_idx (get_or (PyDict.get loc_idx d) 0 + 1) d)
    votes counts.

(** The number of votes for [loc_idx]. *)
Definition votes_for (loc_idx : nat) (votes : list nat) : nat :=
  count_occ Nat.eq_dec votes loc_idx.

(** The declared image paths of a record, and the fact that one of
    them lies in a given spot folder. *)
Definition declared_paths (location : Enriched.Location) : list string :=
  filter nonempty (Enriched.images (Enriched.google_maps_data location)).

Definition references (spot_folder : string) (location : Enriched.Location)
  : Prop :=
  exists path,
    In path (declared_paths location) /\
    PathNormalizer.get_spot_folder_from_path path = Some spot_folder.

(** A record that declares the given image paths and nothing else. *)
Definition record_with_images (paths : list string) : Enriched.Location :=
  {| Enriched.latitude := None; Enriched.longitude := None;
     Enriched.description := None;
     Enriched.google_maps_data :=
       {| Enriched.place_name := None; Enriched.address := None;
          Enriched.category := None; Enriched.rating := None;
          Enriched.images := paths |} |}.

(** A list of strings in ascending order. *)
Definition ascending (l : list string) : Prop :=
  Sorted (fun a b => String.leb a b = true) l.

(** The two dictionaries of [build_location_to_spot_mapping] after the
    records before position [k]. *)
Definition consistent (k : nat)
  (st : PyDict.dict nat string * PyDict.dict string (list nat)) : Prop :=
  (forall i, In i (PyDict.keys (fst st)) -> i < k) /\
  StronglySorted lt (PyDict.keys (fst st)) /\
  (forall i f, PyDict.get i (fst st) = Some f <->
               exists l, PyDict.get f (snd st) = Some l /\ In i l).

(** How many entries of [folders] are [spot_folder]. *)
Definition images_in (spot_folder : string) (folders : list string) : nat :=
  count_occ string_dec folders spot_folder.

(** What a turn of the loop over a distance function does to the record
    and to the audit trail, whatever the counters were; [None] when the
    distance function has no value there. *)
Definition step_with (distance_of : Corrector.distance_function)
  (scrape : Corrector.scraper) (idx : nat) (location : Enriched.Location)
  : option (Enriched.Location * list Corrector.Correction) :=
  match Corrector.process_location_with distance_of scrape idx location
                                        Corrector.start with
  | Some (location', t) => Some (location', Corrector.corrections t)
  | None => None
  end.

Definition step_with_location (distance_of : Corrector.distance_function)
  (scrape : Corrector.scraper) (idx : nat) (location : Enriched.Location)
  : Enriched.Location :=
  match step_with distance_of scrape idx location with
  | Some (location', _) => location'
  | None => location
  end.

Definition step_with_corrections (distance_of : Corrector.distance_function)
  (scrape : Corrector.scraper) (idx : nat) (location : Enriched.Location)
  : list Corrector.Correction :=
  match step_with distance_of scrape idx location with
  | Some (_, entries) => entries
  | None => []
  end.

Fixpoint all_corrections_with (distance_of : Corrector.distance_function)
  (scrape : Corrector.scraper) (idx : nat)
  (locations : list Enriched.Location)
  : list Corrector.Correction :=
  match locations with
  | [] => []
  | location :: rest =>
      (step_with_corrections distance_of scrape idx location
       ++ all_corrections_with distance_of scrape (S idx) rest)%list
  end.


(* ================================================================= *)
(** * Properties *)

(** ** Lists *)

Lemma filter_none {A : Type} (f : A -> bool) (l : list A) :
  (forall x, In x l -> f x = false) -> filter f l = [].
Proof.
  induction l as [|x l IH]; intros Hall; simpl; [reflexivity|].
  rewrite (Hall x (or_introl eq_refl)). apply IH.
  intros y Hy. apply Hall. now right.
Qed.

Lemma filter_all {A : Type} (f : A -> bool) (l : list A) :
  (forall x, In x l -> f x = true) -> filter f l = l.
Proof.
  induction l as [|x l IH]; intros Hall; simpl; [reflexivity|].
  rewrite (Hall x (or_introl eq_refl)). f_equal. apply IH.
  intros y Hy. apply Hall. now right.
Qed.

(** ** Dictionaries *)

Section DictFacts.
Context {K V : Type} `{PyKey K}.
Import PyDict.

Lemma key_eqb_refl (k : K) : key_eqb k k = true.
Proof. destruct (key_eqb_spec k k); congruence. Qed.

Lemma key_eqb_neq (k k' : K) : k <> k' -> key_eqb k k' = false.
Proof. destruct (key_eqb_spec k k'); congruence. Qed.

Lemma get_set_same (k : K) (v : V) (d : dict K V) :
  get k (set k v d) = Some v.
Proof.
  induction d as [|[k' v'] d IH]; simpl.
  - now rewrite key_eqb_refl.
  - destruct (key_eqb_spec k k') as [->|Hne]; simpl.
    + now rewrite key_eqb_refl.
    + now rewrite (key_eqb_neq _ _ Hne).
Qed.

Lemma get_set_other (k k' : K) (v : V) (d : dict K V) :
  k <> k' -> get k (set k' v d) = get k d.
Proof.
  intros Hne. induction d as [|[k2 v2] d IH]; simpl.
  - now rewrite (key_eqb_neq _ _ Hne).
  - destruct (key_eqb_spec k' k2) as [->|Hne2]; simpl.
    + now rewrite (key_eqb_neq _ _ Hne).
    + now rewrite IH.
Qed.

Lemma get_None_iff (k : K) (d : dict K V) :
  get k d = None <-> ~ In k (keys d).
Proof.
  induction d as [|[k' v'] d IH]; simpl; [tauto|].
  destruct (key_eqb_spec k k') as [->|Hne].
  - split; [discriminate | intros Hn; exfalso; apply Hn; now left].
  - rewrite IH. split; [intros Hn [Hk|Hk]; [congruence | tauto] | tauto].
Qed.

Lemma get_Some_In (k : K) (v : V) (d : dict K V) :
  get k d = Some v -> In (k, v) d.
Proof.
  induction d as [|[k' v'] d IH]; simpl; [discriminate|].
  destruct (key_eqb_spec k k') as [->|Hne].
  - intros Hs; inversion Hs; now left.
  - intros Hs; right; now apply IH.
Qed.

Lemma In_get_Some (k : K) (v : V) (d : dict K V) :
  NoDup (keys d) -> In (k, v) d -> get k d = Some v.
Proof.
  induction d as [|[k' v'] d IH]; simpl; [intros _ []|].
  intros Hnd [Heq | Hin]; inversion Hnd as [|? ? Hnotin Hnd']; subst.
  - inversion Heq; subst. now rewrite key_eqb_refl.
  - destruct (key_eqb_spec k k') as [->|Hne]; [|now apply IH].
    exfalso. apply Hnotin. apply (in_map fst) in Hin. exact Hin.
Qed.

Lemma keys_set (k : K) (v : V) (d : dict K V) :
  keys (set k v d) = if mem k d then keys d else (keys d ++ [k])%list.
Proof.
  unfold mem. induction d as [|[k' v'] d IH]; simpl; [reflexivity|].
  destruct (key_eqb_spec k k') as [->|Hne]; simpl; [reflexivity|].
  rewrite IH. now destruct (get k d).
Qed.

Lemma mem_true_iff (k : K) (d : dict K V) :
  mem k d = true <-> In k (keys d).
Proof.
  unfold mem. destruct (get k d) as [v|] eqn:Hg.
  - split; [intros _ | reflexivity].
    apply get_Some_In in Hg. apply (in_map fst) in Hg. exact Hg.
  - apply get_None_iff in Hg. split; [discriminate | contradiction].
Qed.

Lemma NoDup_keys_set (k : K) (v : V) (d : dict K V) :
  NoDup (keys d) -> NoDup (keys (set k v d)).
Proof.
  intros Hnd. rewrite keys_set. destruct (mem k d) eqn:Hm; [exact Hnd|].
  apply NoDup_app; [exact Hnd | repeat constructor; intros [] |].
  intros x Hx [<- | []]. apply mem_true_iff in Hx. congruence.
Qed.

End DictFacts.

(** ** Strings *)

Section StringFacts.
Import PyStr.

Lemma prefix_app (p s : string) :
  String.prefix p s = true <-> exists post, s = p ++ post.
Proof.
  revert s; induction p as [|c p IH]; intros s; simpl.
  - destruct s; split; intros _; try reflexivity; eexists; reflexivity.
  - destruct s as [|c' s]; simpl.
    + split; [discriminate | intros [post Hp]; discriminate].
    + destruct (ascii_dec c c') as [->|Hne].
      * rewrite IH. split; intros [post Hp]; exists post.
        -- now rewrite Hp.
        -- now inversion Hp.
      * split; [discriminate | intros [post Hp]; inversion Hp; congruence].
Qed.

Lemma contains_spec (m t : string) : contains m t = true <-> Substring m t.
Proof.
  unfold Substring. induction t as [|c t IH].
  - cbn [contains]. rewrite prefix_app. split.
    + intros [post Hp]. exists "", post. exact Hp.
    + intros [pre [post Hp]]. destruct pre; simpl in Hp.
      * now exists post.
      * discriminate.
  - cbn [contains]. rewrite orb_true_iff, IH, prefix_app. split.
    + intros [[post Hp] | [pre [post Hp]]].
      * exists "", post. exact Hp.
      * exists (String c pre), post. simpl. now rewrite Hp.
    + intros [pre [post Hp]]. destruct pre as [|c' pre]; simpl in Hp.
      * left. now exists post.
      * right. inversion Hp. now exists pre, post.
Qed.

End StringFacts.

(** ** Geofence *)

Section GeofenceFacts.
Import PyStr Geofence.

Lemma marker_found (text : string) :
  contains "singapore" text || contains "pulau ubin" text = true <->
  exists m, In m markers /\ Substring m text.
Proof.
  rewrite orb_true_iff, !contains_spec. unfold markers. split.
  - intros [Hs | Hs]; eexists; (split; [|exact Hs]); simpl; auto.
  - intros [m [[<- | [<- | []]] Hs]]; auto.
Qed.

Lemma in_bounding_box_spec (a b c d lat lng : Q) :
  in_bounding_box a b c d lat lng = true <->
  (a <= lat /\ lat <= b)%Q /\ (c <= lng /\ lng <= d)%Q.
Proof.
  unfold in_bounding_box. now rewrite !andb_true_iff, !Qle_bool_iff.
Qed.

Lemma is_region_location_false (a b c d lat lng : Q) (n ds ad : string) :
  is_region_location a b c d lat lng n ds ad = false <->
  (lat == 0 /\ lng == 0)%Q \/
  ~ ((a <= lat /\ lat <= b)%Q /\ (c <= lng /\ lng <= d)%Q) \/
  (exists m, In m markers /\ Substring m (geofence_text n ds ad)).
Proof.
  unfold is_region_location, geofence_text.
  rewrite <- marker_found, <- in_bounding_box_spec.
  destruct (Qeq_bool lat 0 && Qeq_bool lng 0) eqn:Hz.
  - apply andb_true_iff in Hz. rewrite !Qeq_bool_iff in Hz. tauto.
  - assert (Hnz : ~ (lat == 0 /\ lng == 0)%Q).
    { intros Hc. rewrite <- !Qeq_bool_iff, <- andb_true_iff in Hc. congruence. }
    destruct (_ || _); [tauto|].
    destruct (in_bounding_box a b c d lat lng); split; intros Hx;
      try discriminate; try tauto.
    destruct Hx as [Hx | [Hx | Hx]]; [tauto | congruence | discriminate].
Qed.

(** C4. The geofence rejects a record exactly when its coordinate is (0,0),
    or lies outside the bounding box (an inclusive range on latitude and on
    longitude), or the lower-cased text [name description address] contains
    one of the markers; this holds for any four bounds, for the bounds of
    Malaysia in particular, and (0,0) is rejected whatever the bounds. *)
Theorem C4_geofence_rejects_iff :
  (forall LAT_MIN LAT_MAX LNG_MIN LNG_MAX lat lng name description address,
     is_region_location LAT_MIN LAT_MAX LNG_MIN LNG_MAX
                        lat lng name description address = false <->
     (lat == 0 /\ lng == 0)%Q \/
     ~ ((LAT_MIN <= lat /\ lat <= LAT_MAX)%Q /\
        (LNG_MIN <= lng /\ lng <= LNG_MAX)%Q) \/
     (exists m, In m markers /\
                Substring m (geofence_text name description address))) /\
  (forall lat lng name description address,
     is_malaysia_location lat lng name description address = false <->
     (lat == 0 /\ lng == 0)%Q \/
     ~ ((MALAYSIA_LAT_MIN <= lat /\ lat <= MALAYSIA_LAT_MAX)%Q /\
        (MALAYSIA_LNG_MIN <= lng /\ lng <= MALAYSIA_LNG_MAX)%Q) \/
     (exists m, In m markers /\
                Substring m (geofence_text name description address))) /\
  (forall LAT_MIN LAT_MAX LNG_MIN LNG_MAX name description address,
     is_region_location LAT_MIN LAT_MAX LNG_MIN LNG_MAX
                        0 0 name description address = false).
Proof.
  split; [|split].
  - intros. apply is_region_location_false.
  - intros. apply is_region_location_false.
  - intros. reflexivity.
Qed.

Lemma filter_Subseq {A : Type} (f : A -> bool) (l : list A) :
  Subseq (filter f l) l.
Proof.
  induction l as [|x l IH]; simpl.
  - constructor.
  - destruct (f x); now constructor.
Qed.

Lemma same_but_id_set_id (i : Z) (s : Spot.t) :
  same_but_id s (Spot.set_id i s).
Proof. repeat split. Qed.

Lemma keeps_same_but_id (s s' : Spot.t) :
  same_but_id s s' -> keeps s' = keeps s.
Proof.
  intros (Hn & Hla & Hlg & Hd & _ & _ & _ & Ha & _).
  unfold keeps. now rewrite Hn, Hla, Hlg, Hd, Ha.
Qed.

Lemma renumber_length (k : nat) (l : list Spot.t) :
  List.length (renumber k l) = List.length l.
Proof. revert k; induction l; intros k; simpl; auto. Qed.

Lemma renumber_nth (l : list Spot.t) : forall k i s,
  nth_error l i = Some s ->
  nth_error (renumber k l) i = Some (Spot.set_id (Z.of_nat (k + i) + 1)%Z s).
Proof.
  induction l as [|x l IH]; intros k [|i] s Hn; simpl in *; try discriminate.
  - inversion Hn; subst. now rewrite Nat.add_0_r.
  - rewrite (IH (S k) i s Hn). do 3 f_equal. lia.
Qed.

Lemma renumber_twice (l : list Spot.t) : forall k,
  renumber k (renumber k l) = renumber k l.
Proof. induction l as [|x l IH]; intros k; simpl; [|rewrite IH]; reflexivity. Qed.

Lemma filter_renumber (l : list Spot.t) : forall k,
  (forall s, In s l -> keeps s = true) ->
  filter keeps (renumber k l) = renumber k l.
Proof.
  induction l as [|x l IH]; intros k Hall; simpl; [reflexivity|].
  rewrite (keeps_same_but_id x _ (same_but_id_set_id _ x)).
  rewrite (Hall x (or_introl eq_refl)), IH; [reflexivity|].
  intros s Hs. apply Hall. now right.
Qed.

Lemma filter_malaysia_spots_idempotent (spots : list Spot.t) :
  filter_malaysia_spots (filter_malaysia_spots spots) =
  filter_malaysia_spots spots.
Proof.
  unfold filter_malaysia_spots.
  rewrite filter_renumber, renumber_twice; [reflexivity|].
  intros s Hs. now apply filter_In in Hs.
Qed.

(** C10. The output of the geofence filter is the sub-sequence of the
    records that pass the membership test, in input order; the record at
    output position [i] (from 0) is the [i]-th surviving record with [id]
    set to [i + 1] and every other field unchanged; the test does not read
    [id]; filtering the output again returns it unchanged. *)
Theorem C10_filter_frame_and_idempotent :
  forall spots : list Spot.t,
    let out := filter_malaysia_spots spots in
    let kept := filter keeps spots in
    Subseq kept spots /\
    (forall s, In s kept <-> In s spots /\ keeps s = true) /\
    List.length out = List.length kept /\
    (forall i s, nth_error kept i = Some s ->
       exists s', nth_error out i = Some s' /\
                  Spot.id s' = Some (Z.of_nat i + 1)%Z /\
                  same_but_id s s') /\
    (forall s s', same_but_id s s' -> keeps s' = keeps s) /\
    filter_malaysia_spots out = out.
Proof.
  intros spots out kept.
  split; [apply filter_Subseq|].
  split; [intros s; apply filter_In|].
  split; [apply renumber_length|].
  split; [|split].
  - intros i s Hn. eexists. split.
    + unfold out, filter_malaysia_spots. apply renumber_nth, Hn.
    + split; [reflexivity | apply same_but_id_set_id].
  - apply keeps_same_but_id.
  - apply filter_malaysia_spots_idempotent.
Qed.

End GeofenceFacts.

(** ** Coordinate corrector *)

Section CorrectorFacts.
Import PyStr Corrector.

(** C6. [calculate_distance] is the half-angle Haversine formula with
    Earth radius 6371 km: with a = sin²(Δlat/2) + cos(lat1)·cos(lat2)·
    sin²(Δlon/2), angles in radians, it returns
    6371 · 2 · atan2(sqrt a, sqrt (1 − a)). *)
Theorem C6_calculate_distance_is_haversine :
  forall lat1 lon1 lat2 lon2 : R,
    calculate_distance lat1 lon1 lat2 lon2 =
    haversine_reference lat1 lon1 lat2 lon2.
Proof.
  intros. unfold calculate_distance, haversine_reference, radians.
  replace ((lat2 - lat1) * (PI / 180) / 2)%R
    with ((lat2 * PI / 180 - lat1 * PI / 180) / 2)%R by field.
  replace ((lon2 - lon1) * (PI / 180) / 2)%R
    with ((lon2 * PI / 180 - lon1 * PI / 180) / 2)%R by field.
  replace (lat1 * (PI / 180))%R with (lat1 * PI / 180)%R by field.
  replace (lat2 * (PI / 180))%R with (lat2 * PI / 180)%R by field.
  set (x := sin ((lat2 * PI / 180 - lat1 * PI / 180) / 2)).
  set (y := sin ((lon2 * PI / 180 - lon1 * PI / 180) / 2)).
  replace (x ^ 2)%R with (x * x)%R by ring.
  replace (y ^ 2)%R with (y * y)%R by ring.
  ring.
Qed.


Lemma process_location_fst (scrape : scraper) (idx : nat)
  (location : Enriched.Location) (t : Tally) :
  fst (process_location scrape idx location t) =
  step_location scrape idx location.
Proof.
  unfold step_location, process_location.
  destruct (negb _); [reflexivity|].
  destruct (scrape _ _ _) as [[nl ng]|]; [|reflexivity].
  destruct (Rgt_dec _ _); reflexivity.
Qed.

Lemma process_location_corrections (scrape : scraper) (idx : nat)
  (location : Enriched.Location) (t : Tally) :
  corrections (snd (process_location scrape idx location t)) =
  (corrections t ++ step_corrections scrape idx location)%list.
Proof.
  unfold step_corrections, process_location.
  destruct (negb _); [simpl; now rewrite app_nil_r|].
  destruct (scrape _ _ _) as [[nl ng]|]; [|simpl; now rewrite app_nil_r].
  destruct (Rgt_dec _ _); simpl; [reflexivity | now rewrite app_nil_r].
Qed.

Lemma process_location_errors (scrape : scraper) (idx : nat)
  (location : Enriched.Location) (t : Tally) :
  error_count (snd (process_location scrape idx location t)) =
  error_count t + (if missed scrape (idx, location) then 1 else 0).
Proof.
  unfold missed, looked_up, process_location.
  destruct (nonempty _); simpl; [|lia].
  destruct (scrape _ _ _) as [[nl ng]|]; [|simpl; lia].
  destruct (Rgt_dec _ _); simpl; lia.
Qed.

Lemma step_corrections_index (scrape : scraper) (idx : nat)
  (location : Enriched.Location) (c : Correction) :
  In c (step_corrections scrape idx location) -> index c = idx.
Proof.
  unfold step_corrections, process_location.
  destruct (negb _); [intros []|].
  destruct (scrape _ _ _) as [[nl ng]|]; [|intros []].
  destruct (Rgt_dec _ _); simpl; [|intros []].
  intros [<- | []]. reflexivity.
Qed.

Lemma process_from_spec (scrape : scraper) (locations : list Enriched.Location) :
  forall k t,
    fst (process_from scrape k locations t) =
      map (fun e => step_location scrape (fst e) (snd e))
          (enumerate_from k locations) /\
    corrections (snd (process_from scrape k locations t)) =
      (corrections t ++ all_corrections scrape k locations)%list /\
    error_count (snd (process_from scrape k locations t)) =
      error_count t +
      List.length (filter (missed scrape) (enumerate_from k locations)).
Proof.
  induction locations as [|location rest IH]; intros k t.
  - simpl. rewrite app_nil_r. unfold enumerate_from. simpl.
    repeat split; lia.
  - cbn [process_from].
    pose proof (process_location_fst scrape k location t) as Hf.
    pose proof (process_location_corrections scrape k location t) as Hc.
    pose proof (process_location_errors scrape k location t) as He.
    destruct (process_location scrape k location t) as [location' t'].
    specialize (IH (S k) t').
    destruct (process_from scrape (S k) rest t') as [rest' t''].
    cbn [fst snd] in *. destruct IH as (IH1 & IH2 & IH3).
    unfold enumerate_from in *.
    cbn [List.length seq combine map filter fst snd all_corrections].
    split; [now rewrite Hf, IH1|].
    split; [now rewrite IH2, Hc, app_assoc|].
    rewrite IH3, He.
    destruct (missed scrape (k, location)); cbn [List.length]; lia.
Qed.

Lemma enumerate_from_nth {A : Type} (l : list A) : forall k i a,
  nth_error l i = Some a ->
  nth_error (enumerate_from k l) i = Some (k + i, a).
Proof.
  unfold enumerate_from.
  induction l as [|x l IH]; intros k [|i] a Hn; simpl in *; try discriminate.
  - inversion Hn. now rewrite Nat.add_0_r.
  - rewrite (IH (S k) i a Hn). do 2 f_equal. lia.
Qed.

Lemma all_corrections_at (scrape : scraper)
  (locations : list Enriched.Location) :
  forall k i location,
    nth_error locations i = Some location ->
    filter (fun c => Nat.eqb (index c) (k + i))
           (all_corrections scrape k locations) =
    step_corrections scrape (k + i) location.
Proof.
  assert (Hother : forall ls k j, j < k ->
            filter (fun c => Nat.eqb (index c) j)
                   (all_corrections scrape k ls) = []).
  { induction ls as [|l ls IH]; intros k j Hj; simpl; [reflexivity|].
    rewrite filter_app, (IH (S k) j) by lia. rewrite app_nil_r.
    apply filter_none. intros c Hc. apply step_corrections_index in Hc.
    apply Nat.eqb_neq. lia. }
  induction locations as [|l ls IH]; intros k [|i] location Hn;
    simpl in Hn; try discriminate; simpl; rewrite filter_app.
  - inversion Hn; subst. rewrite Nat.add_0_r, Hother by lia.
    rewrite app_nil_r. apply filter_all.
    intros c Hc. apply step_corrections_index in Hc. now apply Nat.eqb_eq.
  - replace (k + S i) with (S k + i) by lia. rewrite (IH (S k) i location Hn).
    replace (filter _ (step_corrections scrape k l)) with (@nil Correction);
      [reflexivity|].
    symmetry. apply filter_none.
    intros c Hc. apply step_corrections_index in Hc.
    apply Nat.eqb_neq. lia.
Qed.


Lemma step_found (scrape : scraper) (idx : nat) (location : Enriched.Location)
  (new_lat new_lng : Q) :
  looked_up location = true ->
  scrape idx
    (get_or (Enriched.place_name (Enriched.google_maps_data location)) "")
    (get_or (Enriched.address (Enriched.google_maps_data location)) "")
    = Some (new_lat, new_lng) ->
  let current_lat := get_or (Enriched.latitude location) 0%Q in
  let current_lng := get_or (Enriched.longitude location) 0%Q in
  let distance :=
    calculate_distance (Q2R current_lat) (Q2R current_lng)
                       (Q2R new_lat) (Q2R new_lng) in
  ((distance > DISTANCE_THRESHOLD_KM)%R ->
   step_location scrape idx location = set_coords location new_lat new_lng /\
   step_corrections scrape idx location =
     [{| index := idx;
         name := get_or (Enriched.place_name
                           (Enriched.google_maps_data location)) "";
         old_coords := (current_lat, current_lng);
         new_coords := (new_lat, new_lng);
         distance_km := distance |}]) /\
  ((distance <= DISTANCE_THRESHOLD_KM)%R ->
   step_location scrape idx location = location /\
   step_corrections scrape idx location = []).
Proof.
  unfold looked_up, step_location, step_corrections, process_location.
  intros -> ->. cbn [negb]. cbv zeta.
  destruct (Rgt_dec _ _) as [Hgt | Hle]; split; intros Hd;
    try (split; reflexivity); exfalso.
  - apply (Rgt_not_le _ _ Hgt Hd).
  - exact (Hle Hd).
Qed.

(** *** The loop over any distance function *)

Section WithFacts.
Variable distance_of : distance_function.
Variable scrape : scraper.

(** The four ways a turn of the loop can go. *)
Lemma step_with_cases (idx : nat) (location : Enriched.Location) :
  let google_data := Enriched.google_maps_data location in
  let place_name := get_or (Enriched.place_name google_data) "" in
  let address := get_or (Enriched.address google_data) "" in
  let current_lat := get_or (Enriched.latitude location) 0%Q in
  let current_lng := get_or (Enriched.longitude location) 0%Q in
  (looked_up location = false /\
   step_with distance_of scrape idx location = Some (location, [])) \/
  (looked_up location = true /\
   scrape idx place_name address = None /\
   step_with distance_of scrape idx location = Some (location, [])) \/
  (exists new_lat new_lng,
     looked_up location = true /\
     scrape idx place_name address = Some (new_lat, new_lng) /\
     distance_of current_lat current_lng new_lat new_lng = None /\
     step_with distance_of scrape idx location = None) \/
  (exists new_lat new_lng distance,
     looked_up location = true /\
     scrape idx place_name address = Some (new_lat, new_lng) /\
     distance_of current_lat current_lng new_lat new_lng = Some distance /\
     (distance <= DISTANCE_THRESHOLD_KM)%R /\
     step_with distance_of scrape idx location = Some (location, [])) \/
  (exists new_lat new_lng distance,
     looked_up location = true /\
     scrape idx place_name address = Some (new_lat, new_lng) /\
     distance_of current_lat current_lng new_lat new_lng = Some distance /\
     (distance > DISTANCE_THRESHOLD_KM)%R /\
     step_with distance_of scrape idx location =
       Some ({| Enriched.latitude := Some new_lat;
                Enriched.longitude := Some new_lng;
                Enriched.description := Enriched.description location;
                Enriched.google_maps_data :=
                  Enriched.google_maps_data location |},
             [{| index := idx; name := place_name;
                 old_coords := (current_lat, current_lng);
                 new_coords := (new_lat, new_lng);
                 distance_km := distance |}])).
Proof.
  cbv zeta. unfold step_with, looked_up, process_location_with.
  destruct (nonempty _); cbn [negb]; [|left; split; reflexivity].
  right.
  destruct (scrape _ _ _) as [[nl ng]|] eqn:Hs;
    [|left; repeat split; reflexivity].
  right.
  destruct (distance_of _ _ _ _) as [d|] eqn:Hd.
  - right. destruct (Rgt_dec d DISTANCE_THRESHOLD_KM) as [Hgt | Hle].
    + right. exists nl, ng, d. repeat split; assumption.
    + left. exists nl, ng, d. repeat split; try assumption.
      now apply Rnot_gt_le.
  - left. exists nl, ng. repeat split; assumption.
Qed.

Lemma process_location_with_step (idx : nat) (location : Enriched.Location)
  (t : Tally) :
  match process_location_with distance_of scrape idx location t with
  | Some (location', t') =>
      step_with distance_of scrape idx location =
        Some (location',
              step_with_corrections distance_of scrape idx location) /\
      corrections t' =
        (corrections t
         ++ step_with_corrections distance_of scrape idx location)%list /\
      error_count t' =
        error_count t + (if missed scrape (idx, location) then 1 else 0)
  | None => step_with distance_of scrape idx location = None
  end.
Proof.
  unfold step_with_corrections, step_with, missed, looked_up,
    process_location_with.
  destruct (nonempty _); cbn [negb andb];
    [|cbn; rewrite app_nil_r; repeat split; lia].
  destruct (scrape _ _ _) as [[nl ng]|];
    [|cbn; rewrite app_nil_r; repeat split; lia].
  destruct (distance_of _ _ _ _) as [d|]; [|reflexivity].
  destruct (Rgt_dec _ _); cbn; [|rewrite app_nil_r]; repeat split; lia.
Qed.

Lemma step_with_corrections_index (idx : nat) (location : Enriched.Location)
  (c : Correction) :
  In c (step_with_corrections distance_of scrape idx location) ->
  index c = idx.
Proof.
  unfold step_with_corrections.
  destruct (step_with_cases idx location)
    as [[_ ->] | [(_ & _ & ->) | [(nl & ng & _ & _ & _ & ->)
        | [(nl & ng & d & _ & _ & _ & _ & ->)
          | (nl & ng & d & _ & _ & _ & _ & ->)]]]];
    intros Hin; simpl in Hin; try contradiction.
  destruct Hin as [<- | []]. reflexivity.
Qed.

Lemma process_from_with_spec (locations : list Enriched.Location) :
  forall k t updated t',
    process_from_with distance_of scrape k locations t = Some (updated, t') ->
    updated =
      map (fun e => step_with_location distance_of scrape (fst e) (snd e))
          (enumerate_from k locations) /\
    corrections t' =
      (corrections t ++ all_corrections_with distance_of scrape k locations)%list /\
    error_count t' =
      error_count t +
      List.length (filter (missed scrape) (enumerate_from k locations)) /\
    forall i location,
      nth_error locations i = Some location ->
      step_with distance_of scrape (k + i) location <> None.
Proof.
  induction locations as [|location rest IH]; intros k t updated t' Hrun.
  - simpl in Hrun. inversion Hrun; subst. simpl. rewrite app_nil_r.
    unfold enumerate_from. simpl. repeat split; try lia.
    intros [|i] location Hn; discriminate.
  - cbn [process_from_with] in Hrun.
    pose proof (process_location_with_step k location t) as Hstep.
    destruct (process_location_with distance_of scrape k location t)
      as [[location' t1]|]; [|discriminate].
    destruct Hstep as (Hs & Hc & He).
    destruct (process_from_with distance_of scrape (S k) rest t1)
      as [[rest' t2]|] eqn:Hrest; [|discriminate].
    inversion Hrun; subst updated t'. clear Hrun.
    destruct (IH (S k) t1 rest' t2 Hrest) as (IH1 & IH2 & IH3 & IH4).
    unfold enumerate_from in *.
    cbn [List.length seq combine map filter fst snd all_corrections_with].
    split.
    { rewrite <- IH1. f_equal. unfold step_with_location. now rewrite Hs. }
    split; [now rewrite IH2, Hc, app_assoc|].
    split.
    { rewrite IH3, He.
      destruct (missed scrape (k, location)); cbn [List.length]; lia. }
    intros [|i] loc Hn; simpl in Hn.
    + inversion Hn; subst loc. rewrite Nat.add_0_r, Hs. discriminate.
    + replace (k + S i) with (S k + i) by lia. now apply IH4.
Qed.

Lemma all_corrections_with_at (locations : list Enriched.Location) :
  forall k i location,
    nth_error locations i = Some location ->
    filter (fun c => Nat.eqb (index c) (k + i))
           (all_corrections_with distance_of scrape k locations) =
    step_with_corrections distance_of scrape (k + i) location.
Proof.
  assert (Hother : forall ls k j, j < k ->
            filter (fun c => Nat.eqb (index c) j)
                   (all_corrections_with distance_of scrape k ls) = []).
  { induction ls as [|l ls IH]; intros k j Hj; simpl; [reflexivity|].
    rewrite filter_app, (IH (S k) j) by lia. rewrite app_nil_r.
    apply filter_none. intros c Hc. apply step_with_corrections_index in Hc.
    apply Nat.eqb_neq. lia. }
  induction locations as [|l ls IH]; intros k [|i] location Hn;
    simpl in Hn; try discriminate; simpl; rewrite filter_app.
  - inversion Hn; subst. rewrite Nat.add_0_r, Hother by lia.
    rewrite app_nil_r. apply filter_all.
    intros c Hc. apply step_with_corrections_index in Hc.
    now apply Nat.eqb_eq.
  - replace (k + S i) with (S k + i) by lia. rewrite (IH (S k) i location Hn).
    replace (filter _ (step_with_corrections distance_of scrape k l))
      with (@nil Correction); [reflexivity|].
    symmetry. apply filter_none.
    intros c Hc. apply step_with_corrections_index in Hc.
    apply Nat.eqb_neq. lia.
Qed.

(** What a completed run holds for the record at [idx]. *)
Lemma completed_run_at (enriched_data updated : list Enriched.Location)
  (t : Tally) (idx : nat) (location : Enriched.Location) :
  process_locations_with distance_of scrape enriched_data = Some (updated, t) ->
  nth_error enriched_data idx = Some location ->
  exists location' entries,
    step_with distance_of scrape idx location = Some (location', entries) /\
    nth_error updated idx = Some location' /\
    corrections_at idx t = entries.
Proof.
  intros Hrun Hn.
  destruct (process_from_with_spec enriched_data 0 start updated t Hrun)
    as (Hu & Hc & _ & Hdone).
  specialize (Hdone idx location Hn). simpl in Hdone.
  destruct (step_with distance_of scrape idx location)
    as [[location' entries]|] eqn:Hs; [|congruence].
  exists location', entries. split; [reflexivity|]. split.
  - rewrite Hu, nth_error_map, (enumerate_from_nth _ 0 idx location Hn).
    simpl. unfold step_with_location. now rewrite Hs.
  - unfold corrections_at. rewrite Hc. cbn [start corrections app].
    pose proof (all_corrections_with_at enriched_data 0 idx location Hn)
      as Hat.
    cbn [Nat.add] in Hat. rewrite Hat.
    unfold step_with_corrections. now rewrite Hs.
Qed.

Lemma In_all_corrections_with (locations : list Enriched.Location)
  (c : Correction) :
  forall k,
    In c (all_corrections_with distance_of scrape k locations) ->
    exists i location,
      nth_error locations i = Some location /\
      In c (step_with_corrections distance_of scrape (k + i) location).
Proof.
  induction locations as [|location rest IH]; intros k; simpl; [intros []|].
  intros Hin. apply in_app_or in Hin. destruct Hin as [Hin | Hin].
  - exists 0, location. rewrite Nat.add_0_r. split; [reflexivity | exact Hin].
  - destruct (IH (S k) Hin) as (i & loc & Hn & Hc).
    exists (S i), loc. split; [exact Hn|].
    replace (k + S i) with (S k + i) by lia. exact Hc.
Qed.

Lemma all_corrections_with_sorted (locations : list Enriched.Location) :
  forall k,
    StronglySorted lt
      (map index (all_corrections_with distance_of scrape k locations)) /\
    Forall (fun i => k <= i)
      (map index (all_corrections_with distance_of scrape k locations)).
Proof.
  induction locations as [|location rest IH]; intros k; simpl.
  - split; constructor.
  - destruct (IH (S k)) as [Hs Hge].
    assert (Hge' : Forall (fun i => k <= i)
                     (map index (all_corrections_with distance_of scrape
                                   (S k) rest))).
    { eapply Forall_impl; [|exact Hge]. simpl. intros; lia. }
    rewrite map_app.
    assert (Hshape :
              step_with_corrections distance_of scrape k location = [] \/
              exists c,
                step_with_corrections distance_of scrape k location = [c] /\
                index c = k).
    { unfold step_with_corrections.
      destruct (step_with_cases k location)
        as [[_ ->] | [(_ & _ & ->) | [(nl & ng & _ & _ & _ & ->)
            | [(nl & ng & d & _ & _ & _ & _ & ->)
              | (nl & ng & d & _ & _ & _ & _ & ->)]]]];
        try (left; reflexivity).
      right. eexists. split; reflexivity. }
    destruct Hshape as [-> | (c & -> & Hc)]; simpl; [split; assumption|].
    rewrite Hc. split.
    + constructor; [exact Hs|].
      eapply Forall_impl; [|exact Hge]. simpl. intros; lia.
    + constructor; [lia | exact Hge'].
Qed.

End WithFacts.



(** *** The loop in exact arithmetic *)

Lemma process_from_exact (scrape : scraper)
  (locations : list Enriched.Location) :
  forall k t,
    process_from_with exact_distance scrape k locations t =
    Some (process_from scrape k locations t).
Proof.
  induction locations as [|location rest IH]; intros k t; [reflexivity|].
  cbn [process_from_with process_from].
  assert (Hs : process_location_with exact_distance scrape k location t =
               Some (process_location scrape k location t)).
  { unfold process_location_with, process_location, exact_distance.
    destruct (negb _); [reflexivity|].
    destruct (scrape _ _ _) as [[nl ng]|]; [|reflexivity].
    cbv zeta. destruct (Rgt_dec _ _); reflexivity. }
  rewrite Hs. destruct (process_location scrape k location t) as [l' t'].
  rewrite IH. destruct (process_from scrape (S k) rest t'). reflexivity.
Qed.

(** In exact arithmetic [calculate_distance] always has a value, and the
    loop over any distance function is the loop of [process_locations]. *)
Lemma process_locations_exact (scrape : scraper)
  (enriched_data : list Enriched.Location) :
  process_locations_with exact_distance scrape enriched_data =
  Some (process_locations scrape enriched_data).
Proof. apply process_from_exact. Qed.

(** Two sanity points of the distance: a point is at distance 0 from
    itself, and two opposite points of the equator are half the
    circumference apart. *)
Lemma calculate_distance_same (lat lon : R) :
  calculate_distance lat lon lat lon = 0%R.
Proof.
  unfold calculate_distance, radians.
  replace ((lat - lat) * (PI / 180) / 2)%R with 0%R by field.
  replace ((lon - lon) * (PI / 180) / 2)%R with 0%R by field.
  rewrite sin_0.
  replace (0 ^ 2 + cos (lat * (PI / 180)) * cos (lat * (PI / 180)) * 0 ^ 2)%R
    with 0%R by ring.
  rewrite Rminus_0_r, sqrt_0, sqrt_1. unfold atan2.
  destruct (Rlt_dec 0 1) as [_ | Hn]; [|exfalso; apply Hn; lra].
  replace (0 / 1)%R with 0%R by field. rewrite atan_0. ring.
Qed.

Lemma calculate_distance_antipodal :
  calculate_distance 0 0 0 180 = (6371 * PI)%R.
Proof.
  unfold calculate_distance, radians.
  replace ((0 - 0) * (PI / 180) / 2)%R with 0%R by field.
  replace ((180 - 0) * (PI / 180) / 2)%R with (PI / 2)%R by field.
  replace (0 * (PI / 180))%R with 0%R by ring.
  rewrite sin_0, sin_PI2, cos_0.
  replace (0 ^ 2 + 1 * 1 * 1 ^ 2)%R with 1%R by ring.
  replace (1 - 1)%R with 0%R by ring.
  rewrite sqrt_0, sqrt_1. unfold atan2.
  destruct (Rlt_dec 0 0) as [Hn | _]; [exfalso; lra|].
  destruct (Rlt_dec 0 1) as [_ | Hn]; [|exfalso; apply Hn; lra].
  field.
Qed.

Local Open Scope R_scope.

Lemma atan2_pos_x (y x : R) : 0 < x -> atan2 y x = atan (y / x).
Proof. intros Hx. unfold atan2. destruct (Rlt_dec 0 x); [reflexivity | contradiction]. Qed.

(** The distance is at least the distance along the meridian. *)
Lemma calculate_distance_ge_meridian (lat1 lon1 lat2 lon2 : R) :
  let y := radians (lat2 - lat1) / 2 in
  let a := sin y ^ 2 +
           cos (radians lat1) * cos (radians lat2) *
           sin (radians (lon2 - lon1) / 2) ^ 2 in
  0 <= y < PI / 2 ->
  0 <= cos (radians lat1) -> 0 <= cos (radians lat2) ->
  a < 1 ->
  6371 * (2 * y) <= calculate_distance lat1 lon1 lat2 lon2.
Proof.
  intros y a Hy Hc1 Hc2 Ha.
  unfold calculate_distance. fold y. fold a.
  assert (Hcy : 0 < cos y).
  { apply cos_gt_0; lra. }
  assert (Hsy : 0 <= sin y).
  { pose proof PI_RGT_0. apply sin_ge_0; lra. }
  assert (Hlow : sin y ^ 2 <= a).
  { unfold a. 
    assert (0 <= cos (radians lat1) * cos (radians lat2) *
            sin (radians (lon2 - lon1) / 2) ^ 2).
    { apply Rmult_le_pos; [now apply Rmult_le_pos | apply pow2_ge_0]. }
    lra. }
  assert (Hs2 : 0 <= sin y ^ 2) by apply pow2_ge_0.
  assert (Hnum : sin y <= sqrt a).
  { rewrite <- (sqrt_pow2 (sin y) Hsy). apply sqrt_le_1; lra. }
  assert (Hcos2 : 1 - sin y ^ 2 = cos y ^ 2).
  { pose proof (sin2_cos2 y) as H. unfold Rsqr in H. lra. }
  assert (Hden : sqrt (1 - a) <= cos y).
  { rewrite <- (sqrt_pow2 (cos y)) by lra. apply sqrt_le_1; lra. }
  assert (Hdpos : 0 < sqrt (1 - a)) by (apply sqrt_lt_R0; lra).
  rewrite atan2_pos_x by exact Hdpos.
  assert (Htan : tan y <= sqrt a / sqrt (1 - a)).
  { unfold tan, Rdiv.
    apply Rle_trans with (sin y * / sqrt (1 - a)).
    - apply Rmult_le_compat_l; [exact Hsy|].
      apply Rinv_le_contravar; assumption.
    - apply Rmult_le_compat_r; [|exact Hnum].
      left. now apply Rinv_0_lt_compat. }
  assert (Hat : y <= atan (sqrt a / sqrt (1 - a))).
  { pose proof PI_RGT_0.
    rewrite <- (atan_tan y) at 1 by lra.
    destruct Htan as [Hlt | Heq].
    - left. now apply atan_increasing.
    - rewrite Heq. right. reflexivity. }
  lra.
Qed.

Lemma sin_sq_small (z b : R) : 0 <= z -> z <= b -> b <= 1 -> sin z ^ 2 <= b ^ 2.
Proof.
  intros Hz Hb Hb1.
  assert (Hs0 : 0 <= sin z).
  { pose proof PI2_3_2. apply sin_ge_0; lra. }
  assert (Hs1 : sin z <= z).
  { destruct Hz as [Hz | <-]; [left; now apply sin_lt_x | rewrite sin_0; lra]. }
  nra.
Qed.

(** The scenario of the specification with the stored coordinate
    (3.1, 101.6) and the candidate (3.15, 101.62): the two points are
    0.05 degrees of latitude apart, more than 5.3 km along the meridian,
    so the distance exceeds the threshold. *)
Lemma scenario_near_candidate_exceeds_threshold :
  (calculate_distance (Q2R 3.1) (Q2R 101.6) (Q2R 3.15) (Q2R 101.62)
   > DISTANCE_THRESHOLD_KM)%R.
Proof.
  pose proof PI2_3_2 as Hpi3. pose proof PI_4 as Hpi4.
  unfold DISTANCE_THRESHOLD_KM.
  pose proof (calculate_distance_ge_meridian 3.1 101.6 3.15 101.62) as Hm.
  cbv zeta in Hm. unfold radians in Hm.
  assert (Hy : 0 <= (3.15 - 3.1) * (PI / 180) / 2 < PI / 2) by lra.
  assert (Hc1 : 0 <= cos (3.1 * (PI / 180))) by (apply cos_ge_0; lra).
  assert (Hc2 : 0 <= cos (3.15 * (PI / 180))) by (apply cos_ge_0; lra).
  assert (Ha : sin ((3.15 - 3.1) * (PI / 180) / 2) ^ 2 +
               cos (3.1 * (PI / 180)) * cos (3.15 * (PI / 180)) *
               sin ((101.62 - 101.6) * (PI / 180) / 2) ^ 2 < 1).
  { pose proof (sin_sq_small ((3.15 - 3.1) * (PI / 180) / 2) (1/10)) as Hs1.
    pose proof (sin_sq_small ((101.62 - 101.6) * (PI / 180) / 2) (1/10)) as Hs2.
    pose proof (COS_bound (3.1 * (PI / 180))) as Hb1.
    pose proof (COS_bound (3.15 * (PI / 180))) as Hb2.
    assert (Hs1' := Hs1 ltac:(lra) ltac:(lra) ltac:(lra)).
    assert (Hs2' := Hs2 ltac:(lra) ltac:(lra) ltac:(lra)).
    assert (Hp : 0 <= sin ((101.62 - 101.6) * (PI / 180) / 2) ^ 2)
      by apply pow2_ge_0.
    set (s1 := sin ((3.15 - 3.1) * (PI / 180) / 2) ^ 2) in *.
    set (s2 := sin ((101.62 - 101.6) * (PI / 180) / 2) ^ 2) in *.
    set (c1 := cos (3.1 * (PI / 180))) in *.
    set (c2 := cos (3.15 * (PI / 180))) in *.
    assert (Hsq : (1 / 10) ^ 2 = 1 / 100) by field.
    rewrite Hsq in Hs1', Hs2'.
    assert (Hcc : c1 * c2 <= 1) by nra.
    assert (Hccs : c1 * c2 * s2 <= s2).
    { rewrite <- (Rmult_1_l s2) at 2. apply Rmult_le_compat_r; assumption. }
    lra. }
  specialize (Hm Hy Hc1 Hc2 Ha). lra.
Qed.

Local Close Scope R_scope.

(** In that scenario the loop body replaces the coordinate and writes an
    audit entry. *)
Example scenario_near_candidate_is_corrected :
  let location :=
    {| Enriched.latitude := Some 3.1%Q;
       Enriched.longitude := Some 101.6%Q;
       Enriched.description := None;
       Enriched.google_maps_data :=
         {| Enriched.place_name := Some "KLCC";
            Enriched.address := None;
            Enriched.category := None;
            Enriched.rating := None;
            Enriched.images := [] |} |} in
  let scrape : scraper := fun _ _ _ => Some (3.15%Q, 101.62%Q) in
  step_location scrape 0 location = set_coords location 3.15%Q 101.62%Q /\
  List.length (step_corrections scrape 0 location) = 1.
Proof.
  intros location scrape.
  destruct (step_found scrape 0 location 3.15%Q 101.62%Q eq_refl eq_refl)
    as [Hfar _].
  destruct (Hfar scenario_near_candidate_exceeds_threshold) as [-> ->].
  split; reflexivity.
Qed.

End CorrectorFacts.

(** ** Assemblers *)

Section AssemblerFacts.
Import PyStr PyDict Inventory.

Lemma insert_sorted_length (x : string) (l : list string) :
  List.length (insert_sorted x l) = S (List.length l).
Proof.
  induction l as [|y l IH]; simpl; [reflexivity|].
  destruct (String.leb x y); simpl; [reflexivity | now rewrite IH].
Qed.

Lemma sorted_length (l : list string) :
  List.length (sorted l) = List.length l.
Proof.
  induction l as [|x l IH]; simpl; [reflexivity|].
  now rewrite insert_sorted_length, IH.
Qed.

Lemma append_spot_id enriched_data spot_to_location existing_images
  (spots : list Spot.t) (spot_folder : string) :
  exists spot,
    MappingV2.append_spot enriched_data spot_to_location existing_images
                          spots spot_folder = (spots ++ [spot])%list /\
    Spot.id spot = Some (Z.of_nat (List.length spots) + 1)%Z.
Proof.
  unfold MappingV2.append_spot.
  destruct (match get spot_folder spot_to_location with
            | Some i => option_map (pair i) (nth_error enriched_data i)
            | None => None
            end) as [[i location]|]; eexists; split; reflexivity.
Qed.

Lemma fold_append_spot_ids enriched_data spot_to_location existing_images
  (names : list string) : forall spots : list Spot.t,
  map Spot.id
      (fold_left (MappingV2.append_spot enriched_data spot_to_location
                                       existing_images) names spots) =
  (map Spot.id spots ++
   map (fun i => Some (Z.of_nat i))
       (seq (S (List.length spots)) (List.length names)))%list.
Proof.
  induction names as [|n names IH]; intros spots; simpl.
  - now rewrite app_nil_r.
  - destruct (append_spot_id enriched_data spot_to_location existing_images
                             spots n) as (spot & -> & Hid).
    rewrite IH, map_app, length_app, <- app_assoc. simpl.
    rewrite Hid. do 3 f_equal; [lia|]. f_equal. lia.
Qed.


Lemma py_index_in_range {A : Type} (l : list A) (i : Z) :
  (- Z.of_nat (List.length l) <= i < Z.of_nat (List.length l))%Z ->
  exists a, py_index l i = Ok a.
Proof.
  intros Hi. unfold py_index.
  set (j := if (i <? 0)%Z then (i + Z.of_nat (List.length l))%Z else i).
  assert (Hj : (0 <= j < Z.of_nat (List.length l))%Z).
  { unfold j. destruct (Z.ltb_spec i 0); lia. }
  replace ((0 <=? j)%Z && (j <? Z.of_nat (List.length l))%Z) with true.
  - destruct (nth_error l (Z.to_nat j)) as [a|] eqn:Hn; [now exists a|].
    apply nth_error_None in Hn. lia.
  - symmetry. apply andb_true_iff. split; [apply Z.leb_le | apply Z.ltb_lt]; lia.
Qed.

Lemma py_index_below {A : Type} (l : list A) (i : Z) :
  (i < - Z.of_nat (List.length l))%Z -> py_index l i = IndexError.
Proof.
  intros Hi. unfold py_index.
  destruct (Z.ltb_spec i 0); [|lia].
  replace (0 <=? i + Z.of_nat (List.length l))%Z with false; [reflexivity|].
  symmetry. apply Z.leb_gt. lia.
Qed.

Lemma make_spot_id spots_data existing_images (spot_name : string)
  (spot_idx : Z) (spot : Spot.t) :
  UpdateSpots.make_spot spots_data existing_images spot_name spot_idx
    = Ok spot ->
  Spot.id spot = Some (spot_idx + 1)%Z.
Proof.
  unfold UpdateSpots.make_spot.
  destruct (spot_idx <? _)%Z.
  - destruct (py_index spots_data spot_idx); [|discriminate].
    intros Hs; inversion Hs; reflexivity.
  - intros Hs; inversion Hs; reflexivity.
Qed.

Lemma make_spot_ok spots_data existing_images (spot_name : string)
  (spot_idx : Z) :
  (- Z.of_nat (List.length spots_data) <= spot_idx)%Z ->
  exists spot,
    UpdateSpots.make_spot spots_data existing_images spot_name spot_idx
      = Ok spot.
Proof.
  intros Hi. unfold UpdateSpots.make_spot.
  destruct (Z.ltb_spec spot_idx (Z.of_nat (List.length spots_data)));
    [|eexists; reflexivity].
  destruct (py_index_in_range spots_data spot_idx) as [a ->]; [lia|].
  eexists; reflexivity.
Qed.

Lemma build_spots_ids spots_data existing_images (names : list string) :
  forall spots result,
    UpdateSpots.build_spots spots_data existing_images names spots
      = Ok result ->
    map Spot.id result =
    (map Spot.id spots ++
     map (fun i => Some (i + 1)%Z) (folder_numbers names))%list.
Proof.
  induction names as [|n names IH]; intros spots result; simpl.
  - intros Hr; inversion Hr. now rewrite app_nil_r.
  - destruct (int (remove "spot_" n)) as [spot_idx|]; [|apply IH].
    destruct (UpdateSpots.make_spot _ _ _ _) as [spot|] eqn:Hm;
      [|discriminate].
    intros Hr. rewrite (IH _ _ Hr), map_app, <- app_assoc. simpl.
    now rewrite (make_spot_id _ _ _ _ _ Hm).
Qed.

Lemma build_spots_ok spots_data existing_images (names : list string) :
  (forall i, In i (folder_numbers names) ->
             (- Z.of_nat (List.length spots_data) <= i)%Z) ->
  forall spots, exists result,
    UpdateSpots.build_spots spots_data existing_images names spots
      = Ok result.
Proof.
  induction names as [|n names IH]; intros Hall spots; simpl.
  - eexists; reflexivity.
  - simpl in Hall. destruct (int (remove "spot_" n)) as [spot_idx|].
    + destruct (make_spot_ok spots_data existing_images n spot_idx)
        as [spot ->]; [apply Hall; now left|].
      apply IH. intros i Hi. apply Hall. now right.
    + apply IH. exact Hall.
Qed.

(** C8. [fix_spots_json] (version 2) emits one record per folder of the
    inventory and numbers them 1, 2, ..., N in output order, resolved or
    not.  [update_spots_json] instead gives every folder whose name
    carries a number that number plus one as [id], in sorted folder-name
    order, and emits nothing for the other folders; it completes when no
    number lies below minus the number of enrichment records. *)
Theorem C8_assembler_ids :
  (forall (enriched_data : list Enriched.Location) (spots_dir : listing),
     let N := List.length (get_existing_images spots_dir) in
     let spots := MappingV2.fix_spots_json enriched_data spots_dir in
     List.length spots = N /\ map Spot.id spots = ids_from_one N) /\
  (forall (spots_data : list Enriched.Location) (spots_dir : listing),
     let names := sorted (keys (get_existing_images spots_dir)) in
     (forall spots,
        UpdateSpots.update_spots_json spots_data spots_dir = Ok spots ->
        map Spot.id spots =
        map (fun i => Some (i + 1)%Z) (folder_numbers names)) /\
     ((forall i, In i (folder_numbers names) ->
                 (- Z.of_nat (List.length spots_data) <= i)%Z) ->
      exists spots,
        UpdateSpots.update_spots_json spots_data spots_dir = Ok spots)).
Proof.
  split.
  - intros enriched_data spots_dir N spots.
    assert (Hids : map Spot.id spots = ids_from_one N).
    { unfold spots, MappingV2.fix_spots_json.
      cbn [MappingV2.build_spot_to_location_mapping].
      rewrite fold_append_spot_ids. simpl.
      unfold ids_from_one, N, keys.
      now rewrite sorted_length, length_map. }
    split; [|exact Hids].
    rewrite <- (length_map Spot.id), Hids. unfold ids_from_one.
    now rewrite length_map, length_seq.
  - intros spots_data spots_dir names. split.
    + intros spots Hs. apply (build_spots_ids _ _ _ _ _ Hs).
    + intros Hall. apply build_spots_ok. exact Hall.
Qed.

(** C8, counter-example: with the single folder [spot_5],
    [update_spots_json] emits one record whose [id] is 6, not 1. *)
Lemma C8_update_spots_json_ids_not_dense :
  let spots_dir : listing := [("spot_5", ["a.jpg"])] in
  List.length (get_existing_images spots_dir) = 1 /\
  exists spots,
    UpdateSpots.update_spots_json [] spots_dir = Ok spots /\
    map Spot.id spots = [Some 6%Z] /\
    map Spot.id spots <> ids_from_one 1.
Proof.
  split; [reflexivity|].
  eexists. split; [reflexivity|]. split; [reflexivity|].
  cbv. discriminate.
Qed.

End AssemblerFacts.

(** ** Evidence index *)

Section EvidenceFacts.
Import PyStr PyDict PathNormalizer MappingV2.

Lemma index_images_store (loc_idx : nat) (images : list string) :
  forall d,
    index_images loc_idx images d =
    store_all (map (fun p => (p, loc_idx)) (filter nonempty images)) d.
Proof.
  unfold index_images, store_all.
  induction images as [|p images IH]; intros d; simpl; [reflexivity|].
  destruct (nonempty p); simpl; apply IH.
Qed.

Lemma build_image_to_location_store (enriched_data : list Enriched.Location) :
  build_image_to_location enriched_data =
  store_all (declared_images enriched_data) [].
Proof.
  unfold build_image_to_location, declared_images.
  generalize (enumerate enriched_data) as es.
  generalize (@nil (string * nat)) as d.
  intros d es; revert d.
  induction es as [|[i location] es IH]; intros d; simpl; [reflexivity|].
  rewrite IH, index_images_store. unfold store_all.
  now rewrite fold_left_app.
Qed.

Lemma store_all_get (entries : list (string * nat)) (d : dict string nat)
  (key : string) (loc_idx : nat) :
  get key (store_all entries d) = Some loc_idx <->
  (exists before after path,
      entries = (before ++ (path, loc_idx) :: after)%list /\
      image_key path = key /\
      forall p i, In (p, i) after -> image_key p <> key) \/
  ((forall p i, In (p, i) entries -> image_key p <> key) /\
   get key d = Some loc_idx).
Proof.
  induction entries as [|[p i] entries IH] using rev_ind.
  - simpl. split.
    + intros Hg. right. split; [intros ? ? []|exact Hg].
    + intros [(before & after & path & He & _) | [_ Hg]]; [|exact Hg].
      destruct before; discriminate.
  - unfold store_all in *. rewrite fold_left_app. simpl.
    destruct (string_dec (image_key p) key) as [Hk | Hk].
    + rewrite Hk, get_set_same. split.
      * intros Hs; inversion Hs; subst. left.
        exists entries, [], p. repeat split. intros ? ? [].
      * intros [(before & after & path & He & Hp & Hafter) | [Hnone _]].
        -- destruct after as [|a after] using rev_ind.
           ++ apply app_inj_tail in He. destruct He as [_ He].
              now inversion He.
           ++ clear IHafter. rewrite app_comm_cons, app_assoc in He.
              apply app_inj_tail in He. destruct He as [_ He]; subst a.
              exfalso. apply (Hafter p i); [|exact Hk].
              apply in_or_app. right. now left.
        -- exfalso. apply (Hnone p i); [|exact Hk].
           apply in_or_app. right. now left.
    + rewrite get_set_other by congruence. rewrite IH. split.
      * intros [(before & after & path & He & Hp & Hafter) | [Hnone Hg]].
        -- left. exists before, (after ++ [(p, i)])%list, path.
           split; [rewrite He, <- app_assoc; reflexivity|].
           split; [exact Hp|].
           intros q j Hq. apply in_app_or in Hq. destruct Hq as [Hq | [Hq | []]].
           ++ now apply (Hafter q j).
           ++ inversion Hq; subst. exact Hk.
        -- right. split; [|exact Hg].
           intros q j Hq. apply in_app_or in Hq. destruct Hq as [Hq | [Hq | []]].
           ++ now apply (Hnone q j).
           ++ inversion Hq; subst. exact Hk.
      * intros [(before & after & path & He & Hp & Hafter) | [Hnone Hg]].
        -- destruct after as [|a after] using rev_ind.
           ++ apply app_inj_tail in He. destruct He as [_ He].
              inversion He; subst. contradiction.
           ++ clear IHafter. rewrite app_comm_cons, app_assoc in He.
              apply app_inj_tail in He. destruct He as [He Ha]; subst a.
              left. exists before, after, path. repeat split; auto.
              intros q j Hq. apply (Hafter q j). apply in_or_app. now left.
        -- right. split; [|exact Hg].
           intros q j Hq. apply (Hnone q j). apply in_or_app. now left.
Qed.


Lemma In_enumerate_from {A : Type} (l : list A) : forall k i a,
  In (i, a) (enumerate_from k l) <-> k <= i /\ nth_error l (i - k) = Some a.
Proof.
  unfold enumerate_from.
  induction l as [|x l IH]; intros k i a; simpl.
  - split; [intros [] | intros [_ Hn]]. destruct (i - k); discriminate.
  - rewrite IH. split.
    + intros [Heq | [Hle Hn]].
      * inversion Heq; subst. rewrite Nat.sub_diag. split; [lia | reflexivity].
      * split; [lia|]. replace (i - k) with (S (i - S k)) by lia. exact Hn.
    + intros [Hle Hn]. destruct (i - k) as [|m] eqn:Hm.
      * left. inversion Hn. f_equal. lia.
      * right. split; [lia|]. replace (i - S k) with m by lia. exact Hn.
Qed.

Lemma In_enumerate {A : Type} (l : list A) (i : nat) (a : A) :
  In (i, a) (enumerate l) <-> nth_error l i = Some a.
Proof.
  change (enumerate l) with (enumerate_from 0 l).
  rewrite In_enumerate_from, Nat.sub_0_r. split; [tauto | split; [lia | assumption]].
Qed.

Lemma In_declared_images (enriched_data : list Enriched.Location)
  (path : string) (loc_idx : nat) :
  In (path, loc_idx) (declared_images enriched_data) <->
  exists location,
    nth_error enriched_data loc_idx = Some location /\
    In path (Enriched.images (Enriched.google_maps_data location)) /\
    path <> "".
Proof.
  unfold declared_images. rewrite in_flat_map. split.
  - intros [[i location] [He Hin]]. simpl in Hin.
    apply in_map_iff in Hin. destruct Hin as (p & Heq & Hp).
    inversion Heq; subst. apply filter_In in Hp. destruct Hp as [Hp Hne].
    exists location. split; [now apply In_enumerate|]. split; [exact Hp|].
    intros ->. discriminate.
  - intros (location & Hn & Hin & Hne).
    exists (loc_idx, location). split; [now apply In_enumerate|].
    simpl. apply in_map_iff. exists path. split; [reflexivity|].
    apply filter_In. split; [exact Hin|].
    unfold nonempty. apply negb_true_iff, String.eqb_neq. exact Hne.
Qed.

End EvidenceFacts.

(** ** Path normaliser *)

Section PathFacts.
Import PyStr PathNormalizer.

Lemma find_first_spec {A : Type} (f : A -> bool) (l : list A) (x : A) :
  find f l = Some x <->
  exists before after,
    l = (before ++ x :: after)%list /\ f x = true /\
    forall s, In s before -> f s = false.
Proof.
  induction l as [|y l IH]; simpl.
  - split; [discriminate | intros (before & after & He & _)].
    destruct before; discriminate.
  - destruct (f y) eqn:Hy.
    + split.
      * intros Hs; inversion Hs; subst. exists [], l. repeat split; auto.
        intros ? [].
      * intros (before & after & He & Hx & Hb).
        destruct before as [|b before]; simpl in He; inversion He; subst.
        -- reflexivity.
        -- rewrite (Hb b (or_introl eq_refl)) in Hy. discriminate.
    + rewrite IH. split.
      * intros (before & after & He & Hx & Hb).
        exists (y :: before), after. rewrite He. repeat split; auto.
        intros s [<- | Hs]; auto.
      * intros (before & after & He & Hx & Hb).
        destruct before as [|b before]; simpl in He; inversion He; subst.
        -- congruence.
        -- exists before, after. repeat split; auto.
           intros s Hs. apply Hb. now right.
Qed.

Lemma find_none_iff {A : Type} (f : A -> bool) (l : list A) :
  find f l = None <-> forall s, In s l -> f s = false.
Proof.
  induction l as [|y l IH]; simpl.
  - split; [intros _ ? [] | reflexivity].
  - destruct (f y) eqn:Hy.
    + split; [discriminate|]. intros Hall.
      rewrite (Hall y (or_introl eq_refl)) in Hy. discriminate.
    + rewrite IH. split.
      * intros Hall s [<- | Hs]; auto.
      * intros Hall s Hs. apply Hall. now right.
Qed.

Lemma split_nonempty (sep : ascii) (s : string) : split sep s <> [].
Proof.
  destruct s as [|c s]; simpl; [discriminate|].
  destruct (Ascii.eqb c sep); [discriminate|].
  destruct (split sep s); discriminate.
Qed.

Lemma split_head_prefix (sep : ascii) (s : string) :
  forall h t, split sep s = h :: t -> exists post, s = h ++ post.
Proof.
  induction s as [|c s IH]; intros h t; simpl.
  - intros He; inversion He. now exists "".
  - destruct (Ascii.eqb c sep).
    + intros He; inversion He. now exists (String c s).
    + destruct (split sep s) as [|h' t'] eqn:Hs.
      * intros He; inversion He. exfalso. now apply (split_nonempty sep s).
      * destruct (IH h' t' eq_refl) as [post Hp].
        intros He; inversion He; subst.
        now exists post.
Qed.

Lemma split_substring (sep : ascii) (s x : string) :
  In x (split sep s) -> Substring x s.
Proof.
  unfold Substring. revert x. induction s as [|c s IH]; intros x; simpl.
  - intros [<- | []]. now exists "", "".
  - destruct (Ascii.eqb c sep).
    + intros [<- | Hx].
      * now exists "", (String c s).
      * destruct (IH x Hx) as (pre & post & ->).
        now exists (String c pre), post.
    + destruct (split sep s) as [|h t] eqn:Hs.
      * exfalso. now apply (split_nonempty sep s).
      * intros [<- | Hx].
        -- destruct (split_head_prefix sep s h t Hs) as [post ->].
           now exists "", post.
        -- destruct (IH x (or_intror Hx)) as (pre & post & ->).
           now exists (String c pre), post.
Qed.

Lemma append_assoc (a b c : string) : (a ++ b) ++ c = a ++ b ++ c.
Proof. induction a as [|x a IH]; simpl; [reflexivity | now rewrite IH]. Qed.

Lemma Substring_trans (a b c : string) :
  Substring a b -> Substring b c -> Substring a c.
Proof.
  intros (p1 & q1 & ->) (p2 & q2 & ->).
  exists (p2 ++ p1), (q1 ++ q2). now rewrite !append_assoc.
Qed.

(** The guard ['spot_' in path] never changes the outcome. *)
Lemma get_spot_folder_from_path_find (path_str : string) :
  get_spot_folder_from_path path_str =
  find (startswith "spot_")
       (split "/"%char
              (strip_prefix prefixes
                            (replace_char "\"%char "/"%char path_str))).
Proof.
  unfold get_spot_folder_from_path.
  set (path := strip_prefix prefixes _).
  destruct (contains "spot_" path) eqn:Hc; [reflexivity|].
  destruct (find _ _) as [x|] eqn:Hf; [|reflexivity].
  apply find_some in Hf. destruct Hf as [Hin Hsw].
  apply split_substring in Hin. apply prefix_app in Hsw.
  destruct Hsw as [post Hx].
  assert (Hs : Substring "spot_" path).
  { apply (Substring_trans _ x); [|exact Hin]. exists "", post. exact Hx. }
  apply contains_spec in Hs. congruence.
Qed.


Lemma prefix_drop (p s : string) :
  String.prefix p s = true -> s = p ++ drop (String.length p) s.
Proof.
  revert s; induction p as [|c p IH]; intros s; simpl.
  - intros _. now destruct s.
  - destruct s as [|c' s]; simpl; [discriminate|].
    destruct (ascii_dec c c') as [->|]; [|discriminate].
    intros Hp. f_equal. now apply IH.
Qed.

Lemma prefix_first_char (a : ascii) (p s : string) :
  String.prefix (String a p) s = true -> exists s', s = String a s'.
Proof.
  destruct s as [|c s]; simpl; [discriminate|].
  destruct (ascii_dec a c) as [->|]; [|discriminate]. now exists s.
Qed.

Lemma strip_prefix_spec (normalized : string) :
  let path := strip_prefix prefixes normalized in
  (exists prefix,
      In prefix prefixes /\ normalized = prefix ++ path /\
      forall q, In q prefixes -> startswith q normalized = true ->
                String.length q <= String.length prefix) \/
  ((forall q, In q prefixes -> startswith q normalized = false) /\
   path = normalized).
Proof.
  unfold prefixes, strip_prefix, startswith.
  destruct (String.prefix "images/" normalized) eqn:H1.
  { left. exists "images/". split; [simpl; auto|].
    split; [now apply prefix_drop|].
    apply prefix_first_char in H1. destruct H1 as [s' ->].
    intros q [<- | [<- | [<- | [<- | []]]]] Hq; simpl; try lia;
      apply prefix_first_char in Hq; destruct Hq as [s'' Hq]; discriminate. }
  destruct (String.prefix "scraped_data/images/" normalized) eqn:H2.
  { left. exists "scraped_data/images/". split; [simpl; auto|].
    split; [now apply prefix_drop|].
    intros q [<- | [<- | [<- | [<- | []]]]] _; simpl; lia. }
  destruct (String.prefix "images\" normalized) eqn:H3.
  { left. exists "images\". split; [simpl; auto|].
    split; [now apply prefix_drop|].
    apply prefix_first_char in H3. destruct H3 as [s' ->].
    intros q [<- | [<- | [<- | [<- | []]]]] Hq; simpl; try lia;
      try congruence;
      apply prefix_first_char in Hq; destruct Hq as [s'' Hq]; discriminate. }
  destruct (String.prefix "scraped_data\images\" normalized) eqn:H4.
  { left. exists "scraped_data\images\". split; [simpl; auto|].
    split; [now apply prefix_drop|].
    intros q [<- | [<- | [<- | [<- | []]]]] _; simpl; lia. }
  right. split; [|reflexivity].
  intros q [<- | [<- | [<- | [<- | []]]]]; assumption.
Qed.

Lemma split_app (sep : ascii) (a b : string) :
  split sep (a ++ String sep b) = (split sep a ++ split sep b)%list.
Proof.
  induction a as [|c a IH]; simpl.
  - now rewrite Ascii.eqb_refl.
  - destruct (Ascii.eqb c sep); [now rewrite IH|].
    rewrite IH. destruct (split sep a) as [|h t] eqn:Hs; [|reflexivity].
    exfalso. now apply (split_nonempty sep a).
Qed.

Lemma split_no_sep (sep : ascii) (s : string) :
  has_char sep s = false -> split sep s = [s].
Proof.
  induction s as [|c s IH]; simpl; [reflexivity|].
  intros Hc. apply orb_false_iff in Hc. destruct Hc as [Hc Hs].
  rewrite Ascii.eqb_sym, Hc, (IH Hs). reflexivity.
Qed.

Lemma path_name_last_segment (dir name : string) :
  has_char "/"%char name = false -> name <> "" -> name <> "." ->
  path_name (dir ++ "/" ++ name) = name /\ path_name name = name.
Proof.
  intros Hc Hne Hdot.
  assert (Hkeep : negb (String.eqb name "" || String.eqb name ".") = true).
  { apply negb_true_iff, orb_false_iff. split; now apply String.eqb_neq. }
  unfold path_name, path_parts. split.
  - change ("/" ++ name) with (String "/"%char name).
    rewrite split_app, filter_app, (split_no_sep _ _ Hc). simpl.
    rewrite Hkeep. apply last_last.
  - rewrite (split_no_sep _ _ Hc). simpl. now rewrite Hkeep.
Qed.

(** C9. The path normaliser turns backslashes into slashes, removes at
    most one of the recognised prefixes (compared exactly, and no longer
    recognised prefix matches), and returns the first slash-separated
    segment of the remainder that starts with [spot_], whatever follows;
    it returns [None] exactly when no segment starts with [spot_]; a path
    with no recognised prefix is searched as it is; the file name is the
    last path component, whether or not a folder is found. *)
Theorem C9_path_normalizer :
  forall path_str : string,
    let normalized := replace_char "\"%char "/"%char path_str in
    let path := strip_prefix prefixes normalized in
    ((exists prefix,
         In prefix prefixes /\ normalized = prefix ++ path /\
         forall q, In q prefixes -> startswith q normalized = true ->
                   String.length q <= String.length prefix) \/
     ((forall q, In q prefixes -> startswith q normalized = false) /\
      path = normalized)) /\
    (forall folder,
       get_spot_folder_from_path path_str = Some folder <->
       exists before after,
         split "/"%char path = (before ++ folder :: after)%list /\
         startswith "spot_" folder = true /\
         forall s, In s before -> startswith "spot_" s = false) /\
    (get_spot_folder_from_path path_str = None <->
     forall s, In s (split "/"%char path) -> startswith "spot_" s = false) /\
    get_image_filename_from_path path_str = last (path_parts path_str) "" /\
    (forall dir name,
       has_char "/"%char name = false -> name <> "" -> name <> "." ->
       get_image_filename_from_path (dir ++ "/" ++ name) = name /\
       get_image_filename_from_path name = name).
Proof.
  intros path_str normalized path.
  split; [apply strip_prefix_spec|].
  split; [intros folder; rewrite get_spot_folder_from_path_find;
          apply find_first_spec|].
  split; [rewrite get_spot_folder_from_path_find; apply find_none_iff|].
  split; [reflexivity|].
  intros dir name. apply path_name_last_segment.
Qed.

(** C9, counter-example: in [spot_x/spot_1/a.jpg] the first segment of the
    form [spot_<N>] is [spot_1], but the folder returned is [spot_x], which
    carries no number. *)
Lemma C9_first_spot_segment_need_not_be_numbered :
  let path_str := "spot_x/spot_1/a.jpg" in
  get_spot_folder_from_path path_str = Some "spot_x" /\
  is_spot_token "spot_x" = false /\
  find is_spot_token (split "/"%char path_str) = Some "spot_1" /\
  get_spot_folder_from_path path_str
    <> find is_spot_token (split "/"%char path_str).
Proof. repeat split; try reflexivity. discriminate. Qed.

End PathFacts.

(** ** Vote tally and choice (version 2) *)

Section VotingFacts.
Import PyStr PyDict Inventory MappingV2.

Lemma tally_get (votes : list nat) : forall (counts : dict nat nat) l,
  get l (tally votes counts) =
  match votes_for l votes with
  | 0 => get l counts
  | S _ => Some (get_or (get l counts) 0 + votes_for l votes)
  end.
Proof.
  unfold tally, votes_for.
  induction votes as [|b votes IH]; intros counts l; simpl; [reflexivity|].
  rewrite IH. destruct (Nat.eq_dec b l) as [->|Hne].
  - rewrite get_set_same. simpl.
    destruct (count_occ Nat.eq_dec votes l); f_equal; lia.
  - rewrite get_set_other by congruence. reflexivity.
Qed.

Lemma tally_NoDup (votes : list nat) : forall counts : dict nat nat,
  NoDup (keys counts) -> NoDup (keys (tally votes counts)).
Proof.
  unfold tally. induction votes as [|b votes IH]; intros counts Hnd; simpl;
    [exact Hnd|].
  apply IH, NoDup_keys_set, Hnd.
Qed.

Lemma tally_extends (votes : list nat) : forall counts : dict nat nat,
  exists ext, keys (tally votes counts) = (keys counts ++ ext)%list.
Proof.
  unfold tally. induction votes as [|b votes IH]; intros counts; simpl.
  - exists []. now rewrite app_nil_r.
  - destruct (IH (set b (get_or (get b counts) 0 + 1) counts)) as [ext ->].
    rewrite keys_set. destruct (mem b counts).
    + now exists ext.
    + exists (b :: ext). now rewrite <- app_assoc.
Qed.

Lemma tally_app (v1 v2 : list nat) (counts : dict nat nat) :
  tally (v1 ++ v2) counts = tally v2 (tally v1 counts).
Proof. unfold tally. apply fold_left_app. Qed.

Lemma max_from_spec {K : Type} (items : list (K * nat)) :
  forall best,
    let m := max_from best items in
    (forall it, In it (best :: items) -> snd it <= snd m) /\
    exists P Q, best :: items = (P ++ m :: Q)%list /\
                forall it, In it P -> snd it < snd m.
Proof.
  induction items as [|it items IH]; intros best; simpl.
  - split.
    + intros it [<- | []]. lia.
    + exists [], []. split; [reflexivity | intros ? []].
  - destruct (Nat.ltb_spec (snd best) (snd it)) as [Hlt | Hge].
    + destruct (IH it) as (Hmax & P & Q & He & HP). simpl in *.
      split.
      * intros x [<- | Hx]; [|now apply Hmax].
        specialize (Hmax it (or_introl eq_refl)). lia.
      * exists (best :: P), Q. rewrite He. split; [reflexivity|].
        intros x [<- | Hx]; [|now apply HP].
        specialize (Hmax it (or_introl eq_refl)). lia.
    + destruct (IH best) as (Hmax & P & Q & He & HP). simpl in *.
      remember (max_from best items) as m eqn:Hm. clear Hm.
      split.
      * intros x [<- | [<- | Hx]].
        -- apply Hmax. now left.
        -- specialize (Hmax best (or_introl eq_refl)). lia.
        -- apply Hmax. now right.
      * destruct P as [|p P]; simpl in He; injection He as Hb Hi.
        -- exists [], (it :: items). split; [now rewrite Hb|].
           intros ? [].
        -- exists (p :: it :: P), Q. rewrite Hb, Hi. split; [reflexivity|].
           intros x [<- | [<- | Hx]].
           ++ apply HP. now left.
           ++ specialize (HP p (or_introl eq_refl)). rewrite Hb in Hge. lia.
           ++ apply HP. now right.
Qed.


Lemma vote_folder_ballots (image_to_location : dict string nat)
  (spot_folder : string) (image_files : list string) :
  forall votes,
    vote_folder image_to_location spot_folder image_files votes =
    fold_left (fun v l => add_vote spot_folder l v)
              (ballots image_to_location spot_folder image_files) votes.
Proof.
  unfold vote_folder, ballots.
  induction image_files as [|img files IH]; intros votes;
    cbn [fold_left flat_map]; [reflexivity|].
  rewrite fold_left_app, IH.
  destruct (get (spot_folder ++ "/" ++ img) image_to_location); reflexivity.
Qed.

Lemma add_vote_get (f : string) (b : nat)
  (votes : dict string (dict nat nat)) :
  get f (add_vote f b votes) = Some (tally [b] (get_or (get f votes) [])) /\
  (forall g, g <> f -> get g (add_vote f b votes) = get g votes) /\
  (NoDup (keys votes) -> NoDup (keys (add_vote f b votes))).
Proof.
  unfold add_vote. split; [apply get_set_same|].
  split; [intros g Hne; now apply get_set_other | apply NoDup_keys_set].
Qed.

Lemma add_votes_get (f : string) (bs : list nat) :
  forall votes : dict string (dict nat nat),
    let votes' := fold_left (fun v l => add_vote f l v) bs votes in
    get f votes' =
      match bs with
      | [] => get f votes
      | _ => Some (tally bs (get_or (get f votes) []))
      end /\
    (forall g, g <> f -> get g votes' = get g votes) /\
    (NoDup (keys votes) -> NoDup (keys votes')).
Proof.
  induction bs as [|b bs IH]; intros votes; cbn [fold_left].
  - repeat split; auto.
  - destruct (IH (add_vote f b votes)) as (Hf & Hg & Hnd).
    destruct (add_vote_get f b votes) as (Hf1 & Hg1 & Hnd1).
    cbv zeta in *. split; [|split].
    + rewrite Hf, Hf1. destruct bs; reflexivity.
    + intros g Hne. now rewrite (Hg g Hne), (Hg1 g Hne).
    + intros Hn. apply Hnd, Hnd1, Hn.
Qed.

Lemma count_votes_get (image_to_location : dict string nat)
  (existing_images : dict string (list string)) (f : string) :
  NoDup (keys existing_images) ->
  forall v0 : dict string (dict nat nat),
    get f (fold_left
             (fun v '(spot_folder, image_files) =>
                vote_folder image_to_location spot_folder image_files v)
             existing_images v0) =
    match get f existing_images with
    | Some files =>
        match ballots image_to_location f files with
        | [] => get f v0
        | bs => Some (tally bs (get_or (get f v0) []))
        end
    | None => get f v0
    end.
Proof.
  induction existing_images as [|[g fs] inv IH]; intros Hnd v0; simpl;
    [reflexivity|].
  inversion Hnd as [|? ? Hnotin Hnd']; subst.
  rewrite (IH Hnd'), vote_folder_ballots.
  destruct (add_votes_get g (ballots image_to_location g fs) v0)
    as (Hf & Hg & _).
  destruct (String.eqb_spec f g) as [->|Hne].
  - rewrite (proj2 (get_None_iff g inv) Hnotin), Hf.
    destruct (ballots image_to_location g fs); reflexivity.
  - rewrite (Hg f Hne). reflexivity.
Qed.

Lemma count_votes_NoDup (image_to_location : dict string nat)
  (existing_images : dict string (list string)) :
  forall v0 : dict string (dict nat nat),
    NoDup (keys v0) ->
    NoDup (keys (fold_left
                   (fun v '(spot_folder, image_files) =>
                      vote_folder image_to_location spot_folder image_files v)
                   existing_images v0)).
Proof.
  induction existing_images as [|[g fs] inv IH]; intros v0 Hnd; simpl;
    [exact Hnd|].
  apply IH. rewrite vote_folder_ballots.
  now apply (add_votes_get g (ballots image_to_location g fs) v0).
Qed.

Lemma choose_locations_get (votes : dict string (dict nat nat)) (f : string) :
  NoDup (keys votes) ->
  forall m0 : dict string nat,
    get f (fold_left
             (fun spot_to_location '(spot_folder, v) =>
                match py_max v with
                | Some (best_location, _) =>
                    set spot_folder best_location spot_to_location
                | None => spot_to_location
                end)
             votes m0) =
    match get f votes with
    | Some v =>
        match py_max v with
        | Some (best_location, _) => Some best_location
        | None => get f m0
        end
    | None => get f m0
    end.
Proof.
  induction votes as [|[g v] votes IH]; intros Hnd m0; simpl; [reflexivity|].
  inversion Hnd as [|? ? Hnotin Hnd']; subst.
  rewrite (IH Hnd').
  destruct (String.eqb_spec f g) as [->|Hne].
  - rewrite (proj2 (get_None_iff g votes) Hnotin).
    destruct (py_max v) as [[b c]|]; [apply get_set_same | reflexivity].
  - destruct (get f votes) as [v'|].
    + destruct (py_max v') as [[b' c']|]; [reflexivity|].
      destruct (py_max v) as [[b c]|]; [now apply get_set_other | reflexivity].
    + destruct (py_max v) as [[b c]|]; [now apply get_set_other | reflexivity].
Qed.

Lemma scan_images_NoDup (spots_dir : listing) :
  NoDup (keys (scan_images spots_dir)).
Proof.
  unfold scan_images.
  assert (Hgen : forall d : dict string (list string),
            NoDup (keys d) ->
            NoDup (keys (fold_left
                           (fun d '(spot_name, images) =>
                              match images with
                              | [] => d
                              | _ => set spot_name images d
                              end) spots_dir d))).
  { induction spots_dir as [|[n imgs] dir IH]; intros d Hnd; simpl;
      [exact Hnd|].
    apply IH. destruct imgs; [exact Hnd | now apply NoDup_keys_set]. }
  apply Hgen. constructor.
Qed.

(** In version 2 the location of a folder is read off the folder's own
    votes: other folders play no part. *)
Lemma mapping_per_folder (enriched_data : list Enriched.Location)
  (spots_dir : listing) (f : string) :
  get f (fst (build_spot_to_location_mapping enriched_data spots_dir)) =
  match get f (scan_images spots_dir) with
  | Some files =>
      option_map fst
        (py_max (tally (ballots (build_image_to_location enriched_data)
                                f files) []))
  | None => None
  end.
Proof.
  unfold build_spot_to_location_mapping, choose_locations, count_votes.
  cbn [fst].
  rewrite choose_locations_get
    by (apply count_votes_NoDup; constructor).
  rewrite count_votes_get by apply scan_images_NoDup.
  destruct (get f (scan_images spots_dir)) as [files|]; [|reflexivity].
  destruct (ballots _ f files) as [|b bs]; [reflexivity|].
  simpl get. destruct (py_max _) as [[best c]|]; reflexivity.
Qed.


Lemma in_split_first (x : nat) (l : list nat) :
  In x l -> exists pre post, l = (pre ++ x :: post)%list /\ ~ In x pre.
Proof.
  induction l as [|y l IH]; [intros []|].
  destruct (Nat.eq_dec y x) as [->|Hne].
  - intros _. exists [], l. split; [reflexivity | intros []].
  - intros [Hy | Hin]; [congruence|].
    destruct (IH Hin) as (pre & post & -> & Hpre).
    exists (y :: pre), post. split; [reflexivity|].
    intros [Hy | Hx]; [congruence | contradiction].
Qed.

Lemma votes_for_pos (l : nat) (votes : list nat) :
  In l votes <-> 0 < votes_for l votes.
Proof. unfold votes_for. apply count_occ_In. Qed.

Lemma tally_get_voted (votes : list nat) (l : nat) :
  In l votes -> get l (tally votes []) = Some (votes_for l votes).
Proof.
  intros Hin. rewrite tally_get. apply votes_for_pos in Hin.
  destruct (votes_for l votes); [lia | reflexivity].
Qed.

Lemma tally_get_unvoted (votes : list nat) (l : nat) :
  ~ In l votes -> get l (tally votes []) = None.
Proof.
  intros Hin. rewrite tally_get. rewrite votes_for_pos in Hin.
  destruct (votes_for l votes); [reflexivity | lia].
Qed.

(** The choice made by [max] on the tally of a non-empty list of votes. *)
Lemma best_of_votes (votes : list nat) :
  votes <> [] ->
  exists best c,
    py_max (tally votes []) = Some (best, c) /\
    In best votes /\
    (forall l, votes_for l votes <= votes_for best votes) /\
    exists pre post,
      votes = (pre ++ best :: post)%list /\ ~ In best pre /\
      forall l, In l pre -> votes_for l votes < votes_for best votes.
Proof.
  intros Hne.
  assert (Hnd : NoDup (keys (tally votes []))) by (apply tally_NoDup; constructor).
  destruct (tally votes []) as [|hd tl] eqn:Ht.
  { destruct votes as [|b votes]; [congruence|].
    pose proof (tally_get_voted (b :: votes) b (or_introl eq_refl)) as Hg.
    rewrite Ht in Hg. discriminate. }
  simpl. destruct (max_from_spec tl hd) as (Hmax & P & Q & He & HP).
  destruct (max_from hd tl) as [best c] eqn:Hm. simpl in *.
  exists best, c. split; [reflexivity|].
  assert (Hin : In (best, c) (hd :: tl)).
  { rewrite He. apply in_or_app. right. now left. }
  assert (Hg : get best (tally votes []) = Some c).
  { rewrite Ht. apply In_get_Some; assumption. }
  assert (Hbest : In best votes).
  { destruct (in_dec Nat.eq_dec best votes) as [Hi | Hi]; [exact Hi|].
    rewrite (tally_get_unvoted _ _ Hi) in Hg. discriminate. }
  assert (Hc : c = votes_for best votes).
  { rewrite (tally_get_voted _ _ Hbest) in Hg. congruence. }
  assert (Hcount : forall l n, In (l, n) (hd :: tl) -> n = votes_for l votes).
  { intros l n Hl. apply (In_get_Some l n (hd :: tl) Hnd) in Hl.
    rewrite <- Ht in Hl.
    destruct (in_dec Nat.eq_dec l votes) as [Hi | Hi].
    - rewrite (tally_get_voted _ _ Hi) in Hl. congruence.
    - rewrite (tally_get_unvoted _ _ Hi) in Hl. discriminate. }
  split; [exact Hbest|]. subst c. split.
  - intros l. destruct (in_dec Nat.eq_dec l votes) as [Hi | Hi].
    + pose proof (tally_get_voted _ _ Hi) as Hl. rewrite Ht in Hl.
      apply get_Some_In in Hl. apply Hmax in Hl. exact Hl.
    + rewrite votes_for_pos in Hi. lia.
  - destruct (in_split_first best votes Hbest) as (pre & post & Hv & Hpre).
    exists pre, post. split; [exact Hv|]. split; [exact Hpre|].
    intros l Hl.
    (* the keys of the tally of [pre] come first in the tally of [votes] *)
    destruct (tally_extends (best :: post) (tally pre [])) as [ext Hext].
    rewrite <- tally_app, <- Hv, Ht in Hext.
    assert (HlK : In l (keys (tally pre []))).
    { apply mem_true_iff. unfold mem.
      now rewrite (tally_get_voted _ _ Hl). }
    assert (HbK : ~ In best (keys (tally pre []))).
    { apply get_None_iff. now apply tally_get_unvoted. }
    assert (HlP : In l (keys P)).
    { unfold keys in Hext at 1. rewrite He, map_app in Hext. simpl in Hext.
      apply app_eq_app in Hext. destruct Hext as [l0 [[H1 H2] | [H1 H2]]].
      - unfold keys. rewrite H1. apply in_or_app. now left.
      - destruct l0 as [|x l0].
        + rewrite app_nil_r in H1. unfold keys. now rewrite <- H1.
        + simpl in H2. injection H2 as Hx _. subst x.
          exfalso. apply HbK. rewrite H1. apply in_or_app. right. now left. }
    unfold keys in HlP. apply in_map_iff in HlP.
    destruct HlP as ([l' n] & Hfst & HinP). simpl in Hfst. subst l'.
    specialize (HP _ HinP). simpl in HP.
    rewrite (Hcount l n) in HP; [exact HP|].
    rewrite He. apply in_or_app. now left.
Qed.

(** C2. A folder of the inventory whose files match no entry of the
    evidence index gets no location.  A folder with at least one vote gets
    a location with the highest vote count; when several locations share
    that count, the one chosen is the one whose first vote comes first in
    the folder's file order: every location voted for before the first
    vote of the chosen one has strictly fewer votes. *)
Theorem C2_most_votes_first_seen_wins :
  forall (enriched_data : list Enriched.Location) (spots_dir : listing)
         (spot_folder : string),
    let image_to_location := build_image_to_location enriched_data in
    let spot_to_location :=
      fst (build_spot_to_location_mapping enriched_data spots_dir) in
    match get spot_folder (scan_images spots_dir) with
    | None => get spot_folder spot_to_location = None
    | Some image_files =>
        let votes := ballots image_to_location spot_folder image_files in
        (votes = [] -> get spot_folder spot_to_location = None) /\
        (votes <> [] ->
         exists best,
           get spot_folder spot_to_location = Some best /\
           In best votes /\
           (forall l, votes_for l votes <= votes_for best votes) /\
           exists pre post,
             votes = (pre ++ best :: post)%list /\ ~ In best pre /\
             forall l, In l pre -> votes_for l votes < votes_for best votes)
    end.
Proof.
  intros enriched_data spots_dir spot_folder. cbv zeta.
  rewrite mapping_per_folder.
  destruct (get spot_folder (scan_images spots_dir)) as [files|];
    [|reflexivity].
  set (votes := ballots (build_image_to_location enriched_data)
                        spot_folder files).
  split.
  - intros Hv. now rewrite Hv.
  - intros Hv. destruct (best_of_votes votes Hv) as (best & c & Hm & Hrest).
    exists best. rewrite Hm. split; [reflexivity | exact Hrest].
Qed.

(** C2, counter-example: the files [a.jpg], [b.jpg] of [spot_0] vote for
    location 1 and location 0, one vote each; the folder gets location 1,
    the first voted for, not the lower index 0. *)
Lemma C2_tie_not_broken_by_lower_index :
  let with_image := fun path : string =>
    {| Enriched.latitude := None; Enriched.longitude := None;
       Enriched.description := None;
       Enriched.google_maps_data :=
         {| Enriched.place_name := None; Enriched.address := None;
            Enriched.category := None; Enriched.rating := None;
            Enriched.images := [path] |} |} in
  let enriched_data :=
    [with_image "images/spot_0/b.jpg"; with_image "images/spot_0/a.jpg"] in
  let spots_dir : listing := [("spot_0", ["a.jpg"; "b.jpg"])] in
  let votes := ballots (build_image_to_location enriched_data)
                       "spot_0" ["a.jpg"; "b.jpg"] in
  votes = [1; 0] /\
  votes_for 0 votes = votes_for 1 votes /\
  get "spot_0" (fst (build_spot_to_location_mapping enriched_data spots_dir))
    = Some 1.
Proof. repeat split; reflexivity. Qed.

End VotingFacts.

(** ** Location-to-folder mapping with fallback (version 1) *)

Section MappingV1Facts.
Import PyStr PyDict Inventory MappingV1.

Lemma set_new {K V : Type} `{PyKey K} (k : K) (v : V) (d : dict K V) :
  mem k d = false -> set k v d = (d ++ [(k, v)])%list.
Proof.
  unfold mem. induction d as [|[k' v'] d IH]; simpl; [reflexivity|].
  destruct (key_eqb k k'); [discriminate|].
  intros Hm. now rewrite IH.
Qed.


Lemma build_location_to_spot_mapping_NoDup
  (enriched_data : list Enriched.Location) :
  NoDup (keys (fst (build_location_to_spot_mapping enriched_data))).
Proof.
  unfold build_location_to_spot_mapping.
  assert (Hgen : forall es st,
            NoDup (keys (fst st)) ->
            NoDup (keys (fst (fold_left map_location es st)))).
  { induction es as [|[i location] es IH]; intros [l2s s2l] Hnd; simpl;
      [exact Hnd|].
    apply IH. simpl in Hnd.
    destruct (image_folders _); [exact Hnd|].
    destruct (py_max _) as [[spot c]|]; [|exact Hnd].
    simpl. now apply NoDup_keys_set. }
  apply Hgen. constructor.
Qed.


Lemma in_locations_spec (i : Z) (mapped_locations : list Z) :
  in_locations i mapped_locations = true <-> In i mapped_locations.
Proof.
  unfold in_locations. rewrite existsb_exists. split.
  - intros (x & Hx & He). apply Z.eqb_eq in He. now subst.
  - intros Hi. exists i. split; [exact Hi | apply Z.eqb_refl].
Qed.





(** *** The positional fallback, folder by folder *)

Lemma images_condition (spot_folder : string) (location : Enriched.Location) :
  match location_spots location with [] => true | _ => false end
  || in_spots spot_folder (location_spots location) = true <->
  declared_paths location = [] \/ references spot_folder location.
Proof.
  unfold location_spots, references. fold (declared_paths location).
  rewrite orb_true_iff. unfold in_spots. rewrite existsb_exists. split.
  - intros [He | (o & Ho & Hs)].
    + left. destruct (declared_paths location); [reflexivity | discriminate].
    + right. apply in_map_iff in Ho. destruct Ho as (path & <- & Hp).
      exists path. split; [exact Hp|].
      destruct (PathNormalizer.get_spot_folder_from_path path) as [g|];
        [|discriminate].
      apply String.eqb_eq in Hs. now subst.
  - intros [-> | (path & Hp & Hs)]; [now left|]. right.
    exists (Some spot_folder). split.
    + rewrite <- Hs. now apply in_map.
    + apply String.eqb_refl.
Qed.

Lemma fallback_app (enriched_data : list Enriched.Location)
  (pre post : list string) :
  forall st,
    fallback enriched_data (pre ++ post) st =
    match fallback enriched_data pre st with
    | Ok st1 => fallback enriched_data post st1
    | IndexError => IndexError
    end.
Proof.
  induction pre as [|f pre IH]; intros [m mapped]; simpl; [reflexivity|].
  destruct (mem f m); [apply IH|].
  destruct (int (remove "spot_" f)) as [idx|]; [|apply IH].
  destruct (_ && _); [|apply IH].
  destruct (py_index enriched_data idx); [|reflexivity].
  destruct (_ || _); apply IH.
Qed.

Lemma fallback_keeps (enriched_data : list Enriched.Location)
  (folders : list string) (g : string) :
  forall m mapped m' mapped',
    ~ In g folders \/ get g m <> None ->
    fallback enriched_data folders (m, mapped) = Ok (m', mapped') ->
    get g m' = get g m.
Proof.
  induction folders as [|f folders IH]; intros m mapped m' mapped' Hg; simpl.
  - intros Hr; now inversion Hr.
  - assert (Hg' : ~ In g folders \/ get g m <> None).
    { destruct Hg as [Hg | Hg]; [left | now right].
      intros Hin. apply Hg. now right. }
    destruct (mem f m) eqn:Hm; [now apply IH|].
    destruct (int (remove "spot_" f)) as [idx|]; [|now apply IH].
    destruct (_ && _); [|now apply IH].
    destruct (py_index enriched_data idx); [|discriminate].
    destruct (_ || _); [|now apply IH].
    assert (Hne : g <> f).
    { intros ->. destruct Hg as [Hg | Hg]; [apply Hg; now left|].
      unfold mem in Hm. destruct (get f m); [discriminate | congruence]. }
    intros Hr.
    assert (Hg2 : ~ In g folders \/ get g (set f idx m) <> None).
    { rewrite get_set_other by exact Hne. exact Hg'. }
    rewrite (IH _ _ _ _ Hg2 Hr). now apply get_set_other.
Qed.

Lemma py_index_nonneg {A : Type} (l : list A) (i : Z) (a : A) :
  (0 <= i)%Z ->
  py_index l i = Ok a <-> nth_error l (Z.to_nat i) = Some a.
Proof.
  intros Hi. unfold py_index.
  destruct (Z.ltb_spec i 0); [lia|].
  destruct (Z.leb_spec 0 i); [|lia]. simpl.
  destruct (Z.ltb_spec i (Z.of_nat (List.length l))).
  - destruct (nth_error l (Z.to_nat i)); split; congruence.
  - split; [discriminate|]. intros Hn.
    assert (Hs : nth_error l (Z.to_nat i) <> None) by congruence.
    apply nth_error_Some in Hs. lia.
Qed.

(** For a folder [f] that the first pass left unmapped and whose name
    carries the number [i >= 0]: the fallback maps [f] to [i] exactly when
    record [i] exists, [i] has not been claimed in the first pass or by a
    folder handled earlier, and the declared image paths of the record
    are empty or one of them lies in [f]; otherwise [f] stays unmapped.  A
    folder without a number stays unmapped. *)
Lemma fallback_spec (enriched_data : list Enriched.Location)
  (pre post : list string) (f : string)
  (m0 : dict string Z) (mapped0 : list Z)
  (m' : dict string Z) (mapped' : list Z) :
  ~ In f pre -> ~ In f post -> get f m0 = None ->
  fallback enriched_data (pre ++ f :: post) (m0, mapped0) = Ok (m', mapped') ->
  exists m1 mapped1,
    fallback enriched_data pre (m0, mapped0) = Ok (m1, mapped1) /\
    (int (remove "spot_" f) = None -> get f m' = None) /\
    (forall i, int (remove "spot_" f) = Some i -> (0 <= i)%Z ->
       (get f m' = Some i <->
        exists location,
          nth_error enriched_data (Z.to_nat i) = Some location /\
          ~ In i mapped1 /\
          (declared_paths location = [] \/ references f location)) /\
       (get f m' = None \/ get f m' = Some i)).
Proof.
  intros Hpre Hpost Hm0. rewrite fallback_app.
  destruct (fallback enriched_data pre (m0, mapped0)) as [[m1 mapped1]|] eqn:H1;
    [|discriminate].
  intros Hrun. exists m1, mapped1. split; [reflexivity|].
  assert (Hm1 : get f m1 = None).
  { rewrite (fallback_keeps _ _ f _ _ _ _ (or_introl Hpre) H1). exact Hm0. }
  simpl in Hrun. unfold mem in Hrun at 1. rewrite Hm1 in Hrun.
  destruct (int (remove "spot_" f)) as [idx|].
  2:{ split; [|intros i Hi; discriminate].
      intros _. rewrite (fallback_keeps _ _ f _ _ _ _ (or_introl Hpost) Hrun).
      exact Hm1. }
  split; [discriminate|]. intros i Hi Hnn. inversion Hi; subst i.
  destruct (Z.ltb_spec idx (Z.of_nat (List.length enriched_data))) as [Hlt|Hge];
    simpl in Hrun.
  - destruct (in_locations idx mapped1) eqn:Hc; simpl in Hrun.
    + rewrite (fallback_keeps _ _ f _ _ _ _ (or_introl Hpost) Hrun), Hm1.
      split; [|now left]. split; [discriminate|].
      intros (location & _ & Hn & _). exfalso. apply Hn.
      now apply in_locations_spec.
    + assert (Hfree : ~ In idx mapped1).
      { intros Hin. apply in_locations_spec in Hin. congruence. }
      destruct (py_index enriched_data idx) as [location|] eqn:Hp;
        [|discriminate].
      apply (py_index_nonneg _ _ _ Hnn) in Hp.
      pose proof (images_condition f location) as Himg.
      destruct (_ || _).
      * rewrite (fallback_keeps _ _ f _ _ _ _ (or_introl Hpost) Hrun).
        rewrite get_set_same. split; [|now right].
        split; [intros _|reflexivity].
        exists location. repeat split; auto. now apply Himg.
      * rewrite (fallback_keeps _ _ f _ _ _ _ (or_introl Hpost) Hrun), Hm1.
        split; [|now left]. split; [discriminate|].
        intros (location' & Hn' & _ & Hi'). rewrite Hp in Hn'.
        inversion Hn'; subst location'. apply Himg in Hi'. discriminate.
  - rewrite (fallback_keeps _ _ f _ _ _ _ (or_introl Hpost) Hrun), Hm1.
    split; [|now left]. split; [discriminate|].
    intros (location & Hn & _).
    assert (Hs : nth_error enriched_data (Z.to_nat idx) <> None) by congruence.
    apply nth_error_Some in Hs. lia.
Qed.

(** C5, the failing inputs.  With one enrichment record and the single
    folder [spot_-2] the fallback reads [enriched_data[-2]] and the run
    ends in [IndexError]; with the folder [spot_-1] the folder is mapped
    to the index -1, which is the index of no record. *)
Theorem C5_fallback_negative_folder_number :
  let location :=
    {| Enriched.latitude := None; Enriched.longitude := None;
       Enriched.description := None;
       Enriched.google_maps_data :=
         {| Enriched.place_name := None; Enriched.address := None;
            Enriched.category := None; Enriched.rating := None;
            Enriched.images := [] |} |} in
  fix_spots_json_mapping [location] [("spot_-2", ["a.jpg"])] = IndexError /\
  fix_spots_json_mapping [location] [("spot_-1", ["a.jpg"])]
    = Ok [("spot_-1", (-1)%Z)].
Proof. split; reflexivity. Qed.

End MappingV1Facts.

(** ** Distances *)

Section DistanceFacts.
Import PyStr Corrector.
Local Open Scope R_scope.

Lemma calculate_distance_sym (lat1 lon1 lat2 lon2 : R) :
  calculate_distance lat1 lon1 lat2 lon2 =
  calculate_distance lat2 lon2 lat1 lon1.
Proof.
  unfold calculate_distance.
  replace (radians (lat1 - lat2) / 2) with (- (radians (lat2 - lat1) / 2))
    by (unfold radians; field).
  replace (radians (lon1 - lon2) / 2) with (- (radians (lon2 - lon1) / 2))
    by (unfold radians; field).
  rewrite !sin_neg.
  set (s := sin (radians (lat2 - lat1) / 2)).
  set (t := sin (radians (lon2 - lon1) / 2)).
  set (c1 := cos (radians lat1)). set (c2 := cos (radians lat2)).
  replace ((- s) ^ 2 + c2 * c1 * (- t) ^ 2) with (s ^ 2 + c1 * c2 * t ^ 2)
    by ring.
  reflexivity.
Qed.

(** X1. [calculate_distance] gives the same distance whichever of the two
    points comes first, and the distance from a point to itself is 0. *)
Theorem X1_distance_symmetric_zero_on_itself (lat1 lon1 lat2 lon2 : R) :
  calculate_distance lat1 lon1 lat2 lon2 =
    calculate_distance lat2 lon2 lat1 lon1 /\
  calculate_distance lat1 lon1 lat1 lon1 = 0.
Proof.
  split; [apply calculate_distance_sym | apply calculate_distance_same].
Qed.

End DistanceFacts.

(** ** The correction loop as a whole *)

Section LoopFacts.
Import PyStr Corrector.

Lemma process_location_counts (scrape : scraper) (idx : nat)
  (location : Enriched.Location) (t : Tally) :
  let t' := snd (process_location scrape idx location t) in
  corrected_count t' + unchanged_count t' + error_count t' =
    S (corrected_count t + unchanged_count t + error_count t) /\
  corrected_count t' =
    corrected_count t + List.length (step_corrections scrape idx location).
Proof.
  unfold step_corrections, process_location.
  destruct (negb _); simpl; [lia|].
  destruct (scrape _ _ _) as [[nl ng]|]; simpl; [|lia].
  destruct (Rgt_dec _ _); simpl; lia.
Qed.

Lemma process_from_counts (scrape : scraper)
  (locations : list Enriched.Location) :
  forall k t,
    let t' := snd (process_from scrape k locations t) in
    corrected_count t' + unchanged_count t' + error_count t' =
      corrected_count t + unchanged_count t + error_count t
      + List.length locations /\
    corrected_count t' =
      corrected_count t + List.length (all_corrections scrape k locations).
Proof.
  induction locations as [|location rest IH]; intros k t; cbn [process_from].
  - simpl. lia.
  - pose proof (process_location_counts scrape k location t) as Hs.
    destruct (process_location scrape k location t) as [location' t'].
    specialize (IH (S k) t').
    destruct (process_from scrape (S k) rest t') as [rest' t''].
    cbn [fst snd all_corrections List.length] in *.
    rewrite length_app. lia.
Qed.

(** X3. After the loop the list has as many records as before, every
    record was counted in exactly one of the three counters, and the
    audit trail has one entry per counted correction. *)
Theorem X3_counters_partition (scrape : scraper)
  (enriched_data : list Enriched.Location) :
  let updated := fst (process_locations scrape enriched_data) in
  let t := snd (process_locations scrape enriched_data) in
  List.length updated = List.length enriched_data /\
  corrected_count t + unchanged_count t + error_count t =
    List.length enriched_data /\
  List.length (corrections t) = corrected_count t.
Proof.
  cbv zeta. unfold process_locations.
  destruct (process_from_spec scrape enriched_data 0 start) as (Hf & Hc & _).
  destruct (process_from_counts scrape enriched_data 0 start) as (Hp & Hn).
  rewrite Hf, Hc. cbn [start corrected_count unchanged_count error_count
                       corrections app] in *.
  split; [|split; lia].
  unfold enumerate_from. rewrite length_map, length_combine, length_seq. lia.
Qed.

(** What one turn does to the record. *)
Lemma step_cases (scrape : scraper) (idx : nat) (location : Enriched.Location) :
  (step_location scrape idx location = location /\
   step_corrections scrape idx location = []) \/
  (exists new_lat new_lng,
     looked_up location = true /\
     scrape idx
       (get_or (Enriched.place_name (Enriched.google_maps_data location)) "")
       (get_or (Enriched.address (Enriched.google_maps_data location)) "")
       = Some (new_lat, new_lng) /\
     let distance :=
       calculate_distance
         (Q2R (get_or (Enriched.latitude location) 0%Q))
         (Q2R (get_or (Enriched.longitude location) 0%Q))
         (Q2R new_lat) (Q2R new_lng) in
     (distance > DISTANCE_THRESHOLD_KM)%R /\
     step_location scrape idx location = set_coords location new_lat new_lng /\
     step_corrections scrape idx location =
       [{| index := idx;
           name := get_or (Enriched.place_name
                             (Enriched.google_maps_data location)) "";
           old_coords := (get_or (Enriched.latitude location) 0%Q,
                          get_or (Enriched.longitude location) 0%Q);
           new_coords := (new_lat, new_lng);
           distance_km := distance |}]).
Proof.
  unfold step_location, step_corrections, looked_up, process_location.
  destruct (nonempty _); cbn [negb]; [|left; split; reflexivity].
  destruct (scrape _ _ _) as [[nl ng]|]; [|left; split; reflexivity].
  cbv zeta. destruct (Rgt_dec _ _) as [Hgt|]; [|left; split; reflexivity].
  right. exists nl, ng. repeat split. exact Hgt.
Qed.

Lemma updated_nth (scrape : scraper) (enriched_data : list Enriched.Location)
  (idx : nat) (location : Enriched.Location) :
  nth_error enriched_data idx = Some location ->
  nth_error (fst (process_locations scrape enriched_data)) idx =
  Some (step_location scrape idx location).
Proof.
  intros Hn. unfold process_locations.
  destruct (process_from_spec scrape enriched_data 0 start) as (Hf & _).
  rewrite Hf, nth_error_map, (enumerate_from_nth _ 0 idx location Hn).
  reflexivity.
Qed.

(** X4. The loop leaves a record at its position and never touches its
    description or its [google_maps_data]; a record without a place name
    is left as it is. *)
Theorem X4_only_coordinates_change (scrape : scraper)
  (enriched_data : list Enriched.Location) (idx : nat)
  (location : Enriched.Location) :
  nth_error enriched_data idx = Some location ->
  exists location',
    nth_error (fst (process_locations scrape enriched_data)) idx
      = Some location' /\
    Enriched.description location' = Enriched.description location /\
    Enriched.google_maps_data location' =
      Enriched.google_maps_data location /\
    (looked_up location = false -> location' = location).
Proof.
  intros Hn. exists (step_location scrape idx location).
  split; [now apply updated_nth|].
  destruct (step_cases scrape idx location)
    as [[-> _] | (nl & ng & Hl & _ & _ & -> & _)].
  - repeat split.
  - repeat split. intros Hf. congruence.
Qed.

Lemma X4_only_coordinates_change_witness :
  let location := record_with_images ["images/spot_0/a.jpg"] in
  let scrape : scraper := fun _ _ _ => Some (0%Q, 180%Q) in
  nth_error [location] 0 = Some location /\
  exists location',
    nth_error (fst (process_locations scrape [location])) 0
      = Some location' /\
    Enriched.google_maps_data location' =
      Enriched.google_maps_data location.
Proof.
  intros location scrape. split; [reflexivity|].
  destruct (X4_only_coordinates_change scrape [location] 0 location eq_refl)
    as (location' & Hn & _ & Hg & _).
  exists location'. split; [exact Hn | exact Hg].
Defined.


Lemma steps_cons (scrape : scraper) (k : nat) (location : Enriched.Location)
  (rest : list Enriched.Location) :
  map (fun e => step_location scrape (fst e) (snd e))
      (enumerate_from k (location :: rest)) =
  step_location scrape k location ::
  map (fun e => step_location scrape (fst e) (snd e))
      (enumerate_from (S k) rest).
Proof. reflexivity. Qed.

(** X5. The audit trail of a run that completes, with any function in
    the place of [calculate_distance], is sound: its entries are in
    strictly increasing order of index, and each of them names a record of
    the input that has a place name, carries that record's old
    coordinates, the answer of the lookup, the distance the function
    gives for the two, which exceeds the threshold, and the record at
    that index now holds the new latitude and longitude, its other fields
    as before. *)
Theorem X5_audit_trail_sound (distance_of : distance_function)
  (scrape : scraper) (enriched_data updated : list Enriched.Location)
  (t : Tally) :
  process_locations_with distance_of scrape enriched_data
    = Some (updated, t) ->
  StronglySorted lt (map index (corrections t)) /\
  forall c, In c (corrections t) ->
    exists location,
      nth_error enriched_data (index c) = Some location /\
      name c = get_or (Enriched.place_name
                         (Enriched.google_maps_data location)) "" /\
      name c <> "" /\
      old_coords c = (get_or (Enriched.latitude location) 0%Q,
                      get_or (Enriched.longitude location) 0%Q) /\
      scrape (index c) (name c)
             (get_or (Enriched.address
                        (Enriched.google_maps_data location)) "")
        = Some (new_coords c) /\
      distance_of (fst (old_coords c)) (snd (old_coords c))
                  (fst (new_coords c)) (snd (new_coords c))
        = Some (distance_km c) /\
      (distance_km c > DISTANCE_THRESHOLD_KM)%R /\
      nth_error updated (index c) =
        Some {| Enriched.latitude := Some (fst (new_coords c));
                Enriched.longitude := Some (snd (new_coords c));
                Enriched.description := Enriched.description location;
                Enriched.google_maps_data :=
                  Enriched.google_maps_data location |}.
Proof.
  intros Hrun.
  destruct (process_from_with_spec distance_of scrape enriched_data 0 start
              updated t Hrun) as (_ & Hc & _ & _).
  cbn [start corrections app] in Hc. rewrite Hc.
  split; [apply all_corrections_with_sorted|].
  intros c Hin. apply In_all_corrections_with in Hin.
  destruct Hin as (i & location & Hn & Hin). cbn [Nat.add] in Hin.
  destruct (completed_run_at distance_of scrape enriched_data updated t i
              location Hrun Hn) as (location' & entries & Hs & Hu & _).
  unfold step_with_corrections in Hin. rewrite Hs in Hin.
  exists location.
  destruct (step_with_cases distance_of scrape i location)
    as [[_ Hst] | [(_ & _ & Hst) | [(nl & ng & _ & _ & _ & Hst)
        | [(nl & ng & d & _ & _ & _ & _ & Hst)
          | (nl & ng & d & Hl & Hsc & Hd & Hgt & Hst)]]]];
    rewrite Hst in Hs; inversion Hs; subst; try (destruct Hin).
  - subst c. cbn [index name old_coords new_coords distance_km fst snd].
    split; [exact Hn|]. split; [reflexivity|].
    split.
    { unfold looked_up, nonempty in Hl. apply negb_true_iff in Hl.
      now apply String.eqb_neq in Hl. }
    split; [reflexivity|]. split; [exact Hsc|]. split; [exact Hd|].
    split; [exact Hgt | exact Hu].
  - contradiction.
Qed.

Lemma X5_audit_trail_sound_witness :
  let location :=
    {| Enriched.latitude := Some 0%Q;
       Enriched.longitude := Some 0%Q;
       Enriched.description := None;
       Enriched.google_maps_data :=
         {| Enriched.place_name := Some "A";
            Enriched.address := None;
            Enriched.category := None;
            Enriched.rating := None;
            Enriched.images := [] |} |} in
  let scrape : scraper := fun _ _ _ => Some (3%Q, 101%Q) in
  let distance_of : distance_function := fun _ _ _ _ => Some 11234%R in
  exists updated t,
    process_locations_with distance_of scrape [location] = Some (updated, t) /\
    StronglySorted lt (map index (corrections t)).
Proof.
  intros location scrape distance_of.
  assert (Hrun : exists updated t,
            process_locations_with distance_of scrape [location]
              = Some (updated, t)).
  { unfold process_locations_with, process_from_with, process_location_with,
      distance_of, scrape. cbn.
    destruct (Rgt_dec 11234 DISTANCE_THRESHOLD_KM) as [_ | Hn].
    - eexists. eexists. reflexivity.
    - exfalso. apply Hn. unfold DISTANCE_THRESHOLD_KM. lra. }
  destruct Hrun as (updated & t & Hrun). exists updated, t.
  split; [exact Hrun|].
  exact (proj1 (X5_audit_trail_sound distance_of scrape [location] updated t
                  Hrun)).
Defined.

Lemma step_twice (scrape : scraper) (idx : nat) (location : Enriched.Location) :
  step_location scrape idx (step_location scrape idx location)
    = step_location scrape idx location /\
  step_corrections scrape idx (step_location scrape idx location) = [].
Proof.
  destruct (step_cases scrape idx location)
    as [[Hl Hc] | (nl & ng & Hl & Hs & _ & Hloc & _)].
  - rewrite Hl. split; assumption.
  - rewrite Hloc.
    destruct (step_found scrape idx (set_coords location nl ng) nl ng Hl Hs)
      as [_ Hnear].
    apply Hnear. cbn [set_coords Enriched.latitude Enriched.longitude get_or].
    rewrite calculate_distance_same. unfold DISTANCE_THRESHOLD_KM. lra.
Qed.

Lemma steps_twice (scrape : scraper) (locations : list Enriched.Location) :
  forall k,
    let once := map (fun e => step_location scrape (fst e) (snd e))
                    (enumerate_from k locations) in
    map (fun e => step_location scrape (fst e) (snd e))
        (enumerate_from k once) = once /\
    all_corrections scrape k once = [].
Proof.
  induction locations as [|location rest IH]; intros k.
  - split; reflexivity.
  - cbv zeta. rewrite steps_cons, steps_cons. cbn [all_corrections].
    destruct (IH (S k)) as [H1 H2]. cbv zeta in H1, H2.
    destruct (step_twice scrape k location) as [-> ->].
    rewrite H1, H2. split; reflexivity.
Qed.

(** X6. Running the loop again on its own output, with the same answers
    from the lookup, changes nothing and records no correction. *)
Theorem X6_second_run_changes_nothing (scrape : scraper)
  (enriched_data : list Enriched.Location) :
  let updated := fst (process_locations scrape enriched_data) in
  fst (process_locations scrape updated) = updated /\
  corrections (snd (process_locations scrape updated)) = [] /\
  corrected_count (snd (process_locations scrape updated)) = 0.
Proof.
  cbv zeta.
  destruct (process_from_spec scrape enriched_data 0 start) as (Hf & _).
  fold (process_locations scrape enriched_data) in Hf.
  set (updated := fst (process_locations scrape enriched_data)) in *.
  destruct (process_from_spec scrape updated 0 start) as (Hf2 & Hc2 & _).
  destruct (process_from_counts scrape updated 0 start) as (_ & Hn2).
  fold (process_locations scrape updated) in Hf2, Hc2, Hn2.
  destruct (steps_twice scrape enriched_data 0) as [H1 H2].
  cbv zeta in H1, H2. rewrite <- Hf in H1, H2.
  rewrite Hf2, Hc2, Hn2, H1, H2. repeat split.
Qed.

Lemma no_corrections_no_change (scrape : scraper)
  (locations : list Enriched.Location) :
  forall k,
    all_corrections scrape k locations = [] ->
    map (fun e => step_location scrape (fst e) (snd e))
        (enumerate_from k locations) = locations.
Proof.
  induction locations as [|location rest IH]; intros k; [reflexivity|].
  cbn [all_corrections]. intros Hnil. apply app_eq_nil in Hnil.
  destruct Hnil as [Hs Hr]. rewrite steps_cons, (IH (S k) Hr). f_equal.
  destruct (step_cases scrape k location)
    as [[-> _] | (nl & ng & _ & _ & _ & _ & He)]; [reflexivity|].
  rewrite He in Hs. discriminate.
Qed.

(** X7. When [corrected_count] is 0 after the loop, the data is what it
    was before: nothing is lost when the files are then not written. *)
Theorem X7_nothing_corrected_nothing_changed (scrape : scraper)
  (enriched_data : list Enriched.Location) :
  corrected_count (snd (process_locations scrape enriched_data)) = 0 ->
  fst (process_locations scrape enriched_data) = enriched_data.
Proof.
  destruct (process_from_spec scrape enriched_data 0 start) as (Hf & _).
  destruct (process_from_counts scrape enriched_data 0 start) as (_ & Hn).
  fold (process_locations scrape enriched_data) in Hf, Hn.
  rewrite Hf, Hn. simpl. intros Hz.
  apply no_corrections_no_change. now apply length_zero_iff_nil.
Qed.

Lemma X7_nothing_corrected_nothing_changed_witness :
  let location := record_with_images ["images/spot_0/a.jpg"] in
  let scrape : scraper := fun _ _ _ => None in
  corrected_count (snd (process_locations scrape [location])) = 0 /\
  fst (process_locations scrape [location]) = [location].
Proof.
  intros location scrape. split; [reflexivity|].
  apply (X7_nothing_corrected_nothing_changed scrape [location]).
  reflexivity.
Defined.

End LoopFacts.

(** ** Case of the text, shape of a spot folder *)

Section CaseFacts.
Import PyStr PyDict PathNormalizer.
Import Geofence.

Lemma lower_ascii_twice (c : ascii) : lower_ascii (lower_ascii c) = lower_ascii c.
Proof. destruct c as [[] [] [] [] [] [] [] []]; reflexivity. Qed.

Lemma lower_twice (s : string) : lower (lower s) = lower s.
Proof.
  induction s as [|c s IH]; simpl; [reflexivity|].
  now rewrite lower_ascii_twice, IH.
Qed.

Lemma lower_app (a b : string) : lower (a ++ b) = lower a ++ lower b.
Proof. induction a as [|c a IH]; simpl; [reflexivity | now rewrite IH]. Qed.

(** X8. The geofence does not depend on the case of the letters of the
    name, the description and the address. *)
Theorem X8_geofence_ignores_case :
  forall lat lng name name' description description' address address',
    lower name = lower name' ->
    lower description = lower description' ->
    lower address = lower address' ->
    is_malaysia_location lat lng name description address =
    is_malaysia_location lat lng name' description' address'.
Proof.
  intros lat lng n n' d d' a a' Hn Hd Ha.
  unfold is_malaysia_location, is_region_location.
  rewrite !lower_app, Hn, Hd, Ha. reflexivity.
Qed.

Lemma X8_geofence_ignores_case_witness :
  is_malaysia_location (31 # 10) (1016 # 10) "SINGAPORE Zoo" "" "Mandai" =
  is_malaysia_location (31 # 10) (1016 # 10) "Singapore zoo" "" "MANDAI".
Proof. apply X8_geofence_ignores_case; reflexivity. Defined.

End CaseFacts.

Section FolderFacts.
Import PyStr PyDict PathNormalizer.

Lemma has_char_app (c : ascii) (a b : string) :
  has_char c (a ++ b) = has_char c a || has_char c b.
Proof.
  induction a as [|x a IH]; simpl; [reflexivity|].
  now rewrite IH, orb_assoc.
Qed.

Lemma has_char_substring (c : ascii) (x s : string) :
  Substring x s -> has_char c s = false -> has_char c x = false.
Proof.
  intros (pre & post & ->). rewrite !has_char_app.
  intros H. apply orb_false_iff in H. destruct H as [_ H].
  apply orb_false_iff in H. tauto.
Qed.

Lemma has_char_replaced (a b : ascii) (s : string) :
  a <> b -> has_char a (replace_char a b s) = false.
Proof.
  intros Hne. induction s as [|c s IH]; simpl; [reflexivity|].
  rewrite IH, orb_false_r.
  destruct (Ascii.eqb_spec c a) as [->|Hc].
  - now apply Ascii.eqb_neq.
  - apply Ascii.eqb_neq. congruence.
Qed.

Lemma split_parts_no_sep (sep : ascii) (s x : string) :
  In x (split sep s) -> has_char sep x = false.
Proof.
  revert x. induction s as [|c s IH]; intros x; simpl.
  - intros [<- | []]. reflexivity.
  - destruct (Ascii.eqb_spec c sep) as [->|Hne].
    + intros [<- | Hx]; [reflexivity | now apply IH].
    + destruct (split sep s) as [|h t] eqn:Hs.
      * intros [<- | []]. simpl. rewrite orb_false_r.
        apply Ascii.eqb_neq. congruence.
      * intros [<- | Hx].
        -- simpl. rewrite (IH h (or_introl eq_refl)), orb_false_r.
           apply Ascii.eqb_neq. congruence.
        -- apply IH. now right.
Qed.

Lemma strip_prefix_substring (ps : list string) (s : string) :
  Substring (strip_prefix ps s) s.
Proof.
  induction ps as [|p ps IH]; simpl.
  - exists "", "". simpl. induction s; simpl; congruence.
  - destruct (startswith p s) eqn:Hp; [|exact IH].
    exists p, "". apply prefix_drop in Hp.
    rewrite Hp at 1. f_equal. clear. induction (drop _ _); simpl; congruence.
Qed.

(** X9. A folder returned by [get_spot_folder_from_path] starts with
    [spot_] and holds no separator: it is one segment of the path. *)
Theorem X9_spot_folder_shape (path_str folder : string) :
  get_spot_folder_from_path path_str = Some folder ->
  startswith "spot_" folder = true /\
  folder <> "" /\
  has_char "/"%char folder = false /\
  has_char "\"%char folder = false.
Proof.
  rewrite get_spot_folder_from_path_find. intros Hf.
  apply find_some in Hf. destruct Hf as [Hin Hsw].
  split; [exact Hsw|]. split.
  { intros ->. discriminate. }
  split; [now apply (split_parts_no_sep _ _ _ Hin)|].
  apply split_substring in Hin.
  apply (has_char_substring _ _ _ Hin).
  apply (has_char_substring _ _ _ (strip_prefix_substring _ _)).
  apply has_char_replaced. discriminate.
Qed.

Lemma X9_spot_folder_shape_witness :
  get_spot_folder_from_path "scraped_data\images\spot_3\a.jpg"
    = Some "spot_3" /\
  has_char "/"%char "spot_3" = false.
Proof.
  split; [reflexivity|].
  destruct (X9_spot_folder_shape "scraped_data\images\spot_3\a.jpg" "spot_3"
              eq_refl) as (_ & _ & H & _).
  exact H.
Defined.

End FolderFacts.

(** ** Image keys of well-formed paths *)

Section KeyFacts.
Import PyStr PyDict PathNormalizer MappingV2.

Lemma replace_char_app (a b : ascii) (s t : string) :
  replace_char a b (s ++ t) = replace_char a b s ++ replace_char a b t.
Proof. induction s as [|c s IH]; simpl; [reflexivity | now rewrite IH]. Qed.

Lemma replace_char_absent (a b : ascii) (s : string) :
  has_char a s = false -> replace_char a b s = s.
Proof.
  induction s as [|c s IH]; simpl; [reflexivity|].
  intros H. apply orb_false_iff in H. destruct H as [Hc Hs].
  rewrite Ascii.eqb_sym, Hc, (IH Hs). reflexivity.
Qed.

Lemma spot_folder_of_standard_path (folder rest : string) :
  startswith "spot_" folder = true ->
  has_char "/"%char folder = false ->
  find (startswith "spot_") (split "/"%char (folder ++ "/" ++ rest))
    = Some folder /\
  contains "spot_" (folder ++ "/" ++ rest) = true /\
  strip_prefix prefixes (folder ++ "/" ++ rest) = folder ++ "/" ++ rest.
Proof.
  intros Hsw Hns.
  change ("/" ++ rest) with (String "/"%char rest).
  rewrite split_app, (split_no_sep _ _ Hns). simpl find. rewrite Hsw.
  split; [reflexivity|].
  apply prefix_app in Hsw. destruct Hsw as [post ->].
  split; [|cbn; reflexivity].
  apply contains_spec. exists "", (post ++ String "/"%char rest).
  rewrite append_assoc. reflexivity.
Qed.

(** X10. For a path made of one of the three known prefixes, a folder
    [spot_...] and a file name, the folder and the file name are found
    again and the key of the evidence index is [folder/file]: a declared
    path and the scan of the folder on disk meet at the same key. *)
Theorem X10_image_key_of_standard_path (prefix folder file : string) :
  In prefix [""; "images/"; "scraped_data/images/"] ->
  startswith "spot_" folder = true ->
  has_char "/"%char folder = false ->
  has_char "\"%char folder = false ->
  has_char "/"%char file = false ->
  file <> "" -> file <> "." ->
  get_spot_folder_from_path (prefix ++ folder ++ "/" ++ file) = Some folder /\
  get_image_filename_from_path (prefix ++ folder ++ "/" ++ file) = file /\
  image_key (prefix ++ folder ++ "/" ++ file) = folder ++ "/" ++ file.
Proof.
  intros Hp Hsw Hns Hnb Hfs Hfe Hfd.
  assert (Hname : get_image_filename_from_path (prefix ++ folder ++ "/" ++ file)
                  = file).
  { unfold get_image_filename_from_path.
    rewrite <- append_assoc.
    now apply (path_name_last_segment (prefix ++ folder) file). }
  assert (Hfolder : get_spot_folder_from_path (prefix ++ folder ++ "/" ++ file)
                    = Some folder).
  { unfold get_spot_folder_from_path.
    rewrite !replace_char_app, (replace_char_absent _ _ folder Hnb).
    change (replace_char "\" "/" "/") with "/".
    set (rest := replace_char "\"%char "/"%char file).
    destruct (spot_folder_of_standard_path folder rest Hsw Hns)
      as (Hfind & Hcont & Hstrip).
    assert (Hs : strip_prefix prefixes
                   (replace_char "\"%char "/"%char prefix ++ folder ++ "/" ++ rest)
                 = folder ++ "/" ++ rest).
    { destruct Hp as [<- | [<- | [<- | []]]]; [exact Hstrip | |].
      - unfold prefixes, startswith. cbn [strip_prefix replace_char Ascii.eqb
          Bool.eqb].
        rewrite (proj2 (prefix_app "images/" _))
          by (eexists; reflexivity).
        reflexivity.
      - unfold prefixes, startswith.
        replace (replace_char "\"%char "/"%char "scraped_data/images/")
          with "scraped_data/images/" by reflexivity.
        cbn [strip_prefix].
        replace (prefix "images/"
                   ("scraped_data/images/" ++ folder ++ "/" ++ rest))
          with false by reflexivity.
        rewrite (proj2 (prefix_app "scraped_data/images/" _))
          by (eexists; reflexivity).
        reflexivity. }
    rewrite Hs, Hcont. exact Hfind. }
  split; [exact Hfolder|]. split; [exact Hname|].
  unfold image_key. now rewrite Hfolder, Hname.
Qed.

Lemma X10_image_key_of_standard_path_witness :
  image_key ("scraped_data/images/" ++ "spot_3" ++ "/" ++ "a.jpg")
    = "spot_3" ++ "/" ++ "a.jpg".
Proof.
  apply (X10_image_key_of_standard_path "scraped_data/images/" "spot_3"
                                        "a.jpg");
    try reflexivity; try discriminate.
  right. right. left. reflexivity.
Defined.



End KeyFacts.

(** ** Folder numbers *)

Section IntStr.
Import PyStr.

















End IntStr.

(** ** Image paths of transform_data.py, search queries *)

Section NormalizeFacts.
Import PyStr.
Import TransformData.

Lemma replace_first_at_start (old new s : string) :
  old <> "" -> String.prefix old s = true ->
  replace_first old new s = new ++ drop (String.length old) s.
Proof.
  intros Hold Hp. destruct s as [|c s].
  - destruct old; [congruence | discriminate].
  - cbn [replace_first]. now rewrite Hp.
Qed.

Lemma prefix_trans_literal (s : string) :
  String.prefix "images/spots/" s = true -> String.prefix "images/" s = true.
Proof.
  intros H. apply prefix_app in H. destruct H as [post ->].
  apply prefix_app. exists ("spots/" ++ post). reflexivity.
Qed.

Lemma no_backslash_prefix (s : string) :
  has_char "\"%char s = false -> String.prefix "images\" s = false.
Proof.
  intros H. destruct (String.prefix "images\" s) eqn:Hp; [|reflexivity].
  apply prefix_app in Hp. destruct Hp as [post ->].
  vm_compute in H. discriminate.
Qed.

(** Closed form. *)
Lemma normalize_image_path_closed (path : string) :
  let normalized := replace_char "\"%char "/"%char path in
  normalize_image_path path =
  "images/spots/" ++
  (if startswith "images/" normalized then drop 7 normalized else normalized).
Proof.
  cbv zeta. unfold normalize_image_path, startswith.
  set (n := replace_char "\"%char "/"%char path).
  assert (Hnb : has_char "\"%char n = false)
    by (apply has_char_replaced; discriminate).
  destruct (String.prefix "images/" n) eqn:H1.
  - rewrite replace_first_at_start by (try discriminate; assumption).
    reflexivity.
  - rewrite (no_backslash_prefix n Hnb).
    destruct (String.prefix "images/spots/" n) eqn:H3; [|reflexivity].
    apply prefix_trans_literal in H3. congruence.
Qed.

(** X12. [normalize_image_path] always returns a path under
    [images/spots/] without a backslash; it is not idempotent: applied to
    its own result it inserts a second [spots/]. *)
Theorem X12_normalize_image_path_shape (path : string) :
  exists rest,
    normalize_image_path path = "images/spots/" ++ rest /\
    has_char "\"%char (normalize_image_path path) = false /\
    normalize_image_path (normalize_image_path path)
      = "images/spots/spots/" ++ rest /\
    normalize_image_path (normalize_image_path path)
      <> normalize_image_path path.
Proof.
  pose proof (normalize_image_path_closed path) as Hc. cbv zeta in Hc.
  set (n := replace_char "\"%char "/"%char path) in *.
  assert (Hnb : has_char "\"%char n = false)
    by (apply has_char_replaced; discriminate).
  set (rest := if startswith "images/" n then drop 7 n else n) in *.
  assert (Hrest : has_char "\"%char rest = false).
  { unfold rest, startswith. destruct (String.prefix "images/" n) eqn:Hp;
      [|exact Hnb].
    apply prefix_drop in Hp. rewrite Hp, has_char_app in Hnb.
    apply orb_false_iff in Hnb. tauto. }
  exists rest. split; [exact Hc|].
  assert (Hout : has_char "\"%char (normalize_image_path path) = false).
  { rewrite Hc, has_char_app, Hrest. reflexivity. }
  split; [exact Hout|].
  assert (Htwice : normalize_image_path (normalize_image_path path)
                   = "images/spots/spots/" ++ rest).
  { rewrite (normalize_image_path_closed (normalize_image_path path)).
    cbv zeta. rewrite (replace_char_absent _ _ _ Hout), Hc.
    unfold startswith.
    rewrite (proj2 (prefix_app "images/" ("images/spots/" ++ rest)))
      by (exists ("spots/" ++ rest); reflexivity).
    reflexivity. }
  split; [exact Htwice|].
  rewrite Htwice, Hc. intros Heq.
  apply (f_equal String.length) in Heq. simpl in Heq. lia.
Qed.

End NormalizeFacts.

Section QueryFacts.
Import PyStr.
Import Corrector.




End QueryFacts.

(** ** Mapping and spots list of version 2 *)

Section V2Facts.
Import PyStr PyDict PathNormalizer Inventory MappingV2.

Lemma index_entry_declared (enriched_data : list Enriched.Location)
  (key : string) (loc_idx : nat) :
  get key (build_image_to_location enriched_data) = Some loc_idx ->
  exists path,
    In (path, loc_idx) (declared_images enriched_data) /\
    image_key path = key.
Proof.
  rewrite build_image_to_location_store, store_all_get.
  intros [(before & after & path & He & Hk & _) | [_ Hx]]; [|discriminate].
  exists path. split; [|exact Hk].
  rewrite He. apply in_or_app. right. now left.
Qed.

Lemma mapping_choice_voted (enriched_data : list Enriched.Location)
  (spots_dir : listing) (f : string) (i : nat) :
  get f (fst (build_spot_to_location_mapping enriched_data spots_dir))
    = Some i ->
  exists files,
    get f (scan_images spots_dir) = Some files /\
    In i (ballots (build_image_to_location enriched_data) f files).
Proof.
  rewrite mapping_per_folder.
  destruct (get f (scan_images spots_dir)) as [files|]; [|discriminate].
  intros Hm. exists files. split; [reflexivity|].
  destruct (ballots _ f files) as [|b bs]; [discriminate|].
  destruct (best_of_votes (b :: bs)) as (best & c & Hp & Hin & _);
    [discriminate|].
  rewrite Hp in Hm. simpl in Hm. inversion Hm; subst. exact Hin.
Qed.

Lemma mapping_choice_declared (enriched_data : list Enriched.Location)
  (spots_dir : listing) (spot_folder : string) (loc_idx : nat) :
  get spot_folder
      (fst (build_spot_to_location_mapping enriched_data spots_dir))
    = Some loc_idx ->
  exists image_files img_file location path,
    get spot_folder (scan_images spots_dir) = Some image_files /\
    In img_file image_files /\
    nth_error enriched_data loc_idx = Some location /\
    In path (Enriched.images (Enriched.google_maps_data location)) /\
    image_key path = spot_folder ++ "/" ++ img_file.
Proof.
  intros Hm. destruct (mapping_choice_voted _ _ _ _ Hm) as (files & Hf & Hin).
  unfold ballots in Hin. apply in_flat_map in Hin.
  destruct Hin as (img & Himg & Hb).
  destruct (get (spot_folder ++ "/" ++ img) _) as [j|] eqn:Hg; [|destruct Hb].
  destruct Hb as [-> | []].
  destruct (index_entry_declared _ _ _ Hg) as (path & Hd & Hk).
  apply In_declared_images in Hd. destruct Hd as (location & Hn & Hp & _).
  exists files, img, location, path. repeat split; assumption.
Qed.

(** X14. Version 2 maps a folder only on evidence: the location it
    chooses is a valid index of the enriched data, and that record
    declares an image whose key is an image file found in the folder. *)
Theorem X14_v2_mapping_sound (enriched_data : list Enriched.Location)
  (spots_dir : listing) (spot_folder : string) (loc_idx : nat) :
  get spot_folder
      (fst (build_spot_to_location_mapping enriched_data spots_dir))
    = Some loc_idx ->
  loc_idx < List.length enriched_data /\
  exists image_files img_file location path,
    get spot_folder (scan_images spots_dir) = Some image_files /\
    In img_file image_files /\
    nth_error enriched_data loc_idx = Some location /\
    In path (Enriched.images (Enriched.google_maps_data location)) /\
    image_key path = spot_folder ++ "/" ++ img_file.
Proof.
  intros Hm.
  destruct (mapping_choice_declared _ _ _ _ Hm)
    as (files & img & location & path & Hf & Hi & Hn & Hp & Hk).
  split.
  - apply nth_error_Some. congruence.
  - exists files, img, location, path. repeat split; assumption.
Qed.

Lemma X14_v2_mapping_sound_witness :
  let enriched_data :=
    [record_with_images []; record_with_images ["images/spot_0/a.jpg"]] in
  let spots_dir : listing := [("spot_0", ["a.jpg"; "b.jpg"])] in
  get "spot_0" (fst (build_spot_to_location_mapping enriched_data spots_dir))
    = Some 1 /\
  1 < List.length enriched_data.
Proof.
  intros enriched_data spots_dir. split; [reflexivity|].
  destruct (X14_v2_mapping_sound enriched_data spots_dir "spot_0" 1 eq_refl)
    as [Hlt _].
  exact Hlt.
Defined.


Lemma insert_sorted_ascending (x : string) (l : list string) :
  ascending l -> ascending (insert_sorted x l).
Proof.
  unfold ascending. induction l as [|y l IH]; intros Hs; simpl.
  - repeat constructor.
  - destruct (String.leb x y) eqn:Hxy.
    + constructor; [exact Hs | constructor; exact Hxy].
    + inversion Hs as [|? ? Hs' Hhd]; subst.
      constructor; [now apply IH|].
      assert (Hyx : String.leb y x = true).
      { destruct (String.leb_total x y); congruence. }
      destruct l as [|z l]; simpl.
      * constructor; exact Hyx.
      * destruct (String.leb x z); constructor; [exact Hyx|].
        now inversion Hhd.
Qed.

Lemma sorted_ascending (l : list string) : ascending (sorted l).
Proof.
  induction l as [|x l IH]; simpl; [constructor|].
  now apply insert_sorted_ascending.
Qed.

Lemma insert_sorted_Permutation (x : string) (l : list string) :
  Permutation (insert_sorted x l) (x :: l).
Proof.
  induction l as [|y l IH]; simpl; [reflexivity|].
  destruct (String.leb x y); [reflexivity|].
  rewrite IH. apply perm_swap.
Qed.

Lemma sorted_Permutation (l : list string) : Permutation (sorted l) l.
Proof.
  induction l as [|x l IH]; simpl; [reflexivity|].
  rewrite insert_sorted_Permutation. now constructor.
Qed.

Lemma fold_append_spot_prefix enriched_data spot_to_location existing_images
  (names : list string) :
  forall spots, exists rest,
    fold_left (append_spot enriched_data spot_to_location existing_images)
              names spots = (spots ++ rest)%list.
Proof.
  induction names as [|n names IH]; intros spots; simpl.
  - exists []. now rewrite app_nil_r.
  - destruct (append_spot_id enriched_data spot_to_location existing_images
                             spots n) as (spot & -> & _).
    destruct (IH (spots ++ [spot])%list) as [rest ->].
    exists (spot :: rest). now rewrite <- app_assoc.
Qed.

Lemma fold_append_spot_nth enriched_data spot_to_location existing_images
  (names : list string) :
  forall spots i folder,
    nth_error names i = Some folder ->
    exists before spot,
      append_spot enriched_data spot_to_location existing_images
                  before folder = (before ++ [spot])%list /\
      nth_error
        (fold_left (append_spot enriched_data spot_to_location existing_images)
                   names spots)
        (List.length spots + i) = Some spot.
Proof.
  induction names as [|n names IH]; intros spots [|i] folder Hn;
    simpl in Hn; try discriminate.
  - inversion Hn; subst n. simpl.
    destruct (append_spot_id enriched_data spot_to_location existing_images
                             spots folder) as (spot & He & _).
    exists spots, spot. split; [exact He|]. rewrite He.
    destruct (fold_append_spot_prefix enriched_data spot_to_location
                existing_images names (spots ++ [spot])%list) as [rest ->].
    rewrite <- app_assoc, Nat.add_0_r, nth_error_app2, Nat.sub_diag by lia.
    reflexivity.
  - simpl.
    destruct (append_spot_id enriched_data spot_to_location existing_images
                             spots n) as (spot0 & He & _).
    rewrite He.
    destruct (IH (spots ++ [spot0])%list i folder Hn) as (before & spot & Hb & Hnth).
    exists before, spot. split; [exact Hb|].
    rewrite length_app in Hnth. simpl in Hnth.
    replace (List.length spots + S i) with (List.length spots + 1 + i) by lia.
    exact Hnth.
Qed.

Lemma get_existing_images_NoDup (spots_dir : listing) :
  NoDup (keys (get_existing_images spots_dir)).
Proof.
  unfold get_existing_images.
  assert (Hgen : forall d : dict string (list string),
            NoDup (keys d) ->
            NoDup (keys (fold_left
                           (fun d '(spot_name, images) =>
                              match images with
                              | [] => d
                              | _ => set spot_name (sorted images) d
                              end) spots_dir d))).
  { induction spots_dir as [|[n imgs] dir IH]; intros d Hnd; simpl;
      [exact Hnd|].
    apply IH. destruct imgs; [exact Hnd | now apply NoDup_keys_set]. }
  apply Hgen. constructor.
Qed.

(** X15. The spots list of version 2, record by record: the record at
    position [i] belongs to the [i]-th folder in sorted order and lists
    that folder's files, prefixed and in ascending order.  When the folder
    is mapped, the coordinates and the name are those of the chosen
    record; when it is not, the coordinates are (0, 0), which the geofence
    rejects. *)
Theorem X15_v2_assembler_records (enriched_data : list Enriched.Location)
  (spots_dir : listing) (i : nat) (spot_folder : string) :
  nth_error (sorted (keys (get_existing_images spots_dir))) i
    = Some spot_folder ->
  exists spot image_files,
    nth_error (fix_spots_json enriched_data spots_dir) i = Some spot /\
    get spot_folder (get_existing_images spots_dir) = Some image_files /\
    Spot.images spot =
      sorted (map (fun img => "images/spots/" ++ spot_folder ++ "/" ++ img)
                  image_files) /\
    ascending (Spot.images spot) /\
    match get spot_folder
              (fst (build_spot_to_location_mapping enriched_data spots_dir))
    with
    | Some loc_idx =>
        exists location,
          nth_error enriched_data loc_idx = Some location /\
          Spot.lat spot = Some (get_or (Enriched.latitude location) 0%Q) /\
          Spot.lng spot = Some (get_or (Enriched.longitude location) 0%Q) /\
          Spot.name spot =
            Some (get_or (Enriched.place_name
                            (Enriched.google_maps_data location))
                         ("Spot " ++ str_of_Z (Z.of_nat loc_idx + 1)))
    | None =>
        Spot.lat spot = Some 0%Q /\ Spot.lng spot = Some 0%Q /\
        Geofence.keeps spot = false
    end.
Proof.
  intros Hn.
  assert (Hin : In spot_folder (keys (get_existing_images spots_dir))).
  { apply (Permutation_in _ (sorted_Permutation _)).
    now apply nth_error_In in Hn. }
  apply mem_true_iff in Hin. unfold mem in Hin.
  destruct (get spot_folder (get_existing_images spots_dir))
    as [files|] eqn:Hfiles; [|discriminate].
  unfold fix_spots_json. cbn [build_spot_to_location_mapping].
  set (m := choose_locations _).
  destruct (fold_append_spot_nth enriched_data m
              (get_existing_images spots_dir) _ [] i spot_folder Hn)
    as (before & spot & Hb & Hnth).
  simpl in Hnth. exists spot, files. split; [exact Hnth|].
  split; [reflexivity|].
  pose proof (mapping_choice_declared enriched_data spots_dir spot_folder)
    as Hsound.
  cbn [build_spot_to_location_mapping fst] in Hsound |- *. fold m in Hsound |- *.
  unfold append_spot in Hb. rewrite Hfiles in Hb. cbn [get_or] in Hb.
  destruct (get spot_folder m) as [loc_idx|].
  - destruct (Hsound loc_idx eq_refl)
      as (_ & _ & location & _ & _ & _ & Hloc & _).
    rewrite Hloc in Hb. cbn [option_map] in Hb.
    apply app_inv_head in Hb. inversion Hb; subst spot.
    cbn [Spot.images Spot.lat Spot.lng Spot.name].
    split; [reflexivity|]. split; [apply sorted_ascending|].
    exists location. repeat split. exact Hloc.
  - apply app_inv_head in Hb. inversion Hb; subst spot.
    cbn [Spot.images Spot.lat Spot.lng Spot.name].
    split; [reflexivity|]. split; [apply sorted_ascending|].
    repeat split.
Qed.

Lemma X15_v2_assembler_records_witness :
  let enriched_data := [record_with_images ["images/spot_0/a.jpg"]] in
  let spots_dir : listing := [("spot_1", ["c.jpg"]); ("spot_0", ["a.jpg"])] in
  nth_error (sorted (keys (get_existing_images spots_dir))) 1
    = Some "spot_1" /\
  exists spot,
    nth_error (fix_spots_json enriched_data spots_dir) 1 = Some spot /\
    ascending (Spot.images spot).
Proof.
  intros enriched_data spots_dir. split; [reflexivity|].
  destruct (X15_v2_assembler_records enriched_data spots_dir 1 "spot_1"
              eq_refl) as (spot & files & Hn & _ & _ & Ha & _).
  exists spot. split; [exact Hn | exact Ha].
Defined.

End V2Facts.

(** ** Positional spots list *)

Section UpdateFacts.
Import PyStr PyDict Inventory.
Import UpdateSpots.


Lemma build_spots_In spots_data existing_images (names : list string) :
  forall spots result,
    build_spots spots_data existing_images names spots = Ok result ->
    forall spot, In spot result ->
      In spot spots \/
      exists spot_name spot_idx,
        In spot_name names /\
        int (remove "spot_" spot_name) = Some spot_idx /\
        make_spot spots_data existing_images spot_name spot_idx = Ok spot.
Proof.
  induction names as [|n names IH]; intros spots result; simpl.
  - intros Hr; inversion Hr; subst. now left.
  - destruct (int (remove "spot_" n)) as [idx|] eqn:Hi.
    + destruct (make_spot spots_data existing_images n idx) as [s|] eqn:Hm;
        [|discriminate].
      intros Hr spot Hin. destruct (IH _ _ Hr spot Hin) as [Hold | Hnew].
      * apply in_app_or in Hold. destruct Hold as [Hold | [<- | []]].
        -- now left.
        -- right. exists n, idx. repeat split; auto.
      * right. destruct Hnew as (sn & si & Hn & Hrest).
        exists sn, si. split; [now right | exact Hrest].
    + intros Hr spot Hin. destruct (IH _ _ Hr spot Hin) as [Hold | Hnew].
      * now left.
      * right. destruct Hnew as (sn & si & Hn & Hrest).
        exists sn, si. split; [now right | exact Hrest].
Qed.

(** X16. [update_spots_json] pairs folders and records by position: every
    record it emits comes from a folder whose name carries a number
    [spot_idx], has the id [spot_idx + 1] and that folder's files, prefixed
    and sorted.  Below the length of the input the coordinates and the
    name are those of the record at [spot_idx] (counted from the end when
    [spot_idx] is negative); at or beyond it the record is the placeholder
    [Spot <spot_idx + 1>] at (0, 0), which the geofence rejects. *)
Theorem X16_update_spots_json_positional (spots_data : list Enriched.Location)
  (spots_dir : listing) (spots : list Spot.t) (spot : Spot.t) :
  update_spots_json spots_data spots_dir = Ok spots ->
  In spot spots ->
  exists spot_name spot_idx image_files,
    get spot_name (get_existing_images spots_dir) = Some image_files /\
    int (remove "spot_" spot_name) = Some spot_idx /\
    Spot.id spot = Some (spot_idx + 1)%Z /\
    Spot.images spot =
      sorted (map (fun img => "images/spots/" ++ spot_name ++ "/" ++ img)
                  image_files) /\
    ((spot_idx < Z.of_nat (List.length spots_data))%Z ->
     exists spot_data,
       py_index spots_data spot_idx = Ok spot_data /\
       Spot.lat spot = Some (get_or (Enriched.latitude spot_data) 0%Q) /\
       Spot.lng spot = Some (get_or (Enriched.longitude spot_data) 0%Q) /\
       Spot.name spot =
         Some (get_or (Enriched.place_name
                         (Enriched.google_maps_data spot_data))
                      ("Spot " ++ str_of_Z (spot_idx + 1)))) /\
    ((Z.of_nat (List.length spots_data) <= spot_idx)%Z ->
     Spot.name spot = Some ("Spot " ++ str_of_Z (spot_idx + 1)) /\
     Spot.lat spot = Some 0%Q /\ Spot.lng spot = Some 0%Q /\
     Geofence.keeps spot = false).
Proof.
  unfold update_spots_json. intros Hok Hin.
  destruct (build_spots_In _ _ _ _ _ Hok spot Hin)
    as [[] | (spot_name & spot_idx & Hname & Hint & Hmake)].
  assert (Hk : In spot_name (keys (get_existing_images spots_dir))).
  { apply (Permutation_in _ (sorted_Permutation _)). exact Hname. }
  apply mem_true_iff in Hk. unfold mem in Hk.
  destruct (get spot_name (get_existing_images spots_dir))
    as [files|] eqn:Hfiles; [|discriminate].
  exists spot_name, spot_idx, files.
  split; [exact Hfiles|]. split; [exact Hint|].
  unfold make_spot in Hmake. rewrite Hfiles in Hmake. cbn [get_or] in Hmake.
  destruct (Z.ltb_spec spot_idx (Z.of_nat (List.length spots_data))).
  - destruct (py_index spots_data spot_idx) as [spot_data|]; [|discriminate].
    inversion Hmake; subst spot. cbn.
    split; [reflexivity|]. split; [reflexivity|]. split; [|lia].
    intros _. exists spot_data. repeat split.
  - inversion Hmake; subst spot. cbn.
    split; [reflexivity|]. split; [reflexivity|]. split; [lia|].
    intros _. repeat split.
Qed.

Lemma X16_update_spots_json_positional_witness :
  let spots_data := [record_with_images []] in
  let spots_dir : listing := [("spot_4", ["a.jpg"])] in
  exists spots spot,
    update_spots_json spots_data spots_dir = Ok spots /\
    In spot spots /\
    exists spot_name spot_idx,
      int (remove "spot_" spot_name) = Some spot_idx /\
      Spot.id spot = Some (spot_idx + 1)%Z.
Proof.
  intros spots_data spots_dir. eexists. eexists.
  split; [reflexivity|]. split; [left; reflexivity|].
  destruct (X16_update_spots_json_positional spots_data spots_dir _ _
              eq_refl (or_introl eq_refl))
    as (spot_name & spot_idx & files & _ & Hint & Hid & _).
  exists spot_name, spot_idx. split; [exact Hint | exact Hid].
Defined.

End UpdateFacts.

(** ** Mapping and spots list of version 1 *)

Section V1More.
Import PyStr PyDict PathNormalizer Inventory MappingV1.

Lemma StronglySorted_snoc (l : list nat) (k : nat) :
  StronglySorted lt l -> (forall i, In i l -> i < k) ->
  StronglySorted lt (l ++ [k]).
Proof.
  induction l as [|x l IH]; intros Hs Hlt; simpl.
  - repeat constructor.
  - inversion Hs as [|? ? Hs' Hall]; subst. constructor.
    + apply IH; [exact Hs'|]. intros i Hi. apply Hlt. now right.
    + apply Forall_app. split; [exact Hall|].
      constructor; [|constructor]. apply Hlt. now left.
Qed.

Lemma map_location_consistent (k : nat) (location : Enriched.Location)
  (st : dict nat string * dict string (list nat)) :
  consistent k st -> consistent (S k) (map_location st (k, location)).
Proof.
  destruct st as [l2s s2l]. intros (Hlt & Hsorted & Hiff).
  assert (Hweak : forall i, In i (keys l2s) -> i < S k).
  { intros i Hi. specialize (Hlt i Hi). lia. }
  unfold map_location.
  destruct (image_folders _) as [|fd fds]; [repeat split; try assumption; apply Hiff|].
  destruct (py_max _) as [[f c]|]; [|repeat split; try assumption; apply Hiff].
  cbn [fst snd] in *.
  assert (Hfresh : mem k l2s = false).
  { destruct (mem k l2s) eqn:Hm; [|reflexivity].
    apply mem_true_iff in Hm. apply Hlt in Hm. lia. }
  unfold consistent. cbn [fst snd].
  split; [|split].
  - intros i Hi. rewrite keys_set, Hfresh in Hi.
    apply in_app_or in Hi. destruct Hi as [Hi | [<- | []]]; [now apply Hweak | lia].
  - rewrite keys_set, Hfresh. now apply StronglySorted_snoc.
  - intros i g. destruct (Nat.eq_dec i k) as [->|Hne].
    + rewrite get_set_same. split.
      * intros Hs; inversion Hs; subst g.
        eexists. rewrite get_set_same. split; [reflexivity|].
        apply in_or_app. right. now left.
      * intros (l1 & Hg & Hin).
        destruct (String.eqb_spec g f) as [->|Hgf]; [reflexivity|].
        rewrite get_set_other in Hg by exact Hgf.
        assert (Hk : get k l2s = Some g) by (apply Hiff; now exists l1).
        apply get_Some_In in Hk. apply (in_map fst) in Hk.
        apply Hlt in Hk. simpl in Hk. lia.
    + rewrite get_set_other by exact Hne. rewrite Hiff.
      destruct (String.eqb_spec g f) as [->|Hgf].
      * rewrite get_set_same. split.
        -- intros (l1 & Hg & Hin). eexists. split; [reflexivity|].
           rewrite Hg. simpl. apply in_or_app. now left.
        -- intros (l1 & Hg & Hin). inversion Hg; subst l1.
           apply in_app_or in Hin. destruct Hin as [Hin | [Hk | []]]; [|congruence].
           destruct (get f s2l) as [l0|]; [|destruct Hin].
           now exists l0.
      * rewrite get_set_other by exact Hgf. reflexivity.
Qed.

Lemma build_consistent (enriched_data : list Enriched.Location) :
  consistent (List.length enriched_data)
             (build_location_to_spot_mapping enriched_data).
Proof.
  unfold build_location_to_spot_mapping.
  change (enumerate enriched_data) with (enumerate_from 0 enriched_data).
  assert (Hgen : forall locs k st,
            consistent k st ->
            consistent (k + List.length locs)
                       (fold_left map_location (enumerate_from k locs) st)).
  { induction locs as [|location rest IH]; intros k st Hc.
    - simpl. now rewrite Nat.add_0_r.
    - change (enumerate_from k (location :: rest))
        with ((k, location) :: enumerate_from (S k) rest).
      cbn [fold_left List.length].
      replace (k + S (List.length rest)) with (S k + List.length rest) by lia.
      apply IH. now apply map_location_consistent. }
  apply (Hgen enriched_data 0 ([], [])).
  split; [intros i []|]. split; [constructor|].
  intros i f. simpl. split; [discriminate | intros (l & Hl & _); discriminate].
Qed.

(** X17. The two dictionaries returned by
    [build_location_to_spot_mapping] say the same thing: a location maps
    to a folder exactly when it is in the list of that folder.  The
    locations that are mapped are valid indices, in increasing order. *)
Theorem X17_location_dictionaries_agree (enriched_data : list Enriched.Location) :
  let location_to_spot := fst (build_location_to_spot_mapping enriched_data) in
  let spot_to_locations := snd (build_location_to_spot_mapping enriched_data) in
  (forall loc_idx spot_folder,
     get loc_idx location_to_spot = Some spot_folder <->
     exists l, get spot_folder spot_to_locations = Some l /\ In loc_idx l) /\
  (forall loc_idx, In loc_idx (keys location_to_spot) ->
                   loc_idx < List.length enriched_data) /\
  StronglySorted lt (keys location_to_spot).
Proof.
  destruct (build_consistent enriched_data) as (Hlt & Hs & Hiff).
  cbv zeta. repeat split; try assumption; apply Hiff.
Qed.


Lemma first_pass_get (existing_images : dict string (list string))
  (f : string) (items : dict nat string) :
  forall m0 : dict string Z,
    get f (fold_left
             (fun spot_to_location '(loc_idx, spot_folder) =>
                if mem spot_folder existing_images
                then if negb (mem spot_folder spot_to_location)
                     then set spot_folder (Z.of_nat loc_idx)
                              spot_to_location
                     else spot_to_location
                else spot_to_location)
             items m0) =
    match get f m0 with
    | Some v => Some v
    | None =>
        if mem f existing_images
        then option_map (fun e => Z.of_nat (fst e))
                        (find (fun e => String.eqb (snd e) f) items)
        else None
    end.
Proof.
  induction items as [|[i g] items IH]; intros m0; simpl.
  - destruct (get f m0); [reflexivity|]. now destruct (mem f existing_images).
  - rewrite IH. destruct (String.eqb_spec g f) as [->|Hne].
    + destruct (mem f existing_images) eqn:Hinv.
      * unfold mem at 1. destruct (get f m0) as [v|] eqn:Hg; simpl.
        -- now rewrite Hg.
        -- now rewrite get_set_same.
      * destruct (get f m0); reflexivity.
    + destruct (mem g existing_images); [|reflexivity].
      destruct (negb (mem g m0)); [|reflexivity].
      rewrite get_set_other by congruence. reflexivity.
Qed.

Lemma sorted_keys_first (items : dict nat string) (before after : dict nat string)
  (i j : nat) (f : string) :
  StronglySorted lt (keys items) ->
  items = (before ++ (i, f) :: after)%list ->
  (forall e, In e before -> String.eqb (snd e) f = false) ->
  In (j, f) items -> i <= j.
Proof.
  intros Hs -> Hb Hin. apply in_app_or in Hin.
  destruct Hin as [Hin | [Heq | Hin]].
  - specialize (Hb _ Hin). simpl in Hb. rewrite String.eqb_refl in Hb.
    discriminate.
  - inversion Heq. lia.
  - unfold keys in Hs. rewrite map_app in Hs. simpl in Hs.
    clear Hb. induction before as [|b before IH]; simpl in Hs.
    + inversion Hs as [|? ? _ Hall]; subst.
      rewrite Forall_forall in Hall.
      apply (in_map fst) in Hin. specialize (Hall _ Hin). simpl in Hall. lia.
    + inversion Hs; subst. now apply IH.
Qed.

(** X18. In version 1, when several locations map to a folder that
    exists on disk, the folder goes to the one with the lowest index, and
    the fallback does not take it away. *)
Theorem X18_first_location_keeps_folder (enriched_data : list Enriched.Location)
  (spots_dir : listing) (spot_to_location : dict string Z)
  (spot_folder : string) (loc_idx : nat) :
  let location_to_spot := fst (build_location_to_spot_mapping enriched_data) in
  fix_spots_json_mapping enriched_data spots_dir = Ok spot_to_location ->
  In spot_folder (keys (get_existing_images spots_dir)) ->
  get loc_idx location_to_spot = Some spot_folder ->
  (forall j, get j location_to_spot = Some spot_folder -> loc_idx <= j) ->
  get spot_folder spot_to_location = Some (Z.of_nat loc_idx).
Proof.
  intros location_to_spot Hok Hdisk Hl Hmin.
  destruct (build_consistent enriched_data) as (_ & Hs & _).
  pose proof (build_location_to_spot_mapping_NoDup enriched_data) as Hnd.
  unfold fix_spots_json_mapping in Hok. fold location_to_spot in Hs, Hnd.
  destruct (build_location_to_spot_mapping enriched_data) as [l2s s2l].
  cbn [fst] in location_to_spot. subst location_to_spot.
  destruct (fallback _ _ _) as [[m mapped]|] eqn:Hf; [|discriminate].
  inversion Hok; subst m. clear Hok.
  assert (Hfirst : get spot_folder (first_pass l2s (get_existing_images spots_dir))
                   = Some (Z.of_nat loc_idx)).
  { unfold first_pass. rewrite first_pass_get. simpl get.
    apply mem_true_iff in Hdisk. rewrite Hdisk.
    destruct (find _ l2s) as [[i g]|] eqn:Hfind.
    - apply find_first_spec in Hfind.
      destruct Hfind as (before & after & He & Hg & Hb).
      simpl in Hg. apply String.eqb_eq in Hg. subst g. simpl.
      do 2 f_equal.
      assert (Hi : get i l2s = Some spot_folder).
      { apply In_get_Some; [exact Hnd|]. rewrite He. apply in_or_app.
        right. now left. }
      apply Nat.le_antisymm.
      + apply (sorted_keys_first l2s before after i loc_idx spot_folder
                 Hs He Hb). now apply get_Some_In.
      + now apply Hmin.
    - exfalso. apply get_Some_In in Hl.
      apply (find_none _ _ Hfind) in Hl. simpl in Hl.
      rewrite String.eqb_refl in Hl. discriminate. }
  assert (Hsome : get spot_folder
                     (first_pass l2s (get_existing_images spots_dir)) <> None)
    by congruence.
  rewrite (fallback_keeps _ _ spot_folder _ _ _ _ (or_intror Hsome) Hf).
  exact Hfirst.
Qed.

Lemma X18_first_location_keeps_folder_witness :
  let enriched_data :=
    [record_with_images ["images/spot_1/a.jpg"];
     record_with_images ["images/spot_1/b.jpg"]] in
  let spots_dir : listing := [("spot_1", ["a.jpg"; "b.jpg"])] in
  fix_spots_json_mapping enriched_data spots_dir = Ok [("spot_1", 0%Z)] /\
  get 1 (fst (build_location_to_spot_mapping enriched_data))
    = Some "spot_1" /\
  get "spot_1" [("spot_1", 0%Z)] = Some (Z.of_nat 0).
Proof.
  intros enriched_data spots_dir.
  split; [reflexivity|]. split; [reflexivity|].
  apply (X18_first_location_keeps_folder enriched_data spots_dir
           [("spot_1", 0%Z)] "spot_1" 0).
  - reflexivity.
  - left. reflexivity.
  - reflexivity.
  - intros j _. apply Nat.le_0_l.
Defined.


Lemma first_pass_entries (existing_images : dict string (list string))
  (P : string * Z -> Prop) (items : dict nat string) :
  (forall i g, In (i, g) items -> mem g existing_images = true ->
               P (g, Z.of_nat i)) ->
  forall m0 : dict string Z,
    Forall P m0 ->
    Forall P
      (fold_left
         (fun spot_to_location '(loc_idx, spot_folder) =>
            if mem spot_folder existing_images
            then if negb (mem spot_folder spot_to_location)
                 then set spot_folder (Z.of_nat loc_idx) spot_to_location
                 else spot_to_location
            else spot_to_location)
         items m0).
Proof.
  induction items as [|[i g] items IH]; intros Hnew m0 Hm0; simpl;
    [exact Hm0|].
  assert (Hrest : forall i' g', In (i', g') items ->
                    mem g' existing_images = true -> P (g', Z.of_nat i')).
  { intros i' g' Hin. apply Hnew. now right. }
  destruct (mem g existing_images) eqn:Hg; [|now apply IH].
  destruct (mem g m0) eqn:Hm; simpl; [now apply IH|].
  apply IH; [exact Hrest|]. rewrite (set_new _ _ _ Hm).
  apply Forall_app. split; [exact Hm0|].
  constructor; [|constructor]. apply Hnew; [now left | exact Hg].
Qed.

Lemma fallback_entries (enriched_data : list Enriched.Location)
  (P : string * Z -> Prop) (folders : list string) :
  (forall f v location, In f folders ->
     int (remove "spot_" f) = Some v ->
     (v < Z.of_nat (List.length enriched_data))%Z ->
     py_index enriched_data v = Ok location -> P (f, v)) ->
  forall m mapped m' mapped',
    Forall P m ->
    fallback enriched_data folders (m, mapped) = Ok (m', mapped') ->
    Forall P m'.
Proof.
  induction folders as [|f folders IH]; intros Hnew m mapped m' mapped' Hm;
    simpl.
  - intros Hr; inversion Hr; subst. exact Hm.
  - assert (Hrest : forall g v location, In g folders ->
              int (remove "spot_" g) = Some v ->
              (v < Z.of_nat (List.length enriched_data))%Z ->
              py_index enriched_data v = Ok location -> P (g, v)).
    { intros g v location Hin. apply Hnew. now right. }
    destruct (mem f m) eqn:Hmem; [now apply IH|].
    destruct (int (remove "spot_" f)) as [idx|] eqn:Hint; [|now apply IH].
    destruct (Z.ltb_spec idx (Z.of_nat (List.length enriched_data)));
      simpl; [|now apply IH].
    destruct (negb (in_locations idx mapped)); [|now apply IH].
    destruct (py_index enriched_data idx) as [location|] eqn:Hp;
      [|discriminate].
    destruct (_ || _); [|now apply IH].
    apply IH; [exact Hrest|]. rewrite (set_new _ _ _ Hmem).
    apply Forall_app. split; [exact Hm|].
    constructor; [|constructor]. apply (Hnew f idx location); auto.
    now left.
Qed.

Lemma py_index_Ok_range {A : Type} (l : list A) (i : Z) (a : A) :
  py_index l i = Ok a ->
  (- Z.of_nat (List.length l) <= i < Z.of_nat (List.length l))%Z.
Proof.
  intros Hp.
  destruct (Z_lt_le_dec i (- Z.of_nat (List.length l))) as [Hlow | Hlow].
  - rewrite (py_index_below l i Hlow) in Hp. discriminate.
  - split; [exact Hlow|].
    destruct (Z_lt_le_dec i (Z.of_nat (List.length l))) as [Hhi | Hhi];
      [exact Hhi|].
    exfalso. unfold py_index in Hp.
    destruct (Z.ltb_spec i 0); [lia|].
    replace (i <? Z.of_nat (List.length l))%Z with false in Hp
      by (symmetry; apply Z.ltb_ge; lia).
    rewrite andb_false_r in Hp. discriminate.
Qed.

Lemma mapping_entries_indexable (enriched_data : list Enriched.Location)
  (spots_dir : listing) (spot_to_location : dict string Z)
  (spot_folder : string) (loc_idx : Z) :
  fix_spots_json_mapping enriched_data spots_dir = Ok spot_to_location ->
  get spot_folder spot_to_location = Some loc_idx ->
  In spot_folder (keys (get_existing_images spots_dir)) /\
  exists location, py_index enriched_data loc_idx = Ok location.
Proof.
  intros Hok Hget.
  set (inv := get_existing_images spots_dir) in *.
  set (P := fun e : string * Z =>
              In (fst e) (keys inv) /\
              exists location, py_index enriched_data (snd e) = Ok location).
  assert (HP : Forall P spot_to_location).
  { unfold fix_spots_json_mapping in Hok. fold inv in Hok.
    destruct (build_consistent enriched_data) as (Hlt & _ & _).
    destruct (build_location_to_spot_mapping enriched_data) as [l2s s2l].
    cbn [fst] in Hlt.
    destruct (fallback _ _ _) as [[m mapped]|] eqn:Hf; [|discriminate].
    inversion Hok; subst m.
    refine (fallback_entries enriched_data P (keys inv) _ _ _ _ _ _ Hf).
    - intros f v location Hin _ _ Hp.
      split; [exact Hin | now exists location].
    - apply first_pass_entries; [|constructor].
      intros i g Hin Hmem. split; [now apply mem_true_iff|]. simpl.
      apply (in_map fst) in Hin. apply Hlt in Hin. simpl in Hin.
      apply py_index_in_range. lia. }
  apply get_Some_In in Hget. rewrite Forall_forall in HP.
  exact (HP _ Hget).
Qed.

(** X19. When version 1 builds its mapping without an error, every entry
    maps a folder that exists on disk to an index that [enriched_data]
    can be read at: it lies between minus the length and the length. *)
Theorem X19_mapping_domain_and_range (enriched_data : list Enriched.Location)
  (spots_dir : listing) (spot_to_location : dict string Z)
  (spot_folder : string) (loc_idx : Z) :
  fix_spots_json_mapping enriched_data spots_dir = Ok spot_to_location ->
  get spot_folder spot_to_location = Some loc_idx ->
  In spot_folder (keys (get_existing_images spots_dir)) /\
  (- Z.of_nat (List.length enriched_data) <= loc_idx
   < Z.of_nat (List.length enriched_data))%Z /\
  exists location, py_index enriched_data loc_idx = Ok location.
Proof.
  intros Hok Hget.
  destruct (mapping_entries_indexable _ _ _ _ _ Hok Hget)
    as [Hk [location Hp]].
  split; [exact Hk|]. split; [now apply (py_index_Ok_range _ _ _ Hp)|].
  now exists location.
Qed.

Lemma X19_mapping_domain_and_range_witness :
  let enriched_data :=
    [record_with_images []; record_with_images ["images/spot_7/a.jpg"]] in
  let spots_dir : listing := [("spot_7", ["a.jpg"])] in
  fix_spots_json_mapping enriched_data spots_dir = Ok [("spot_7", 1%Z)] /\
  In "spot_7" (keys (get_existing_images spots_dir)).
Proof.
  intros enriched_data spots_dir. split; [reflexivity|].
  destruct (X19_mapping_domain_and_range enriched_data spots_dir
              [("spot_7", 1%Z)] "spot_7" 1%Z eq_refl eq_refl) as [Hk _].
  exact Hk.
Defined.





Lemma v1_append_spot_ok enriched_data (m : dict string Z) existing_images
  (spots : list Spot.t) (f : string) :
  (forall v, get f m = Some v ->
             (- Z.of_nat (List.length enriched_data) <= v)%Z) ->
  exists spot,
    append_spot enriched_data m existing_images spots f
      = Ok (spots ++ [spot])%list /\
    Spot.id spot = Some (Z.of_nat (List.length spots) + 1)%Z.
Proof.
  intros Hv. unfold append_spot.
  destruct (get f m) as [v|]; [|eexists; split; reflexivity].
  destruct (Z.ltb_spec v (Z.of_nat (List.length enriched_data)));
    [|eexists; split; reflexivity].
  destruct (py_index_in_range enriched_data v) as [location ->].
  { split; [now apply Hv | assumption]. }
  eexists; split; reflexivity.
Qed.

Lemma v1_build_spots_ok enriched_data (m : dict string Z) existing_images
  (names : list string) :
  (forall f v, get f m = Some v ->
               (- Z.of_nat (List.length enriched_data) <= v)%Z) ->
  forall spots, exists result,
    build_spots enriched_data m existing_images names spots = Ok result /\
    map Spot.id result =
    (map Spot.id spots ++
     map (fun i => Some (Z.of_nat i))
         (seq (S (List.length spots)) (List.length names)))%list.
Proof.
  intros Hv. induction names as [|n names IH]; intros spots; simpl.
  - exists spots. now rewrite app_nil_r.
  - destruct (v1_append_spot_ok enriched_data m existing_images spots n
                (Hv n)) as (spot & -> & Hid).
    destruct (IH (spots ++ [spot])%list) as (result & -> & Hids).
    exists result. split; [reflexivity|].
    rewrite Hids, map_app, length_app, <- app_assoc. simpl.
    rewrite Hid. do 3 f_equal; [lia|]. f_equal. lia.
Qed.

(** X20. When version 1 builds its mapping without an error, building
    the spots list cannot fail either: it returns one record per folder
    that has images, with the ids 1, 2, ... in order. *)
Theorem X20_v1_assembly_completes (enriched_data : list Enriched.Location)
  (spots_dir : listing) (spot_to_location : dict string Z) :
  fix_spots_json_mapping enriched_data spots_dir = Ok spot_to_location ->
  let N := List.length (get_existing_images spots_dir) in
  exists spots,
    fix_spots_json enriched_data spots_dir = Ok spots /\
    List.length spots = N /\
    map Spot.id spots = ids_from_one N.
Proof.
  intros Hok N. unfold fix_spots_json. rewrite Hok.
  destruct (v1_build_spots_ok enriched_data spot_to_location
              (get_existing_images spots_dir)
              (sorted (keys (get_existing_images spots_dir)))) with (spots := @nil Spot.t)
    as (result & Hr & Hids).
  { intros f v Hg.
    destruct (mapping_entries_indexable _ _ _ _ _ Hok Hg)
      as [_ [location Hp]].
    now apply (py_index_Ok_range _ _ _ Hp). }
  exists result. split; [exact Hr|].
  assert (Hi : map Spot.id result = ids_from_one N).
  { rewrite Hids. simpl. unfold ids_from_one, N, keys.
    now rewrite sorted_length, length_map. }
  split; [|exact Hi].
  rewrite <- (length_map Spot.id), Hi. unfold ids_from_one.
  now rewrite length_map, length_seq.
Qed.

Lemma X20_v1_assembly_completes_witness :
  let enriched_data := [record_with_images ["images/spot_7/a.jpg"]] in
  let spots_dir : listing := [("spot_7", ["a.jpg"]); ("spot_2", ["b.jpg"])] in
  fix_spots_json_mapping enriched_data spots_dir = Ok [("spot_7", 0%Z)] /\
  exists spots,
    fix_spots_json enriched_data spots_dir = Ok spots /\
    map Spot.id spots = [Some 1%Z; Some 2%Z].
Proof.
  intros enriched_data spots_dir. split; [reflexivity|].
  destruct (X20_v1_assembly_completes enriched_data spots_dir
              [("spot_7", 0%Z)] eq_refl) as (spots & Hs & _ & Hi).
  exists spots. split; [exact Hs | exact Hi].
Defined.

End V1More.

(** ** The most common folder of a location *)

Section CommonFolder.
Import PyStr PyDict PathNormalizer Inventory MappingV1.

Lemma count_spots_get (folders : list string) :
  forall (counts : dict string nat) f,
    get f (fold_left count_spot folders counts) =
    match images_in f folders with
    | 0 => get f counts
    | S _ => Some (get_or (get f counts) 0 + images_in f folders)
    end.
Proof.
  unfold images_in.
  induction folders as [|b folders IH]; intros counts f; simpl;
    [reflexivity|].
  rewrite IH.
  assert (Hs : get f (count_spot counts b) =
               if string_dec b f then Some (get_or (get f counts) 0 + 1)
               else get f counts).
  { unfold count_spot. destruct (string_dec b f) as [->|Hne].
    - now rewrite get_set_same.
    - now rewrite get_set_other by congruence. }
  rewrite Hs. destruct (string_dec b f) as [->|Hne].
  - simpl. destruct (count_occ string_dec folders f); f_equal; lia.
  - reflexivity.
Qed.

Lemma count_spots_NoDup (folders : list string) :
  forall counts : dict string nat,
    NoDup (keys counts) -> NoDup (keys (fold_left count_spot folders counts)).
Proof.
  induction folders as [|b folders IH]; intros counts Hnd; simpl;
    [exact Hnd|].
  apply IH. unfold count_spot. now apply NoDup_keys_set.
Qed.

Lemma count_spots_extends (folders : list string) :
  forall counts : dict string nat,
    exists ext,
      keys (fold_left count_spot folders counts) = (keys counts ++ ext)%list.
Proof.
  induction folders as [|b folders IH]; intros counts; simpl.
  - exists []. now rewrite app_nil_r.
  - destruct (IH (count_spot counts b)) as [ext ->].
    unfold count_spot. rewrite keys_set. destruct (mem b counts).
    + now exists ext.
    + exists (b :: ext). now rewrite <- app_assoc.
Qed.

Lemma in_split_first_folder (x : string) (l : list string) :
  In x l -> exists pre post, l = (pre ++ x :: post)%list /\ ~ In x pre.
Proof.
  induction l as [|y l IH]; [intros []|].
  destruct (string_dec y x) as [->|Hne].
  - intros _. exists [], l. split; [reflexivity | intros []].
  - intros [Hy | Hin]; [congruence|].
    destruct (IH Hin) as (pre & post & -> & Hpre).
    exists (y :: pre), post. split; [reflexivity|].
    intros [Hy | Hx]; [congruence | contradiction].
Qed.

Lemma counted_folder (folders : list string) (f : string) :
  In f folders ->
  get f (fold_left count_spot folders []) = Some (images_in f folders).
Proof.
  intros Hin. rewrite count_spots_get.
  apply (count_occ_In string_dec) in Hin. unfold images_in.
  destruct (count_occ string_dec folders f); [lia | reflexivity].
Qed.

Lemma uncounted_folder (folders : list string) (f : string) :
  ~ In f folders -> get f (fold_left count_spot folders []) = None.
Proof.
  intros Hin. rewrite count_spots_get.
  rewrite (count_occ_In string_dec) in Hin. unfold images_in.
  destruct (count_occ string_dec folders f); [reflexivity | lia].
Qed.

Lemma most_common_folder (folders : list string) :
  folders <> [] ->
  exists best c,
    py_max (fold_left count_spot folders []) = Some (best, c) /\
    In best folders /\
    (forall g, images_in g folders <= images_in best folders) /\
    exists pre post,
      folders = (pre ++ best :: post)%list /\ ~ In best pre /\
      forall g, In g pre -> images_in g folders < images_in best folders.
Proof.
  intros Hne.
  set (counts := fold_left count_spot folders []).
  assert (Hnd : NoDup (keys counts))
    by (apply count_spots_NoDup; constructor).
  destruct counts as [|hd tl] eqn:Ht.
  { destruct folders as [|b folders]; [congruence|].
    pose proof (counted_folder (b :: folders) b (or_introl eq_refl)) as Hg.
    fold counts in Hg. rewrite Ht in Hg. discriminate. }
  simpl. destruct (max_from_spec tl hd) as (Hmax & P & Q & He & HP).
  destruct (max_from hd tl) as [best c] eqn:Hm. simpl in *.
  exists best, c. split; [reflexivity|].
  assert (Hin : In (best, c) (hd :: tl)).
  { rewrite He. apply in_or_app. right. now left. }
  assert (Hg : get best (fold_left count_spot folders []) = Some c).
  { fold counts. rewrite Ht. apply In_get_Some; assumption. }
  assert (Hbest : In best folders).
  { destruct (in_dec string_dec best folders) as [Hi | Hi]; [exact Hi|].
    rewrite (uncounted_folder _ _ Hi) in Hg. discriminate. }
  assert (Hc : c = images_in best folders).
  { rewrite (counted_folder _ _ Hbest) in Hg. congruence. }
  assert (Hcount : forall g n, In (g, n) (hd :: tl) -> n = images_in g folders).
  { intros g n Hl. apply (In_get_Some g n (hd :: tl) Hnd) in Hl.
    rewrite <- Ht in Hl. unfold counts in Hl.
    destruct (in_dec string_dec g folders) as [Hi | Hi].
    - rewrite (counted_folder _ _ Hi) in Hl. congruence.
    - rewrite (uncounted_folder _ _ Hi) in Hl. discriminate. }
  split; [exact Hbest|]. subst c. split.
  - intros g. destruct (in_dec string_dec g folders) as [Hi | Hi].
    + pose proof (counted_folder _ _ Hi) as Hl. fold counts in Hl.
      rewrite Ht in Hl. apply get_Some_In in Hl. apply Hmax in Hl. exact Hl.
    + rewrite (count_occ_In string_dec) in Hi. unfold images_in. lia.
  - destruct (in_split_first_folder best folders Hbest)
      as (pre & post & Hv & Hpre).
    exists pre, post. split; [exact Hv|]. split; [exact Hpre|].
    intros g Hl.
    destruct (count_spots_extends (best :: post) (fold_left count_spot pre []))
      as [ext Hext].
    rewrite <- fold_left_app, <- Hv in Hext. fold counts in Hext.
    rewrite Ht in Hext.
    assert (HlK : In g (keys (fold_left count_spot pre []))).
    { apply mem_true_iff. unfold mem. now rewrite (counted_folder _ _ Hl). }
    assert (HbK : ~ In best (keys (fold_left count_spot pre []))).
    { apply get_None_iff. now apply uncounted_folder. }
    assert (HlP : In g (keys P)).
    { unfold keys in Hext at 1. rewrite He, map_app in Hext. simpl in Hext.
      apply app_eq_app in Hext. destruct Hext as [l0 [[H1 H2] | [H1 H2]]].
      - unfold keys. rewrite H1. apply in_or_app. now left.
      - destruct l0 as [|x l0].
        + rewrite app_nil_r in H1. unfold keys. now rewrite <- H1.
        + simpl in H2. injection H2 as Hx _. subst x.
          exfalso. apply HbK. rewrite H1. apply in_or_app. right. now left. }
    unfold keys in HlP. apply in_map_iff in HlP.
    destruct HlP as ([g' n] & Hfst & HinP). simpl in Hfst. subst g'.
    specialize (HP _ HinP). simpl in HP.
    rewrite (Hcount g n) in HP; [exact HP|].
    rewrite He. apply in_or_app. now left.
Qed.

Lemma map_location_get (k : nat) (location : Enriched.Location)
  (st : dict nat string * dict string (list nat)) (i : nat) :
  get i (fst (map_location st (k, location))) =
  if Nat.eqb i k
  then match image_folders
               (Enriched.images (Enriched.google_maps_data location)) with
       | [] => get i (fst st)
       | _ =>
           match py_max (fold_left count_spot
                           (image_folders
                              (Enriched.images
                                 (Enriched.google_maps_data location))) []) with
           | Some (most_common_spot, _) => Some most_common_spot
           | None => get i (fst st)
           end
       end
  else get i (fst st).
Proof.
  destruct st as [l2s s2l]. unfold map_location.
  destruct (image_folders _) as [|fd fds] eqn:Hf.
  - now destruct (Nat.eqb i k).
  - destruct (py_max _) as [[f c]|].
    + cbn [fst]. destruct (Nat.eqb_spec i k) as [->|Hne].
      * now rewrite get_set_same.
      * now rewrite get_set_other by exact Hne.
    + now destruct (Nat.eqb i k).
Qed.

Lemma fold_map_location_get (locs : list Enriched.Location) :
  forall k st i location,
    nth_error locs i = Some location ->
    get (k + i) (fst st) = None ->
    let folders :=
      image_folders (Enriched.images (Enriched.google_maps_data location)) in
    get (k + i) (fst (fold_left map_location (enumerate_from k locs) st)) =
    match folders with
    | [] => None
    | _ => option_map fst (py_max (fold_left count_spot folders []))
    end.
Proof.
  induction locs as [|l0 rest IH]; intros k st i location Hn Hnone;
    [destruct i; discriminate|].
  change (enumerate_from k (l0 :: rest))
    with ((k, l0) :: enumerate_from (S k) rest).
  cbn [fold_left]. destruct i as [|i].
  - simpl in Hn. injection Hn as ->. rewrite Nat.add_0_r in *.
    assert (Hrest : forall m st', k < m ->
              get k (fst (fold_left map_location (enumerate_from m rest) st')) =
              get k (fst st')).
    { clear. induction rest as [|l1 rest IH]; intros m st' Hlt;
        [reflexivity|].
      change (enumerate_from m (l1 :: rest))
        with ((m, l1) :: enumerate_from (S m) rest).
      cbn [fold_left]. rewrite IH by lia. rewrite map_location_get.
      destruct (Nat.eqb_spec k m); [lia | reflexivity]. }
    rewrite Hrest by lia. rewrite map_location_get, Nat.eqb_refl.
    cbv zeta. destruct (image_folders _) as [|fd fds]; [exact Hnone|].
    destruct (py_max _) as [[f c]|] eqn:Hm; [reflexivity | exact Hnone].
  - simpl in Hn. replace (k + S i) with (S k + i) in * by lia.
    apply IH; [exact Hn|]. rewrite map_location_get.
    destruct (Nat.eqb_spec (S k + i) k); [lia | exact Hnone].
Qed.

(** X21. Version 1 maps a location to the folder that most of its
    declared images lie in; among folders with that many images the one
    met first in the declarations is taken.  A location none of whose
    images lies in a spot folder is not mapped. *)
Theorem X21_location_maps_to_most_common_folder
  (enriched_data : list Enriched.Location) (loc_idx : nat)
  (location : Enriched.Location) :
  nth_error enriched_data loc_idx = Some location ->
  let folders :=
    image_folders (Enriched.images (Enriched.google_maps_data location)) in
  let location_to_spot := fst (build_location_to_spot_mapping enriched_data) in
  (folders = [] -> get loc_idx location_to_spot = None) /\
  (folders <> [] ->
   exists best,
     get loc_idx location_to_spot = Some best /\
     In best folders /\
     (forall g, images_in g folders <= images_in best folders) /\
     exists pre post,
       folders = (pre ++ best :: post)%list /\ ~ In best pre /\
       forall g, In g pre -> images_in g folders < images_in best folders).
Proof.
  intros Hn folders location_to_spot.
  assert (Hget : get loc_idx location_to_spot =
                 match folders with
                 | [] => None
                 | _ => option_map fst (py_max (fold_left count_spot folders []))
                 end).
  { unfold location_to_spot, build_location_to_spot_mapping.
    change (enumerate enriched_data) with (enumerate_from 0 enriched_data).
    apply (fold_map_location_get enriched_data 0 ([], []) loc_idx location Hn).
    reflexivity. }
  split.
  - intros He. rewrite Hget, He. reflexivity.
  - intros Hne. destruct (most_common_folder folders Hne)
      as (best & c & Hmax & Hrest).
    exists best. split; [|exact Hrest].
    rewrite Hget, Hmax. destruct folders; [congruence | reflexivity].
Qed.

Lemma X21_location_maps_to_most_common_folder_witness :
  let location :=
    record_with_images
      ["images/spot_1/a.jpg"; "images/spot_2/b.jpg"; "images/spot_2/c.jpg"] in
  nth_error [record_with_images []; location] 1 = Some location /\
  exists best,
    get 1 (fst (build_location_to_spot_mapping
                  [record_with_images []; location])) = Some best /\
    images_in "spot_1" ["spot_1"; "spot_2"; "spot_2"]
      <= images_in best ["spot_1"; "spot_2"; "spot_2"].
Proof.
  intros location. split; [reflexivity|].
  destruct (X21_location_maps_to_most_common_folder
              [record_with_images []; location] 1 location eq_refl)
    as [_ Hsome].
  destruct Hsome as (best & Hg & _ & Hmax & _); [discriminate|].
  exists best. split; [exact Hg | apply Hmax].
Defined.

End CommonFolder.

(** ** Scenarios of the specification, run on the embedding *)

Section Scenarios.
Import PyStr PyDict PathNormalizer.

(** Folder [spot_3] holds [a.jpg] and [b.jpg], both declared by location
    7: the folder is mapped to 7. *)
Example scenario_two_votes_for_location_7 :
  let enriched_data :=
    (repeat (record_with_images []) 7 ++
     [record_with_images ["images/spot_3/a.jpg"; "images/spot_3/b.jpg"]])%list in
  get "spot_3"
      (fst (MappingV2.build_spot_to_location_mapping
              enriched_data [("spot_3", ["a.jpg"; "b.jpg"])]))
  = Some 7.
Proof. reflexivity. Qed.

(** Two folders vote for location 5, with 3 and 2 votes: version 2 maps
    both of them to 5. *)
Example scenario_two_folders_vote_for_location_5 :
  let enriched_data :=
    (repeat (record_with_images []) 5 ++
     [record_with_images
        ["images/spot_0/a.jpg"; "images/spot_0/b.jpg"; "images/spot_0/c.jpg";
         "images/spot_1/d.jpg"; "images/spot_1/e.jpg"]])%list in
  let spots_dir : listing :=
    [("spot_0", ["a.jpg"; "b.jpg"; "c.jpg"]); ("spot_1", ["d.jpg"; "e.jpg"])] in
  fst (MappingV2.build_spot_to_location_mapping enriched_data spots_dir)
  = [("spot_0", 5); ("spot_1", 5)].
Proof. reflexivity. Qed.

(** Paths in both separator conventions, with and without a recognised
    prefix. *)
Example scenario_paths :
  get_spot_folder_from_path "scraped_data\images\spot_12\img.jpg"
    = Some "spot_12" /\
  get_spot_folder_from_path "Images/spot_1/a.jpg" = Some "spot_1" /\
  get_spot_folder_from_path "photos/a.jpg" = None /\
  get_image_filename_from_path "images/spot_12/img.jpg" = "img.jpg" /\
  MappingV2.image_key "images/spot_12/img.jpg" = "spot_12/img.jpg" /\
  MappingV2.image_key "photos/a.jpg" = "a.jpg".
Proof. repeat split; reflexivity. Qed.

(** A record at (0,0) inside a box that contains (0,0) is still
    rejected; a record in Kuala Lumpur passes; the same record named
    after Singapore does not. *)
Example scenario_geofence :
  Geofence.is_region_location (-1) 1 (-1) 1 0 0 "a" "b" "c" = false /\
  Geofence.is_malaysia_location (3.1)%Q (101.6)%Q "KLCC Park" "" "" = true /\
  Geofence.is_malaysia_location (3.1)%Q (101.6)%Q "SINGAPORE Zoo" "" ""
    = false.
Proof. repeat split; reflexivity. Qed.

End Scenarios.
